(** * Remote-sensing home server: subset fetcher and normalized-difference analyzer

    A shallow embedding of [satellite_fetcher.py] and [satellite_analyzer.py].

    - Numbers are IEEE-754 binary floats, modelled bit-exactly with the
      Standard Library's [spec_float] ([float32] for the analyzer's arrays
      after [astype('float32')], [float64] for Python floats: coordinates,
      window offsets, affine coefficients).
    - NumPy arrays are two-dimensional grids with an explicit shape, and the
      elementwise operators follow NumPy's broadcasting rule.
    - Python dicts ([vrt.profile], [src.meta]) are [gmap string pyval].
    - Functions that print, write files or raise run in a small
      trace-and-exception monad; what [rasterio], [pystac_client], [geopy]
      and [matplotlib] do is a parameter of the model (record [library]). *)

From Stdlib Require Import ZArith Bool Lia SpecFloat.
From stdpp Require Import gmap strings list fin_maps.

(** ** IEEE-754 formats *)

Abbreviation float32 := spec_float (only parsing).
Abbreviation float64 := spec_float (only parsing).

Module F32.
Definition prec : Z := 24.
Definition emax : Z := 128.
Definition add : float32 -> float32 -> float32 := SFadd prec emax.
Definition sub : float32 -> float32 -> float32 := SFsub prec emax.
Definition div : float32 -> float32 -> float32 := SFdiv prec emax.
Definition of_Z (z : Z) : float32 := binary_normalize prec emax z 0 false.
Definition zero : float32 := S754_zero false.
Definition one : float32 := of_Z 1.
Definition minus_one : float32 := of_Z (-1).
Definition valid (x : float32) : bool := valid_binary prec emax x.
End F32.

Module F64.
Definition prec : Z := 53.
Definition emax : Z := 1024.
Definition add : float64 -> float64 -> float64 := SFadd prec emax.
Definition sub : float64 -> float64 -> float64 := SFsub prec emax.
Definition mul : float64 -> float64 -> float64 := SFmul prec emax.
Definition div : float64 -> float64 -> float64 := SFdiv prec emax.
Definition of_Z (z : Z) : float64 := binary_normalize prec emax z 0 false.
Definition zero : float64 := S754_zero false.
Definition valid (x : float64) : bool := valid_binary prec emax x.
End F64.

(** A float that is neither an infinity nor a NaN. *)
Definition is_finite (x : spec_float) : bool :=
  match x with
  | S754_zero _ | S754_finite _ _ _ => true
  | S754_infinity _ | S754_nan => false
  end.

Definition is_nan (x : spec_float) : bool :=
  match x with S754_nan => true | _ => false end.

Definition is_zero (x : spec_float) : bool :=
  match x with S754_zero _ => true | _ => false end.

(** Equality of two floats as values: what [==] answers, except that two
    NaNs count as the same value (the convention of
    [numpy.testing.assert_array_equal]). The two zeros are the same value. *)
Definition same_value (x y : spec_float) : bool :=
  match x, y with
  | S754_nan, S754_nan => true
  | _, _ => SFeqb x y
  end.

(** ** Exceptions and results *)

Inductive exception :=
  | ValueError (msg : string)
  | TypeError (msg : string)
  | IndexError (msg : string)
  | KeyError (msg : string)
  | TransientAccessError (msg : string)   (* cannot open / network / expired URL *)
  | DecodingError (msg : string).         (* corrupt or unsupported raster data *)

Definition exn_message (e : exception) : string :=
  match e with
  | ValueError m | TypeError m | IndexError m | KeyError m
  | TransientAccessError m | DecodingError m => m
  end.

Inductive result (A : Type) :=
  | Ok (a : A)
  | Raise (e : exception).
Arguments Ok {A} a.
Arguments Raise {A} e.

Definition rbind {A B} (r : result A) (k : A -> result B) : result B :=
  match r with
  | Ok a => k a
  | Raise e => Raise e
  end.

Definition is_ok {A} (r : result A) : bool :=
  match r with Ok _ => true | Raise _ => false end.

#[global] Instance result_ret : MRet result := fun A a => Ok a.
#[global] Instance result_bind : MBind result := fun A B k r => rbind r k.

(** ** NumPy arrays (two-dimensional) *)

Record ndarray (A : Type) := NdArray {
  nrows : nat;
  ncols : nat;
  cells : list (list A)
}.
Arguments NdArray {A} nrows ncols cells.
Arguments nrows {A} n.
Arguments ncols {A} n.
Arguments cells {A} n.

Definition shape {A} (a : ndarray A) : nat * nat := (nrows a, ncols a).

(** The rows agree with the declared shape. *)
Definition well_shaped {A} (a : ndarray A) : Prop :=
  length (cells a) = nrows a /\ Forall (fun r => length r = ncols a) (cells a).

Definition cell {A} (a : ndarray A) (i j : nat) : option A :=
  match cells a !! i with
  | Some row => row !! j
  | None => None
  end.

Definition tabulate {A} (r c : nat) (f : nat -> nat -> A) : ndarray A :=
  NdArray r c ((fun i => f i <$> seq 0 c) <$> seq 0 r).

Definition amap {A B} (f : A -> B) (a : ndarray A) : ndarray B :=
  @NdArray B (nrows a) (ncols a) ((fun row : list A => f <$> row) <$> cells a).

(** Broadcasting of one axis: equal extents, or one of them is 1. *)
Definition broadcast_dim (n m : nat) : option nat :=
  if Nat.eqb n m then Some n
  else if Nat.eqb n 1 then Some m
  else if Nat.eqb m 1 then Some n
  else None.

Definition broadcast_shape (s t : nat * nat) : option (nat * nat) :=
  match broadcast_dim (fst s) (fst t), broadcast_dim (snd s) (snd t) with
  | Some r, Some c => Some (r, c)
  | _, _ => None
  end.

(** Index along an axis of extent [n] when the array is stretched. *)
Definition bidx (n i : nat) : nat := if Nat.eqb n 1 then 0%nat else i.

Definition bcell {A} (a : ndarray A) (i j : nat) : option A :=
  cell a (bidx (nrows a) i) (bidx (ncols a) j).

Definition broadcast_error : exception :=
  ValueError "operands could not be broadcast together".

(** An elementwise binary operator ([+], [-], [/], [==] on arrays). *)
Definition np_binop {A B C} (dflt : C) (op : A -> B -> C)
    (x : ndarray A) (y : ndarray B) : result (ndarray C) :=
  match broadcast_shape (shape x) (shape y) with
  | Some (r, c) =>
      Ok (tabulate r c (fun i j =>
            match bcell x i j, bcell y i j with
            | Some u, Some v => op u v
            | _, _ => dflt
            end))
  | None => Raise broadcast_error
  end.

Definition np_add := np_binop S754_nan F32.add.
Definition np_sub := np_binop S754_nan F32.sub.
Definition np_div := np_binop S754_nan F32.div.

(** [arr == 0.] : comparison of every cell with a scalar. *)
Definition np_eq_scalar (a : ndarray float32) (k : float32) : ndarray bool :=
  amap (fun v => SFeqb v k) a.

(** [np.where(cond, k, arr)] with a scalar second argument. *)
Definition np_where_scalar (cond : ndarray bool) (k : float32)
    (a : ndarray float32) : result (ndarray float32) :=
  np_binop S754_nan (fun (c : bool) v => if c then k else v) cond a.

(** ** The normalized difference engine ([calculate_index], lines 24-29)

    [denominator = b1 + b2] and
    [np.where(denominator == 0., 0., (b1 - b2) / denominator)]. *)
Definition normalized_difference (b1 b2 : ndarray float32)
    : result (ndarray float32) :=
  denominator ← np_add b1 b2;
  difference ← np_sub b1 b2;
  quotient ← np_div difference denominator;
  np_where_scalar (np_eq_scalar denominator F32.zero) F32.zero quotient.

(** What one output cell holds, from the two input cells. *)
Definition index_cell (u v : float32) : float32 :=
  if SFeqb (F32.add u v) F32.zero then F32.zero
  else F32.div (F32.sub u v) (F32.add u v).


(** ** Rasters, metadata dicts and georeferencing *)

(** A stored pixel: an integer sample (uint8, uint16, int16, ... rasters) or
    a float32 sample. *)
Inductive pixel :=
  | PxInt (z : Z)
  | PxFloat (x : float32).

(** [.astype('float32')] on one sample: integers are rounded to nearest. *)
Definition astype_float32 (p : pixel) : float32 :=
  match p with
  | PxInt z => F32.of_Z z
  | PxFloat x => x
  end.

(** Affine transform [(a, b, c, d, e, f)]: pixel [(col, row)] to world
    [(x, y)]. *)
Record affine := Affine {
  af_a : float64; af_b : float64; af_c : float64;
  af_d : float64; af_e : float64; af_f : float64
}.

(** Modelled from the spec: the affine transform is "the linear mapping from
    pixel coordinates to world (map) coordinates"; the [affine] package that
    implements [transform * (col, row)] is not part of the sources. The
    products and sums are float64 operations, in the order
    [col * a + row * b + c]. *)
Definition affine_apply (t : affine) (col row : float64) : float64 * float64 :=
  (F64.add (F64.add (F64.mul col (af_a t)) (F64.mul row (af_b t))) (af_c t),
   F64.add (F64.add (F64.mul col (af_d t)) (F64.mul row (af_e t))) (af_f t)).

(** A pixel window of a view; rasterio keeps the four numbers as floats. *)
Record window := Window {
  col_off : float64;
  row_off : float64;
  width : float64;
  height : float64
}.

(** Modelled from the spec: [vrt.window_transform(window)] belongs to
    rasterio, which is not part of the sources. Section 4.3: "the view's
    reprojected transform adjusted for the window's row/column offset (i.e.,
    the new transform's origin is the world coordinate of the window's
    top-left pixel, with the same pixel size/rotation as the view)". *)
Definition window_transform (t : affine) (w : window) : affine :=
  let origin := affine_apply t (col_off w) (row_off w) in
  {| af_a := af_a t; af_b := af_b t; af_c := fst origin;
     af_d := af_d t; af_e := af_e t; af_f := snd origin |}.

(** Values stored in a profile / meta dict. *)
Inductive pyval :=
  | PyNone
  | PyStr (s : string)
  | PyInt (z : Z)
  | PyFloat (x : float64)
  | PyAffine (t : affine).

(** [(west, south, east, north)] *)
Record bounding_box := BBox {
  west : float64; south : float64; east : float64; north : float64
}.

(** An opened raster: its bands and its [meta] / [profile] dict. *)
Record dataset := Dataset {
  ds_bands : list (ndarray pixel);
  ds_meta : gmap string pyval
}.

(** A [WarpedVRT] over a source: its reprojected transform, its profile and
    its two methods; the methods are rasterio's and are taken as given. *)
Record view := View {
  vrt_transform : affine;
  vrt_profile : gmap string pyval;
  vrt_window : bounding_box -> result window;
  vrt_read : window -> result (list (ndarray pixel))
}.

(** One entry of the STAC search result. *)
Record item := Item {
  item_date : string;                    (* [datetime.strftime('%Y-%m-%d')] *)
  item_cloud_cover : pyval;              (* [properties['eo:cloud_cover']] *)
  item_assets : gmap string string       (* asset key to signed href *)
}.

Record search_request := SearchRequest {
  sr_collections : list string;
  sr_bbox : bounding_box;
  sr_datetime : string;
  sr_cloud_cover_lt : float64
}.

(** ** The outside world

    Everything the two scripts obtain from their libraries. *)
Record library := Library {
  rio_open : string -> result dataset;              (* [rasterio.open(path)] *)
  warped_vrt : dataset -> string -> result view;    (* [WarpedVRT(src, crs=..)] *)
  rio_write : string -> gmap string pyval -> list (ndarray pixel) -> result unit;
                                  (* [rasterio.open(path, 'w', **profile)] and [dst.write] *)
  path_exists : string -> bool;                     (* [Path(p).exists()] *)
  geocode : string -> result (option (float64 * float64));
                                  (* [(longitude, latitude)] of [geolocator.geocode] *)
  catalog_search : search_request -> result (list item);
  http_get : string -> string -> result unit;       (* stream a URL into a file *)
  savefig : string -> result unit;                  (* [plt.savefig(path, ..)] *)
  today : string                                    (* [datetime.now().strftime(..)] *)
}.

(** ** Effects: a trace of prints and library calls, and exceptions *)

Inductive piece :=
  | Str (s : string)
  | Num (x : float64)
  | Val (v : pyval).

Inductive lib_call :=
  | COpen (path : string)
  | CWarp (crs : string)
  | CWindow (bbox : bounding_box)
  | CRead (w : window)
  | CWrite (path : string) (profile : gmap string pyval) (data : list (ndarray pixel))
  | CGeocode (address : string)
  | CSearch (req : search_request)
  | CHttpGet (url path : string)
  | CSaveFig (path : string) (data : ndarray float32) (cmap title : string).

Inductive event :=
  | Print (line : list piece)
  | Call (c : lib_call).

(** A computation yields its outcome and the events it produced, in order. *)
Definition M (A : Type) : Type := (result A * list event)%type.

#[global] Instance M_ret : MRet M := fun A a => (Ok a, []).
#[global] Instance M_bind : MBind M := fun A B k m =>
  match m with
  | (Ok a, es) => let '(r, es') := k a in (r, es ++ es')
  | (Raise e, es) => (Raise e, es)
  end.

Definition outcome {A} (m : M A) : result A := fst m.
Definition events {A} (m : M A) : list event := snd m.

Definition print (line : list piece) : M unit := (Ok tt, [Print line]).
Definition raise {A} (e : exception) : M A := (Raise e, []).

(** A pure computation that may raise. *)
Definition lift {A} (r : result A) : M A := (r, []).

(** A library call: recorded in the trace, with its outcome. *)
Definition call {A} (c : lib_call) (r : result A) : M A := (r, [Call c]).

(** [try: body except Exception as e: handler(e)] *)
Definition try_except {A} (body : M A) (handler : exception -> M A) : M A :=
  match body with
  | (Ok a, es) => (Ok a, es)
  | (Raise e, es) => let '(r, es') := handler e in (r, es ++ es')
  end.

(** [for x in xs: body(x)] *)
Fixpoint for_each {A} (xs : list A) (body : A -> M unit) : M unit :=
  match xs with
  | [] => mret tt
  | x :: rest => body x ;; for_each rest body
  end.

(** ** [satellite_fetcher.py] *)

(** Lines 62-70 of [download_subset]: the profile of the cropped raster. *)
Definition synthesize_profile (vrt : view) (w : window) : gmap string pyval :=
  let transform := window_transform (vrt_transform vrt) w in
  <["transform" := PyAffine transform]>
    (<["width" := PyFloat (width w)]>
      (<["height" := PyFloat (height w)]>
        (<["driver" := PyStr "GTiff"]> (vrt_profile vrt)))).

(** Lines 52-76: the body of the [try] block of [download_subset]. *)
Definition subset_body (lib : library) (href save_path : string)
    (bbox : bounding_box) : M unit :=
  src ← call (COpen href) (rio_open lib href);
  vrt ← call (CWarp "EPSG:4326") (warped_vrt lib src "EPSG:4326");
  w ← call (CWindow bbox) (vrt_window vrt bbox);
  data ← call (CRead w) (vrt_read vrt w);
  let profile := synthesize_profile vrt w in
  call (CWrite save_path profile data) (rio_write lib save_path profile data) ;;
  print [Str "完了（切り抜き成功）: "; Str save_path].

(** Lines 78-80: the [except Exception as e] handler. *)
Definition subset_handler (e : exception) : M unit :=
  print [Str "部分ダウンロードエラー: "; Str (exn_message e)] ;;
  print [Str "※URLの有効期限切れや、GDAL/Rasterioのバージョン相性の可能性があります。"].

Definition download_subset (lib : library) (href save_path : string)
    (bbox : bounding_box) : M unit :=
  print [Str "部分ダウンロード開始: "; Str save_path; Str " ..."] ;;
  try_except (subset_body lib href save_path bbox) subset_handler.

(** The first line printed by [download_subset], as an event. *)
Definition start_line (save_path : string) : event :=
  Print [Str "部分ダウンロード開始: "; Str save_path; Str " ..."].

(** The two lines printed by the handler. *)
Definition error_lines (e : exception) : list event :=
  [Print [Str "部分ダウンロードエラー: "; Str (exn_message e)];
   Print [Str "※URLの有効期限切れや、GDAL/Rasterioのバージョン相性の可能性があります。"]].

Definition download_file (lib : library) (url save_path : string) : M unit :=
  try_except
    (call (CHttpGet url save_path) (http_get lib url save_path) ;;
     print [Str "完了"])
    (fun e => print [Str "ダウンロードエラー: "; Str (exn_message e)]).

Definition get_coords_from_address (lib : library) (address : string)
    : M (float64 * float64) :=
  location ← call (CGeocode address) (geocode lib address);
  match location with
  | Some lonlat => mret lonlat
  | None =>
      raise (ValueError ("住所 '" +:+ address +:+ "' の座標が見つかりませんでした。"))
  end.

Inductive index_choice := IdxPreview | IdxNdvi | IdxNdwi | IdxAll.

(** The [argparse] namespace. *)
Record arguments := MkArguments {
  arg_address : option string;
  arg_point : option (float64 * float64);
  arg_index : index_choice;
  arg_coord_only : bool;
  arg_cloud_cover : float64;
  arg_start_date : string;
  arg_end_date : option string;
  arg_bbox_size : float64;
  arg_save : bool;
  arg_output : option string
}.

(** Truthiness of an optional string: [None] and [''] are false. *)
Definition truthy (o : option string) : option string :=
  match o with
  | Some "" | None => None
  | Some s => Some s
  end.

(** Line 125: [[lon - size, lat - size, lon + size, lat + size]]. *)
Definition search_bbox (lon lat size : float64) : bounding_box :=
  {| west := F64.sub lon size; south := F64.sub lat size;
     east := F64.add lon size; north := F64.add lat size |}.

(** [best_item.assets[key].href] *)
Definition asset_href (it : item) (key : string) : M string :=
  match item_assets it !! key with
  | Some href => mret href
  | None => raise (KeyError key)
  end.

(** Lines 158-162: the bands to fetch, without duplicates. A Python set of
    strings has no specified iteration order; the order here is that of
    [elements]. *)
Definition wanted_bands (idx : index_choice) : list string :=
  let ndvi := match idx with IdxNdvi | IdxAll => ["B04"; "B08"] | _ => [] end in
  let ndwi := match idx with IdxNdwi | IdxAll => ["B03"; "B11"] | _ => [] end in
  elements (list_to_set (ndvi ++ ndwi) : gset string).

(** Lines 107-112: the target coordinates. *)
Definition resolve_target (lib : library) (args : arguments)
    : M (float64 * float64) :=
  match truthy (arg_address args) with
  | Some address =>
      print [Str "住所 '"; Str address; Str "' の座標を検索中..."] ;;
      get_coords_from_address lib address
  | None =>
      match arg_point args with
      | Some lonlat => mret lonlat
      | None => raise (TypeError "cannot unpack non-iterable NoneType object")
      end
  end.

Definition fetcher_main (lib : library) (args : arguments) : M unit :=
  '(lon, lat) ← resolve_target lib args;
  print [Str "Target: "; Num lon; Str ", "; Num lat] ;;
  if arg_coord_only args then mret tt else
  let end_date :=
    match truthy (arg_end_date args) with Some d => d | None => today lib end in
  let bbox := search_bbox lon lat (arg_bbox_size args) in
  let request :=
    {| sr_collections := ["sentinel-2-l2a"];
       sr_bbox := bbox;
       sr_datetime := arg_start_date args +:+ "/" +:+ end_date;
       sr_cloud_cover_lt := arg_cloud_cover args |} in
  items ← call (CSearch request) (catalog_search lib request);
  match items with
  | [] => print [Str "画像が見つかりませんでした。条件を緩和してください。"]
  | best_item :: _ =>
      let date_str := item_date best_item in
      print [Str "データ発見: "; Str date_str; Str " (雲量: ";
             Val (item_cloud_cover best_item); Str "%)"] ;;
      let base_name :=
        match truthy (arg_output args) with
        | Some o => o
        | None => "sentinel2_" +:+ date_str
        end in
      match arg_index args with
      | IdxPreview | IdxAll =>
          url ← asset_href best_item "rendered_preview";
          print [Str "[Preview] "; Str url] ;;
          if arg_save args
          then download_file lib url (base_name +:+ "_preview.jpg")
          else mret tt
      | _ => mret tt
      end ;;
      match arg_index args with
      | IdxNdvi | IdxNdwi | IdxAll =>
          if negb (arg_save args)
          then print [Str "※解析用データのURL取得は --save オプションが必要です"]
          else
            for_each (wanted_bands (arg_index args)) (fun band =>
              href ← asset_href best_item band;
              print [Str "["; Str band; Str "] 部分ダウンロード中..."] ;;
              download_subset lib href (base_name +:+ "_" +:+ band +:+ ".tif") bbox)
      | IdxPreview => mret tt
      end
  end.

(** ** [satellite_analyzer.py] *)

(** [src.read(k)]: band [k], counted from 1. *)
Definition read_band (ds : dataset) (k : nat) : result (ndarray pixel) :=
  match k with
  | O => Raise (IndexError "band index 0 out of range")
  | S i =>
      match ds_bands ds !! i with
      | Some band => Ok band
      | None => Raise (IndexError "band index out of range")
      end
  end.

(** [np.fmin] / [np.fmax] on two values: a NaN operand is ignored. *)
Definition fmin (x y : float32) : float32 :=
  match x, y with
  | S754_nan, _ => y
  | _, S754_nan => x
  | _, _ => if SFltb y x then y else x
  end.

Definition fmax (x y : float32) : float32 :=
  match x, y with
  | S754_nan, _ => y
  | _, S754_nan => x
  | _, _ => if SFltb x y then y else x
  end.

Definition zero_size_error (ufunc : string) : exception :=
  ValueError ("zero-size array to reduction operation " +:+ ufunc +:+
              " which has no identity").

(** [np.nanmin] / [np.nanmax]: a reduction over all cells, which raises on
    an array without cells. *)
Definition np_nanmin (a : ndarray float32) : result float32 :=
  match concat (cells a) with
  | [] => Raise (zero_size_error "fmin")
  | v :: vs => Ok (foldl fmin v vs)
  end.

Definition np_nanmax (a : ndarray float32) : result float32 :=
  match concat (cells a) with
  | [] => Raise (zero_size_error "fmax")
  | v :: vs => Ok (foldl fmax v vs)
  end.

(** [calculate_index]; the two numbers of the closing message are kept as
    numbers (the source formats them with [:.2f]). *)
Definition calculate_index (lib : library)
    (band1_path band2_path index_name : string)
    : M (ndarray float32 * gmap string pyval) :=
  print [Str "["; Str index_name; Str "] 計算開始: ";
         Str band1_path; Str " & "; Str band2_path] ;;
  src1 ← call (COpen band1_path) (rio_open lib band1_path);
  raw1 ← lift (read_band src1 1);
  let b1 := amap astype_float32 raw1 in
  let meta := ds_meta src1 in
  src2 ← call (COpen band2_path) (rio_open lib band2_path);
  raw2 ← lift (read_band src2 1);
  let b2 := amap astype_float32 raw2 in
  index_map ← lift (normalized_difference b1 b2);
  lo ← lift (np_nanmin index_map);
  hi ← lift (np_nanmax index_map);
  print [Str "["; Str index_name; Str "] 計算完了 (Min: "; Num lo;
         Str ", Max: "; Num hi; Str ")"] ;;
  mret (index_map, meta).

Definition save_heatmap (lib : library) (data : ndarray float32)
    (output_path cmap title : string) : M unit :=
  call (CSaveFig output_path data cmap title) (savefig lib output_path) ;;
  print [Str "画像保存完了: "; Str output_path].

(** Lines 54-64 of [main]: the NDVI block. *)
Definition ndvi_block (lib : library) (base : string) : M unit :=
  let b08_path := base +:+ "_B08.tif" in
  let b04_path := base +:+ "_B04.tif" in
  if path_exists lib b08_path && path_exists lib b04_path then
    '(ndvi, _) ← calculate_index lib b08_path b04_path "NDVI";
    save_heatmap lib ndvi (base +:+ "_NDVI_result.png") "RdYlGn"
                 ("NDVI Analysis: " +:+ base)
  else
    print [Str "スキップ: NDVI計算用のファイル("; Str b08_path; Str ", ";
           Str b04_path; Str ")が見つかりません。"].

(** Lines 66-77 of [main]: the MNDWI block. *)
Definition mndwi_block (lib : library) (base : string) : M unit :=
  let b03_path := base +:+ "_B03.tif" in
  let b11_path := base +:+ "_B11.tif" in
  if path_exists lib b03_path && path_exists lib b11_path then
    '(mndwi, _) ← calculate_index lib b03_path b11_path "MNDWI";
    save_heatmap lib mndwi (base +:+ "_MNDWI_result.png") "PuBu"
                 ("MNDWI Analysis: " +:+ base)
  else
    print [Str "スキップ: MNDWI計算用のファイル("; Str b03_path; Str ", ";
           Str b11_path; Str ")が見つかりません。"].

Definition analyzer_main (lib : library) (base : string) : M unit :=
  ndvi_block lib base ;; mndwi_block lib base.

(** ** Sample inputs *)

(** A float32 array from integer samples, as [astype('float32')] yields. *)
Definition band_of (r c : nat) (rows : list (list Z)) : ndarray float32 :=
  NdArray r c ((fun row : list Z => F32.of_Z <$> row) <$> rows).

(** The two synthetic 2x2 bands of the specification's scenario. *)
Definition sample_a : ndarray float32 := band_of 2 2 [[10; 10]; [0; 5]]%Z.
Definition sample_b : ndarray float32 := band_of 2 2 [[10; 10]; [0; 0]]%Z.

(** A 1x1 band and a 2x3 band. *)
Definition sample_scalar : ndarray float32 := band_of 1 1 [[3]]%Z.
Definition sample_wide : ndarray float32 := band_of 2 3 [[1; 2; 3]; [4; 5; 6]]%Z.

(** A view over a one-band uint16 source whose reads time out, and one whose
    reads hit corrupt data; both resolve every bounding box to the same
    window. *)
Definition sample_transform : affine :=
  {| af_a := F64.of_Z 2; af_b := F64.zero; af_c := F64.of_Z 100;
     af_d := F64.zero; af_e := F64.of_Z (-2); af_f := F64.of_Z 50 |}.

Definition sample_window : window :=
  {| col_off := F64.of_Z 3; row_off := F64.of_Z 4;
     width := F64.of_Z 2; height := F64.of_Z 2 |}.

Definition sample_profile : gmap string pyval :=
  <["driver" := PyStr "VRT"]>
    (<["dtype" := PyStr "uint16"]>
      (<["count" := PyInt 1]>
        (<["width" := PyInt 10980]>
          (<["height" := PyInt 10980]>
            (<["crs" := PyStr "EPSG:4326"]>
              (<["transform" := PyAffine sample_transform]> ∅)))))).

Definition sample_view (read : window -> result (list (ndarray pixel))) : view :=
  {| vrt_transform := sample_transform;
     vrt_profile := sample_profile;
     vrt_window := fun _ => Ok sample_window;
     vrt_read := read |}.

Definition sample_pixels : ndarray pixel :=
  NdArray 2 2 [[PxInt 10; PxInt 10]; [PxInt 0; PxInt 5]].

Definition sample_source : dataset :=
  {| ds_bands := [sample_pixels]; ds_meta := sample_profile |}.

(** A world in which every source opens and warps to [sample_view read]. *)
Definition sample_library (read : window -> result (list (ndarray pixel)))
    : library :=
  {| rio_open := fun _ => Ok sample_source;
     warped_vrt := fun _ _ => Ok (sample_view read);
     rio_write := fun _ _ _ => Ok tt;
     path_exists := fun _ => true;
     geocode := fun _ => Ok None;
     catalog_search := fun _ => Ok [];
     http_get := fun _ _ => Ok tt;
     savefig := fun _ => Ok tt;
     today := "2024-01-01" |}.

Definition read_ok : window -> result (list (ndarray pixel)) :=
  fun _ => Ok [sample_pixels].
Definition read_expired : window -> result (list (ndarray pixel)) :=
  fun _ => Raise (TransientAccessError "HTTP response code: 403").
Definition read_corrupt : window -> result (list (ndarray pixel)) :=
  fun _ => Raise (DecodingError "Read failed. See previous exception for details.").

Definition sample_bbox : bounding_box :=
  search_bbox (F64.of_Z 139) (F64.of_Z 35) (F64.of_Z 1).

(** A world whose rasters are the files of a local directory. *)
Definition disk_library (files : gmap string dataset) : library :=
  {| rio_open := fun path =>
       match files !! path with
       | Some ds => Ok ds
       | None => Raise (TransientAccessError (path +:+ ": No such file or directory"))
       end;
     warped_vrt := fun _ _ => Raise (TransientAccessError "not a remote source");
     rio_write := fun _ _ _ => Ok tt;
     path_exists := fun path => bool_decide (is_Some (files !! path));
     geocode := fun _ => Ok None;
     catalog_search := fun _ => Ok [];
     http_get := fun _ _ => Ok tt;
     savefig := fun _ => Ok tt;
     today := "2024-01-01" |}.

Definition raster_of (r c : nat) (rows : list (list Z)) (driver : string)
    : dataset :=
  {| ds_bands := [NdArray r c ((fun row : list Z => PxInt <$> row) <$> rows)];
     ds_meta := <["driver" := PyStr driver]> sample_profile |}.

(** Four band files of one place; B08 and B04 have shapes that cannot be
    broadcast (2x2 against 2x3), B03 and B11 are both 2x2. *)
Definition town_files : gmap string dataset :=
  <["town_B08.tif" := raster_of 2 2 [[10; 10]; [0; 5]]%Z "GTiff"]>
    (<["town_B04.tif" := raster_of 2 3 [[1; 2; 3]; [4; 5; 6]]%Z "GTiff"]>
      (<["town_B03.tif" := raster_of 2 2 [[10; 10]; [0; 5]]%Z "GTiff"]>
        (<["town_B11.tif" := raster_of 2 2 [[10; 10]; [0; 0]]%Z "COG"]> ∅))).

(** The messages of the two skipped computations, as events. *)
Definition skip_ndvi (base : string) : event :=
  Print [Str "スキップ: NDVI計算用のファイル("; Str (base +:+ "_B08.tif");
         Str ", "; Str (base +:+ "_B04.tif"); Str ")が見つかりません。"].

Definition skip_mndwi (base : string) : event :=
  Print [Str "スキップ: MNDWI計算用のファイル("; Str (base +:+ "_B03.tif");
         Str ", "; Str (base +:+ "_B11.tif"); Str ")が見つかりません。"].

(** ** Vocabulary of the statements *)

(** Two floats that are identical, or are both zeros (of any sign). *)
Definition zero_like (x y : spec_float) : Prop :=
  x = y \/ exists s s', x = S754_zero s /\ y = S754_zero s'.

(** The four pixel-size / rotation coefficients of a transform are finite. *)
Definition finite_pixel_size (t : affine) : bool :=
  is_finite (af_a t) && is_finite (af_b t) &&
  is_finite (af_d t) && is_finite (af_e t).

(** The rank of a float in its format: the value counted in units of the
    smallest positive float, with the infinities one step beyond the largest
    finite float. On valid floats the order of ranks is the order of the
    floats. *)
Definition float_ord (prec emax : Z) (x : spec_float) : Z :=
  match x with
  | S754_zero _ => 0%Z
  | S754_infinity s => cond_Zopp s (2 ^ (emax - emin prec emax))%Z
  | S754_nan => 0%Z
  | S754_finite s m e => cond_Zopp s (Zpos m * 2 ^ (e - emin prec emax))%Z
  end.

(** The mantissa [c] kept from a positive integer [N] of [d] digits when the
    last [g = max (d - prec) 0] digits are dropped: the quotient or its
    successor, and the quotient when nothing is lost. *)
Definition kept (prec N c : Z) : Prop :=
  let g := Z.max (Zdigits2 N - prec) 0 in
  (0 < c /\ N / 2 ^ g <= c <= N / 2 ^ g + 1 /\
   (N mod 2 ^ g = 0 -> c = N / 2 ^ g))%Z.

(** A positive integer that is the rank of a float: no digit beyond the first
    [prec]. *)
Definition exact_rank (prec F : Z) : Prop :=
  (0 < F /\ exists mF, F = mF * 2 ^ Z.max (Zdigits2 F - prec) 0)%Z.

(** A float32 sample that is a finite number at least zero. *)
Definition nonneg_sample (x : float32) : bool :=
  F32.valid x && is_finite x && SFleb F32.zero x.

(** A 1x1 band holding [+inf], as a float32 raster may. *)
Definition sample_inf : ndarray float32 :=
  NdArray 1 1 [[S754_infinity false]].

(** An event that passes a bounding box to the catalog search or to the
    window resolver passes the box [B]. *)
Definition bbox_event_ok (B : bounding_box) (ev : event) : Prop :=
  match ev with
  | Call (CSearch req) => sr_bbox req = B
  | Call (CWindow bb) => bb = B
  | _ => True
  end.

(** The float64 values of the literals [139.76], [35.68], [0.01] and
    [1e-20]: the correctly rounded quotients of two integers. *)
Definition sample_lon : float64 := F64.div (F64.of_Z 13976) (F64.of_Z 100).
Definition sample_lat : float64 := F64.div (F64.of_Z 3568) (F64.of_Z 100).
Definition default_size : float64 := F64.div (F64.of_Z 1) (F64.of_Z 100).
Definition tiny_size : float64 := F64.div (F64.of_Z 1) (F64.of_Z (10 ^ 20)).

(** [-p 139.76 35.68 -i ndvi --save] with the default bounding-box size. *)
Definition sample_arguments : arguments :=
  {| arg_address := None;
     arg_point := Some (sample_lon, sample_lat);
     arg_index := IdxNdvi;
     arg_coord_only := false;
     arg_cloud_cover := F64.of_Z 10;
     arg_start_date := "2023-01-01";
     arg_end_date := None;
     arg_bbox_size := default_size;
     arg_save := true;
     arg_output := None |}.

(** A directory that holds only the two bands of the water index. *)
Definition water_files : gmap string dataset :=
  <["lake_B03.tif" := raster_of 2 2 [[10; 10]; [0; 5]]%Z "GTiff"]>
    (<["lake_B11.tif" := raster_of 2 2 [[10; 10]; [0; 0]]%Z "GTiff"]> ∅).

(** A float32 sample that is a finite number above zero. *)
Definition positive_sample (x : float32) : bool :=
  F32.valid x && is_finite x && SFltb F32.zero x.

(** A raster whose samples are all unsigned 16-bit integers. *)
Definition uint16_raster (a : ndarray pixel) : Prop :=
  forall i j p, cell a i j = Some p ->
    exists z, p = PxInt z /\ (0 <= z <= 65535)%Z.

(** A 1x2 band with a NaN marker, and a 1x2 band of plain samples. *)
Definition sample_marked : ndarray float32 :=
  NdArray 1 2 [[S754_nan; F32.of_Z 7]].
Definition sample_plain : ndarray float32 := band_of 1 2 [[3; 7]]%Z.

(** What the analyzer may do: print, open a file that exists, save one of
    its two figures. *)
Definition analyzer_event_ok (lib : library) (base : string) (ev : event)
    : Prop :=
  match ev with
  | Print _ => True
  | Call (COpen path) => path_exists lib path = true
  | Call (CSaveFig path _ _ _) =>
      path = base +:+ "_NDVI_result.png" \/
      path = base +:+ "_MNDWI_result.png"
  | Call _ => False
  end.

(** Two band files that exist, open, and hold first bands of one non-empty
    shape. *)
Definition band_pair_ready (lib : library) (p1 p2 : string)
    (raw1 raw2 : ndarray pixel) : Prop :=
  path_exists lib p1 = true /\ path_exists lib p2 = true /\
  (exists src1, rio_open lib p1 = Ok src1 /\ read_band src1 1 = Ok raw1) /\
  (exists src2, rio_open lib p2 = Ok src2 /\ read_band src2 1 = Ok raw2) /\
  well_shaped raw1 /\ well_shaped raw2 /\ shape raw1 = shape raw2 /\
  (0 < nrows raw1)%nat /\ (0 < ncols raw1)%nat.

(** A directory with the four band files of one place, all 2x2. *)
Definition farm_files : gmap string dataset :=
  <["farm_B08.tif" := raster_of 2 2 [[40; 30]; [0; 5]]%Z "GTiff"]>
    (<["farm_B04.tif" := raster_of 2 2 [[10; 30]; [0; 0]]%Z "GTiff"]>
      (<["farm_B03.tif" := raster_of 2 2 [[10; 10]; [0; 5]]%Z "GTiff"]>
        (<["farm_B11.tif" := raster_of 2 2 [[10; 10]; [0; 0]]%Z "GTiff"]> ∅))).

(** The request [main] sends to the catalog (lines 118-133). *)
Definition main_request (lib : library) (args : arguments)
    (lon lat : float64) : search_request :=
  {| sr_collections := ["sentinel-2-l2a"];
     sr_bbox := search_bbox lon lat (arg_bbox_size args);
     sr_datetime :=
       arg_start_date args +:+ "/" +:+
       match truthy (arg_end_date args) with
       | Some d => d
       | None => today lib
       end;
     sr_cloud_cover_lt := arg_cloud_cover args |}.

(** The line that reports the target (line 114). *)
Definition target_line (lon lat : float64) : event :=
  Print [Str "Target: "; Num lon; Str ", "; Num lat].

(** An event that fetches or writes nothing: a print, a geocoding or a
    catalog search. *)
Definition quiet_event (ev : event) : Prop :=
  match ev with
  | Print _ | Call (CGeocode _) | Call (CSearch _) => True
  | Call _ => False
  end.

(** A world in which the geocoder knows no address. *)
Definition nowhere_library : library :=
  sample_library read_ok.

(** A world whose catalog returns one scene with the assets of the four
    bands and a preview, and in which every subset read is refused. *)
Definition sample_item : item :=
  {| item_date := "2024-05-01";
     item_cloud_cover := PyFloat (F64.of_Z 3);
     item_assets :=
       <["rendered_preview" := "https://example/preview.png"]>
         (<["B03" := "https://example/B03.tif"]>
           (<["B04" := "https://example/B04.tif"]>
             (<["B08" := "https://example/B08.tif"]>
               (<["B11" := "https://example/B11.tif"]> ∅)))) |}.

Definition refusing_library : library :=
  {| rio_open := fun _ => Ok sample_source;
     warped_vrt := fun _ _ => Ok (sample_view read_expired);
     rio_write := fun _ _ _ => Ok tt;
     path_exists := fun _ => true;
     geocode := fun _ => Ok None;
     catalog_search := fun _ => Ok [sample_item];
     http_get := fun _ _ => Raise (TransientAccessError "connection reset");
     savefig := fun _ => Ok tt;
     today := "2024-05-02" |}.

(** [-a 'Atlantis']: an address; [-a '']: an empty address; and variants of
    [sample_arguments]. *)
Definition address_arguments (address : string) : arguments :=
  {| arg_address := Some address;
     arg_point := None;
     arg_index := IdxAll;
     arg_coord_only := false;
     arg_cloud_cover := F64.of_Z 10;
     arg_start_date := "2023-01-01";
     arg_end_date := None;
     arg_bbox_size := default_size;
     arg_save := true;
     arg_output := None |}.

Definition point_arguments (idx : index_choice) (coord_only save : bool)
    : arguments :=
  {| arg_address := None;
     arg_point := Some (sample_lon, sample_lat);
     arg_index := idx;
     arg_coord_only := coord_only;
     arg_cloud_cover := F64.of_Z 10;
     arg_start_date := "2023-01-01";
     arg_end_date := None;
     arg_bbox_size := default_size;
     arg_save := save;
     arg_output := None |}.

(** The options under which [main] reaches its two download branches. *)
Definition fetches_preview (args : arguments) : Prop :=
  arg_coord_only args = false /\ arg_save args = true /\
  (arg_index args = IdxPreview \/ arg_index args = IdxAll).

Definition fetches_bands (args : arguments) : Prop :=
  arg_coord_only args = false /\ arg_save args = true /\
  arg_index args <> IdxPreview.

(** What [main] may do under given options: print; geocode the address it
    was given; search unless [--coord-only]; stream the preview or extract
    band subsets only in the matching download branch; never draw. *)
Definition main_event_ok (args : arguments) (ev : event) : Prop :=
  match ev with
  | Print _ => True
  | Call (CGeocode address) => truthy (arg_address args) = Some address
  | Call (CSearch _) => arg_coord_only args = false
  | Call (CHttpGet _ _) => fetches_preview args
  | Call (CSaveFig _ _ _ _) => False
  | Call _ => fetches_bands args
  end.

(** The list that lines 158-160 build before line 162 removes duplicates. *)
Definition listed_bands (idx : index_choice) : list string :=
  match idx with IdxNdvi | IdxAll => ["B04"; "B08"] | _ => [] end ++
  match idx with IdxNdwi | IdxAll => ["B03"; "B11"] | _ => [] end.

(** A world in which the written file is refused. *)
Definition readonly_library : library :=
  {| rio_open := fun _ => Ok sample_source;
     warped_vrt := fun _ _ => Ok (sample_view read_ok);
     rio_write := fun _ _ _ => Raise (TransientAccessError "Permission denied");
     path_exists := fun _ => true;
     geocode := fun _ => Ok None;
     catalog_search := fun _ => Ok [];
     http_get := fun _ _ => Ok tt;
     savefig := fun _ => Ok tt;
     today := "2024-01-01" |}.

(** A world whose geocoder knows one address. *)
Definition geocoding_library : library :=
  {| rio_open := fun _ => Ok sample_source;
     warped_vrt := fun _ _ => Ok (sample_view read_ok);
     rio_write := fun _ _ _ => Ok tt;
     path_exists := fun _ => true;
     geocode := fun address =>
       if String.eqb address "Tokyo Dome"
       then Ok (Some (sample_lon, sample_lat)) else Ok None;
     catalog_search := fun _ => Ok [];
     http_get := fun _ _ => Ok tt;
     savefig := fun _ => Ok tt;
     today := "2024-01-01" |}.

(** A directory whose two band files hold rasters without rows. *)
Definition blank_files : gmap string dataset :=
  <["blank_B08.tif" := raster_of 0 3 [] "GTiff"]>
    (<["blank_B04.tif" := raster_of 0 3 [] "GTiff"]> ∅).

(** A float32 value within [[-1, 1]]. *)
Definition index_value (x : float32) : Prop :=
  SFleb F32.minus_one x = true /\ SFleb x F32.one = true.

(** A float32 sample that is a finite number. *)
Definition finite_sample (x : float32) : bool :=
  F32.valid x && is_finite x.

(** The float32 [x] is the exact quotient [(u - v) / (u + v)] of the values
    of [u] and [v] within a relative error of [2 ^ (- k)], plus two units of
    the smallest positive float32. With [X], [U], [V] the values counted in
    units of [2 ^ (-149)], this is
    [|X / 2^149 - (U - V) / (U + V)| <= |(U - V) / (U + V)| / 2^k + 2 / 2^149],
    cleared of its denominators. *)
Definition within_tolerance (k : Z) (x u v : float32) : Prop :=
  let X := float_ord F32.prec F32.emax x in
  let U := float_ord F32.prec F32.emax u in
  let V := float_ord F32.prec F32.emax v in
  (2 ^ k * Z.abs (X * (U + V) - (U - V) * 2 ^ 149)
   <= Z.abs (U - V) * 2 ^ 149 + 2 ^ (k + 1) * Z.abs (U + V))%Z.

(** Two 1x1 bands of large finite samples, [1.75 * 2^127] and [2^126]:
    their float32 sum overflows. *)
Definition sample_large : ndarray float32 :=
  NdArray 1 1 [[S754_finite false 14680064 104]].
Definition sample_half : ndarray float32 :=
  NdArray 1 1 [[S754_finite false 8388608 103]].

(** Two band files of different shapes and drivers: a 1x1 GTiff against a
    2x3 COG, which NumPy broadcasts. *)
Definition mixed_files : gmap string dataset :=
  <["mix_B03.tif" := raster_of 1 1 [[3]]%Z "GTiff"]>
    (<["mix_B11.tif" := raster_of 2 3 [[1; 2; 3]; [4; 5; 6]]%Z "COG"]> ∅).

(* ================================================================== *)
(** * Properties *)

(** ** Arrays: lookup lemmas *)

Section ArrayFacts.
Context {A B C : Type}.

Lemma cell_tabulate (r c : nat) (f : nat -> nat -> A) (i j : nat) :
  (i < r)%nat -> (j < c)%nat -> cell (tabulate r c f) i j = Some (f i j).
Proof.
  intros Hi Hj. unfold cell, tabulate; simpl.
  rewrite list_lookup_fmap, lookup_seq_lt by done; simpl.
  by rewrite list_lookup_fmap, lookup_seq_lt.
Qed.

Lemma cell_tabulate_None (r c : nat) (f : nat -> nat -> A) (i j : nat) :
  (r <= i)%nat \/ (c <= j)%nat -> cell (tabulate r c f) i j = None.
Proof.
  intros H. unfold cell, tabulate; simpl.
  rewrite list_lookup_fmap.
  destruct (decide (i < r)%nat) as [Hi|Hi].
  - rewrite lookup_seq_lt by done; simpl.
    rewrite list_lookup_fmap, lookup_seq_ge; [done | lia].
  - rewrite lookup_seq_ge; [done | lia].
Qed.

Lemma well_shaped_tabulate (r c : nat) (f : nat -> nat -> A) :
  well_shaped (tabulate r c f).
Proof.
  split; simpl.
  - by rewrite length_fmap, length_seq.
  - apply Forall_fmap, Forall_forall. intros i _. simpl.
    by rewrite length_fmap, length_seq.
Qed.

Lemma well_shaped_cell (a : ndarray A) (i j : nat) :
  well_shaped a -> (i < nrows a)%nat -> (j < ncols a)%nat ->
  is_Some (cell a i j).
Proof.
  intros [Hr Hc] Hi Hj. unfold cell.
  destruct (lookup_lt_is_Some_2 (cells a) i) as [row Hrow]; [lia |].
  rewrite Hrow.
  apply lookup_lt_is_Some_2.
  rewrite Forall_forall in Hc.
  rewrite (Hc row); [done |]. by eapply list_elem_of_lookup_2.
Qed.

Lemma cell_amap (f : A -> B) (a : ndarray A) (i j : nat) :
  cell (amap f a) i j = f <$> cell a i j.
Proof.
  unfold cell, amap; simpl. rewrite list_lookup_fmap.
  destruct (cells a !! i) as [row|]; simpl; [| done].
  by rewrite list_lookup_fmap.
Qed.

Lemma broadcast_dim_same (n : nat) : broadcast_dim n n = Some n.
Proof. unfold broadcast_dim. by rewrite Nat.eqb_refl. Qed.

Lemma broadcast_shape_same (s : nat * nat) : broadcast_shape s s = Some s.
Proof.
  destruct s as [r c]. unfold broadcast_shape; simpl.
  by rewrite !broadcast_dim_same.
Qed.

Lemma broadcast_dim_bidx (n m r i : nat) :
  broadcast_dim n m = Some r -> (i < r)%nat ->
  (bidx n i < n)%nat /\ (bidx m i < m)%nat.
Proof.
  unfold broadcast_dim, bidx. intros H Hi.
  destruct (Nat.eqb_spec n m) as [->|Hnm].
  - injection H as ->. destruct (Nat.eqb_spec r 1); lia.
  - destruct (Nat.eqb_spec n 1) as [->|Hn1].
    + injection H as ->. destruct (Nat.eqb_spec r 1); lia.
    + destruct (Nat.eqb_spec m 1) as [->|Hm1]; [| done].
      injection H as ->. lia.
Qed.

Lemma bidx_same_shape (n i : nat) : (i < n)%nat -> bidx n i = i.
Proof. unfold bidx. destruct (Nat.eqb_spec n 1); lia. Qed.
End ArrayFacts.

(** ** Elementwise operators and the normalized difference, cell by cell *)

Section Elementwise.
Context {A B C : Type}.

Lemma np_binop_spec (dflt : C) (op : A -> B -> C)
    (x : ndarray A) (y : ndarray B) (r c : nat) :
  well_shaped x -> well_shaped y ->
  broadcast_shape (shape x) (shape y) = Some (r, c) ->
  exists out,
    np_binop dflt op x y = Ok out /\ shape out = (r, c) /\ well_shaped out /\
    forall i j, (i < r)%nat -> (j < c)%nat ->
      exists u v, bcell x i j = Some u /\ bcell y i j = Some v /\
                  cell out i j = Some (op u v).
Proof.
  intros Hx Hy Hb. unfold np_binop. rewrite Hb.
  eexists; split; [reflexivity |]. split; [reflexivity |].
  split; [apply well_shaped_tabulate |].
  intros i j Hi Hj.
  unfold broadcast_shape in Hb; simpl in Hb.
  destruct (broadcast_dim (nrows x) (nrows y)) as [r'|] eqn:Hr; [| done].
  destruct (broadcast_dim (ncols x) (ncols y)) as [c'|] eqn:Hc; [| done].
  injection Hb as -> ->.
  destruct (broadcast_dim_bidx _ _ _ i Hr Hi) as [Hxi Hyi].
  destruct (broadcast_dim_bidx _ _ _ j Hc Hj) as [Hxj Hyj].
  destruct (well_shaped_cell x _ _ Hx Hxi Hxj) as [u Hu].
  destruct (well_shaped_cell y _ _ Hy Hyi Hyj) as [v Hv].
  exists u, v. unfold bcell at 1 2. rewrite Hu, Hv.
  split; [done |]. split; [done |].
  rewrite cell_tabulate by done. unfold bcell. by rewrite Hu, Hv.
Qed.

Lemma np_binop_raise (dflt : C) (op : A -> B -> C)
    (x : ndarray A) (y : ndarray B) :
  broadcast_shape (shape x) (shape y) = None ->
  np_binop dflt op x y = Raise broadcast_error.
Proof. intros Hb. unfold np_binop. by rewrite Hb. Qed.
End Elementwise.

Lemma well_shaped_amap {A B} (f : A -> B) (a : ndarray A) :
  well_shaped a -> well_shaped (amap f a).
Proof.
  intros [Hr Hc]. split; simpl.
  - by rewrite length_fmap.
  - apply Forall_fmap. eapply Forall_impl; [exact Hc |].
    intros row Hrow; simpl. by rewrite length_fmap.
Qed.

Lemma bcell_same_shape {A} (a : ndarray A) (i j : nat) :
  (i < nrows a)%nat -> (j < ncols a)%nat -> bcell a i j = cell a i j.
Proof. intros Hi Hj. unfold bcell. by rewrite !bidx_same_shape. Qed.

(** The engine on two well-shaped, broadcast-compatible arrays returns an
    array of the broadcast shape whose cells are [index_cell] of the
    (stretched) input cells. *)
Lemma normalized_difference_spec (b1 b2 : ndarray float32) (r c : nat) :
  well_shaped b1 -> well_shaped b2 ->
  broadcast_shape (shape b1) (shape b2) = Some (r, c) ->
  exists out,
    normalized_difference b1 b2 = Ok out /\ shape out = (r, c) /\
    well_shaped out /\
    forall i j, (i < r)%nat -> (j < c)%nat ->
      exists u v, bcell b1 i j = Some u /\ bcell b2 i j = Some v /\
                  cell out i j = Some (index_cell u v).
Proof.
  intros H1 H2 Hb. unfold normalized_difference.
  destruct (np_binop_spec S754_nan F32.add b1 b2 r c H1 H2 Hb)
    as (den & Eden & Sden & Wden & Cden).
  destruct (np_binop_spec S754_nan F32.sub b1 b2 r c H1 H2 Hb)
    as (dif & Edif & Sdif & Wdif & Cdif).
  assert (Hqs : broadcast_shape (shape dif) (shape den) = Some (r, c))
    by (rewrite Sdif, Sden; apply broadcast_shape_same).
  destruct (np_binop_spec S754_nan F32.div dif den r c Wdif Wden Hqs)
    as (quo & Equo & Squo & Wquo & Cquo).
  set (mask := np_eq_scalar den F32.zero).
  assert (Wmask : well_shaped mask) by (by apply well_shaped_amap).
  assert (Hws : broadcast_shape (shape mask) (shape quo) = Some (r, c)).
  { replace (shape mask) with (shape den) by reflexivity.
    rewrite Sden, Squo. apply broadcast_shape_same. }
  destruct (np_binop_spec S754_nan
              (fun (k : bool) v => if k then F32.zero else v)
              mask quo r c Wmask Wquo Hws)
    as (out & Eout & Sout & Wout & Cout).
  exists out. unfold np_add, np_sub, np_div, np_where_scalar.
  rewrite Eden; simpl. rewrite Edif; simpl. rewrite Equo; simpl.
  fold mask. rewrite Eout.
  split; [done |]. split; [done |]. split; [done |].
  intros i j Hi Hj.
  destruct (Cden i j Hi Hj) as (u & v & Hu & Hv & Hden).
  destruct (Cdif i j Hi Hj) as (u' & v' & Hu' & Hv' & Hdif).
  rewrite Hu in Hu'; rewrite Hv in Hv'.
  injection Hu' as <-; injection Hv' as <-.
  assert (Hri : (i < nrows den)%nat /\ (j < ncols den)%nat)
    by (injection Sden as -> ->; done).
  assert (Hdi : (i < nrows dif)%nat /\ (j < ncols dif)%nat)
    by (injection Sdif as -> ->; done).
  assert (Hqi : (i < nrows quo)%nat /\ (j < ncols quo)%nat)
    by (injection Squo as -> ->; done).
  destruct (Cquo i j Hi Hj) as (p & q & Hp & Hq & Hquo).
  rewrite bcell_same_shape in Hp by tauto.
  rewrite bcell_same_shape in Hq by tauto.
  rewrite Hdif in Hp; rewrite Hden in Hq.
  injection Hp as <-; injection Hq as <-.
  destruct (Cout i j Hi Hj) as (k & w & Hk & Hw & Hout).
  rewrite bcell_same_shape in Hw by tauto. rewrite Hquo in Hw.
  injection Hw as <-.
  unfold mask, np_eq_scalar in Hk.
  rewrite bcell_same_shape in Hk by (simpl; tauto).
  rewrite cell_amap, Hden in Hk; simpl in Hk. injection Hk as <-.
  exists u, v. split; [done |]. split; [done |].
  rewrite Hout. reflexivity.
Qed.

(** Shapes that cannot be broadcast make the first operator raise. *)
Lemma normalized_difference_raise (b1 b2 : ndarray float32) :
  broadcast_shape (shape b1) (shape b2) = None ->
  normalized_difference b1 b2 = Raise broadcast_error.
Proof.
  intros Hb. unfold normalized_difference, np_add.
  by rewrite (np_binop_raise _ _ _ _ Hb).
Qed.

Lemma cell_Some_lt {A} (a : ndarray A) (i j : nat) (u : A) :
  well_shaped a -> cell a i j = Some u ->
  (i < nrows a)%nat /\ (j < ncols a)%nat.
Proof.
  intros [Hr Hc] H. unfold cell in H.
  destruct (cells a !! i) as [row|] eqn:Hrow; [| done].
  split.
  - rewrite <- Hr. by eapply lookup_lt_Some.
  - rewrite Forall_forall in Hc.
    rewrite <- (Hc row) by (by eapply list_elem_of_lookup_2).
    by eapply lookup_lt_Some.
Qed.

(** On two arrays of one shape the engine returns an array of that shape
    whose cell [(i, j)] is [index_cell] of the two input cells. *)
Lemma normalized_difference_same_shape (a b : ndarray float32) :
  well_shaped a -> well_shaped b -> shape a = shape b ->
  exists out,
    normalized_difference a b = Ok out /\ shape out = shape a /\
    well_shaped out /\
    forall i j u v, cell a i j = Some u -> cell b i j = Some v ->
      cell out i j = Some (index_cell u v).
Proof.
  intros Ha Hb Hs.
  assert (Hbs : broadcast_shape (shape a) (shape b) = Some (nrows a, ncols a)).
  { rewrite <- Hs. apply broadcast_shape_same. }
  destruct (normalized_difference_spec a b _ _ Ha Hb Hbs)
    as (out & Eout & Sout & Wout & Cout).
  exists out. split; [done |]. split; [done |]. split; [done |].
  intros i j u v Hu Hv.
  destruct (cell_Some_lt a i j u Ha Hu) as [Hi Hj].
  destruct (Cout i j Hi Hj) as (u' & v' & Hu' & Hv' & Hout).
  rewrite bcell_same_shape in Hu' by done.
  assert (Hsb : nrows b = nrows a /\ ncols b = ncols a)
    by (unfold shape in Hs; injection Hs as -> ->; done).
  rewrite bcell_same_shape in Hv' by lia.
  congruence.
Qed.

Lemma well_shaped_band_of_2x2 (p q r s : Z) :
  well_shaped (band_of 2 2 [[p; q]; [r; s]]).
Proof. split; [reflexivity | repeat constructor]. Qed.

(** The scenario of the specification: position [(1,0)] has a zero sum and
    yields [0.0]; position [(1,1)] has [a = 5], [b = 0] and yields [1.0]. *)
Example scenario_2x2 :
  normalized_difference sample_a sample_b
  = Ok (NdArray 2 2 [[F32.zero; F32.zero]; [F32.zero; F32.one]]).
Proof. vm_compute. reflexivity. Qed.

(** ** C5: a zero denominator yields exactly [0.0] *)

(** C5. For all band arrays [a] and [b] of one shape, the normalized
    difference is computed, and at every position where the float32 sum
    [a + b] compares equal to zero the output cell is exactly [+0.0]
    (neither NaN nor an infinity). *)
Theorem C5_zero_sum_yields_zero (a b : ndarray float32) :
  well_shaped a -> well_shaped b -> shape a = shape b ->
  exists out,
    normalized_difference a b = Ok out /\ shape out = shape a /\
    forall i j u v, cell a i j = Some u -> cell b i j = Some v ->
      SFeqb (F32.add u v) F32.zero = true ->
      cell out i j = Some (S754_zero false).
Proof.
  intros Ha Hb Hs.
  destruct (normalized_difference_same_shape a b Ha Hb Hs)
    as (out & Eout & Sout & _ & Cout).
  exists out. split; [done |]. split; [done |].
  intros i j u v Hu Hv Hz.
  rewrite (Cout i j u v Hu Hv). unfold index_cell. by rewrite Hz.
Qed.

Lemma C5_zero_sum_yields_zero_witness :
  exists out,
    normalized_difference sample_a sample_b = Ok out /\
    shape out = shape sample_a /\
    forall i j u v, cell sample_a i j = Some u -> cell sample_b i j = Some v ->
      SFeqb (F32.add u v) F32.zero = true ->
      cell out i j = Some (S754_zero false).
Proof.
  apply (C5_zero_sum_yields_zero sample_a sample_b).
  - apply well_shaped_band_of_2x2.
  - apply well_shaped_band_of_2x2.
  - reflexivity.
Defined.

(** ** C6: shapes that differ *)

(** C6, as stated, fails: a 1x1 band against a 2x3 band is a shape mismatch,
    yet no error is reported; the engine returns a 2x3 array. *)
Lemma C6_counterexample :
  ~ (forall a b : ndarray float32,
       well_shaped a -> well_shaped b -> shape a <> shape b ->
       exists e, normalized_difference a b = Raise e).
Proof.
  intros H.
  destruct (H sample_scalar sample_wide) as [e He].
  - split; [reflexivity | repeat constructor].
  - split; [reflexivity | repeat constructor].
  - discriminate.
  - vm_compute in He. discriminate.
Qed.

(** C6, amended. The engine makes no shape check of its own. Two shapes
    that NumPy can broadcast (per axis: equal, or one of them 1) are
    stretched silently and an array of the broadcast shape is returned;
    for two shapes that cannot be broadcast the first arithmetic operation,
    [b1 + b2], raises NumPy's [ValueError], and that is what the engine
    raises. *)
Theorem C6_shape_mismatch_is_broadcast (a b : ndarray float32) :
  well_shaped a -> well_shaped b ->
  match broadcast_shape (shape a) (shape b) with
  | Some s =>
      exists out, normalized_difference a b = Ok out /\ shape out = s
  | None =>
      np_add a b = Raise broadcast_error /\
      normalized_difference a b = Raise broadcast_error
  end.
Proof.
  intros Ha Hb.
  destruct (broadcast_shape (shape a) (shape b)) as [[r c]|] eqn:Hs.
  - destruct (normalized_difference_spec a b r c Ha Hb Hs)
      as (out & Eout & Sout & _).
    by exists out.
  - split.
    + by apply np_binop_raise.
    + by apply normalized_difference_raise.
Qed.

(** A 2x2 band against a 2x3 band: the addition raises. *)
Example shapes_2x2_2x3_raise :
  normalized_difference sample_a sample_wide = Raise broadcast_error.
Proof. reflexivity. Qed.

Lemma C6_shape_mismatch_is_broadcast_witness :
  match broadcast_shape (shape sample_scalar) (shape sample_wide) with
  | Some s =>
      exists out,
        normalized_difference sample_scalar sample_wide = Ok out /\
        shape out = s
  | None =>
      np_add sample_scalar sample_wide = Raise broadcast_error /\
      normalized_difference sample_scalar sample_wide = Raise broadcast_error
  end.
Proof.
  apply (C6_shape_mismatch_is_broadcast sample_scalar sample_wide).
  - split; [reflexivity | repeat constructor].
  - split; [reflexivity | repeat constructor].
Defined.

(** ** The subset extraction, step by step *)

Lemma download_subset_unfold (lib : library) (href save_path : string)
    (bbox : bounding_box) :
  download_subset lib href save_path bbox =
  match subset_body lib href save_path bbox with
  | (Ok a, es) => (Ok a, start_line save_path :: es)
  | (Raise e, es) => (Ok tt, start_line save_path :: es ++ error_lines e)
  end.
Proof.
  unfold download_subset.
  destruct (subset_body lib href save_path bbox) as [[a|e] es];
    reflexivity.
Qed.

(** A successful extraction opens, warps, resolves the window, reads it and
    writes the synthesized profile with the data that was read. *)
Lemma subset_body_success (lib : library) (href save_path : string)
    (bbox : bounding_box) (es : list event) :
  subset_body lib href save_path bbox = (Ok tt, es) ->
  exists src vrt w data,
    rio_open lib href = Ok src /\
    warped_vrt lib src "EPSG:4326" = Ok vrt /\
    vrt_window vrt bbox = Ok w /\
    vrt_read vrt w = Ok data /\
    rio_write lib save_path (synthesize_profile vrt w) data = Ok tt /\
    es = [Call (COpen href); Call (CWarp "EPSG:4326"); Call (CWindow bbox);
          Call (CRead w);
          Call (CWrite save_path (synthesize_profile vrt w) data);
          Print [Str "完了（切り抜き成功）: "; Str save_path]].
Proof.
  unfold subset_body, call. intros H.
  destruct (rio_open lib href) as [src|e1] eqn:E1;
    cbn in H; [| discriminate H].
  destruct (warped_vrt lib src "EPSG:4326") as [vrt|e2] eqn:E2;
    cbn in H; [| discriminate H].
  destruct (vrt_window vrt bbox) as [w|e3] eqn:E3;
    cbn in H; [| discriminate H].
  destruct (vrt_read vrt w) as [data|e4] eqn:E4;
    cbn in H; [| discriminate H].
  destruct (rio_write lib save_path (synthesize_profile vrt w) data)
    as [[]|e5] eqn:E5; cbn in H; [| discriminate H].
  exists src, vrt, w, data. injection H as <-. done.
Qed.

(** Membership of an event in an explicit trace, case by case. *)
Ltac trace_cases H :=
  repeat (apply elem_of_cons in H as [H|H]; [try discriminate H |]);
  try (apply elem_of_nil in H; contradiction).

(** A write is attempted only after the source was opened and warped, the
    window resolved and read; what is written is the synthesized profile of
    that very window, with the data read through it. *)
Lemma subset_body_write (lib : library) (href save_path : string)
    (bbox : bounding_box) (path : string) (profile : gmap string pyval)
    (data : list (ndarray pixel)) :
  Call (CWrite path profile data) ∈ events (subset_body lib href save_path bbox) ->
  exists src vrt w,
    rio_open lib href = Ok src /\
    warped_vrt lib src "EPSG:4326" = Ok vrt /\
    vrt_window vrt bbox = Ok w /\
    vrt_read vrt w = Ok data /\
    path = save_path /\ profile = synthesize_profile vrt w.
Proof.
  unfold subset_body, call, events. intros H.
  destruct (rio_open lib href) as [src|e1] eqn:E1; cbn in H;
    [| by trace_cases H].
  destruct (warped_vrt lib src "EPSG:4326") as [vrt|e2] eqn:E2; cbn in H;
    [| by trace_cases H].
  destruct (vrt_window vrt bbox) as [w|e3] eqn:E3; cbn in H;
    [| by trace_cases H].
  destruct (vrt_read vrt w) as [dat|e4] eqn:E4; cbn in H;
    [| by trace_cases H].
  exists src, vrt, w.
  assert (Hw : Call (CWrite path profile data)
               = Call (CWrite save_path (synthesize_profile vrt w) dat)).
  { destruct (rio_write lib save_path (synthesize_profile vrt w) dat)
      as [[]|e5]; cbn in H; trace_cases H; exact H. }
  injection Hw as -> -> ->. done.
Qed.

Lemma synthesize_profile_lookup (vrt : view) (w : window) :
  synthesize_profile vrt w !! "transform"
    = Some (PyAffine (window_transform (vrt_transform vrt) w)) /\
  synthesize_profile vrt w !! "width" = Some (PyFloat (width w)) /\
  synthesize_profile vrt w !! "height" = Some (PyFloat (height w)) /\
  synthesize_profile vrt w !! "driver" = Some (PyStr "GTiff") /\
  forall key : string,
    key <> "transform" -> key <> "width" -> key <> "height" ->
    key <> "driver" ->
    synthesize_profile vrt w !! key = vrt_profile vrt !! key.
Proof.
  unfold synthesize_profile.
  repeat split; intros; by simplify_map_eq.
Qed.

Lemma download_subset_events (lib : library) (href save_path : string)
    (bbox : bounding_box) (ev : event) :
  ev ∈ events (download_subset lib href save_path bbox) ->
  ev = start_line save_path \/
  ev ∈ events (subset_body lib href save_path bbox) \/
  exists e, ev ∈ error_lines e.
Proof.
  rewrite download_subset_unfold. unfold events.
  destruct (subset_body lib href save_path bbox) as [[[]|e] es]; simpl.
  - rewrite elem_of_cons. tauto.
  - rewrite elem_of_cons, elem_of_app. intros [H|[H|H]]; eauto.
Qed.

(** ** C2: the written profile has the window's dimensions *)

(** C2. Whenever [download_subset] writes a raster, the profile it writes
    was synthesized for the window [w] that the view resolved for the
    bounding box and that was read: its [width] is [w.width], its [height]
    is [w.height], and its band count and dtype are those of the profile it
    was copied from. *)
Theorem C2_profile_dimensions (lib : library) (href save_path : string)
    (bbox : bounding_box) (path : string) (profile : gmap string pyval)
    (data : list (ndarray pixel)) :
  Call (CWrite path profile data)
    ∈ events (download_subset lib href save_path bbox) ->
  exists src vrt w,
    rio_open lib href = Ok src /\
    warped_vrt lib src "EPSG:4326" = Ok vrt /\
    vrt_window vrt bbox = Ok w /\
    vrt_read vrt w = Ok data /\
    profile !! "width" = Some (PyFloat (width w)) /\
    profile !! "height" = Some (PyFloat (height w)) /\
    profile !! "count" = vrt_profile vrt !! "count" /\
    profile !! "dtype" = vrt_profile vrt !! "dtype".
Proof.
  intros H.
  apply download_subset_events in H as [H|[H|[e H]]].
  - discriminate H.
  - apply subset_body_write in H
      as (src & vrt & w & E1 & E2 & E3 & E4 & -> & ->).
    exists src, vrt, w.
    destruct (synthesize_profile_lookup vrt w) as (_ & Hw & Hh & _ & Hk).
    repeat (split; [done |]). split; by apply Hk.
  - unfold error_lines in H. by trace_cases H.
Qed.

Lemma C2_profile_dimensions_witness :
  exists src vrt w,
    rio_open (sample_library read_ok) "https://example/B04.tif" = Ok src /\
    warped_vrt (sample_library read_ok) src "EPSG:4326" = Ok vrt /\
    vrt_window vrt sample_bbox = Ok w /\
    vrt_read vrt w = Ok [sample_pixels] /\
    synthesize_profile (sample_view read_ok) sample_window !! "width"
      = Some (PyFloat (width w)) /\
    synthesize_profile (sample_view read_ok) sample_window !! "height"
      = Some (PyFloat (height w)) /\
    synthesize_profile (sample_view read_ok) sample_window !! "count"
      = vrt_profile vrt !! "count" /\
    synthesize_profile (sample_view read_ok) sample_window !! "dtype"
      = vrt_profile vrt !! "dtype".
Proof.
  apply (C2_profile_dimensions (sample_library read_ok)
           "https://example/B04.tif" "out_B04.tif" sample_bbox "out_B04.tif").
  vm_compute. do 5 right. left.
Defined.

(** ** C3: what happens when the subset read fails *)

Lemma download_subset_never_raises (lib : library) (href save_path : string)
    (bbox : bounding_box) :
  outcome (download_subset lib href save_path bbox) = Ok tt.
Proof.
  rewrite download_subset_unfold.
  by destruct (subset_body lib href save_path bbox) as [[[]|e] es].
Qed.

(** C3, as stated, fails: with a source that opens and a read that is
    refused, the caller of [download_subset] receives no error. *)
Lemma C3_counterexample :
  ~ (forall (lib : library) (href save_path : string) (bbox : bounding_box)
            (src : dataset) (vrt : view) (w : window) (e : exception),
       rio_open lib href = Ok src ->
       warped_vrt lib src "EPSG:4326" = Ok vrt ->
       vrt_window vrt bbox = Ok w ->
       vrt_read vrt w = Raise e ->
       outcome (download_subset lib href save_path bbox) = Raise e).
Proof.
  intros H.
  specialize (H (sample_library read_expired) "https://example/B04.tif"
                "out_B04.tif" sample_bbox sample_source
                (sample_view read_expired) sample_window
                (TransientAccessError "HTTP response code: 403")
                eq_refl eq_refl eq_refl eq_refl).
  rewrite download_subset_never_raises in H. discriminate H.
Qed.

(** A refused read and a read of corrupt data reach the caller alike. *)
Example transient_and_decoding_alike :
  outcome (download_subset (sample_library read_expired)
             "https://example/B04.tif" "out_B04.tif" sample_bbox)
  = outcome (download_subset (sample_library read_corrupt)
               "https://example/B04.tif" "out_B04.tif" sample_bbox).
Proof. reflexivity. Qed.

(** C3, amended. When the extraction fails with an exception [e] (at the
    open, the warp, the window, the read or the write), [download_subset]
    catches it: it prints the message of [e] and a fixed hint after what was
    done so far, and returns normally. One handler serves every kind of
    exception; the caller receives no error. *)
Theorem C3_failure_is_printed (lib : library) (href save_path : string)
    (bbox : bounding_box) (e : exception) (es : list event) :
  subset_body lib href save_path bbox = (Raise e, es) ->
  download_subset lib href save_path bbox
  = (Ok tt, start_line save_path :: es ++ error_lines e).
Proof. intros H. by rewrite download_subset_unfold, H. Qed.

Lemma C3_failure_is_printed_witness :
  download_subset (sample_library read_corrupt)
    "https://example/B04.tif" "out_B04.tif" sample_bbox
  = (Ok tt,
     start_line "out_B04.tif"
       :: [Call (COpen "https://example/B04.tif"); Call (CWarp "EPSG:4326");
           Call (CWindow sample_bbox); Call (CRead sample_window)]
       ++ error_lines
            (DecodingError "Read failed. See previous exception for details.")).
Proof.
  apply (C3_failure_is_printed (sample_library read_corrupt)).
  reflexivity.
Defined.

(** ** [calculate_index] *)

Lemma concat_cells_nonempty {A} (a : ndarray A) :
  well_shaped a -> (0 < nrows a)%nat -> (0 < ncols a)%nat ->
  exists v vs, concat (cells a) = v :: vs.
Proof.
  intros [Hr Hc] Hn Hm.
  destruct (cells a) as [|row rows]; simpl in *; [lia |].
  apply Forall_cons in Hc as [Hrow _].
  destruct row as [|v row]; simpl in *; [lia |]. eauto.
Qed.

Lemma np_nanmin_ok (a : ndarray float32) :
  well_shaped a -> (0 < nrows a)%nat -> (0 < ncols a)%nat ->
  exists lo, np_nanmin a = Ok lo.
Proof.
  intros Ha Hn Hm. unfold np_nanmin.
  destruct (concat_cells_nonempty a Ha Hn Hm) as (v & vs & ->). eauto.
Qed.

Lemma np_nanmax_ok (a : ndarray float32) :
  well_shaped a -> (0 < nrows a)%nat -> (0 < ncols a)%nat ->
  exists hi, np_nanmax a = Ok hi.
Proof.
  intros Ha Hn Hm. unfold np_nanmax.
  destruct (concat_cells_nonempty a Ha Hn Hm) as (v & vs & ->). eauto.
Qed.

(** One step of a run, keeping the array operations folded. *)
Ltac run_step H :=
  cbn -[read_band normalized_difference np_nanmin np_nanmax] in H.

(** The result of [calculate_index] is determined by what opening the first
    path yields and by the bands of what opening the second path yields. *)
Lemma calculate_index_depends (lib lib' : library)
    (p1 p2 name : string) (src2 src2' : dataset) :
  rio_open lib' p1 = rio_open lib p1 ->
  rio_open lib p2 = Ok src2 -> rio_open lib' p2 = Ok src2' ->
  ds_bands src2' = ds_bands src2 ->
  calculate_index lib' p1 p2 name = calculate_index lib p1 p2 name.
Proof.
  intros H1 H2 H2' Hb.
  assert (Hr : read_band src2' 1 = read_band src2 1)
    by (unfold read_band; by rewrite Hb).
  unfold calculate_index, call, lift, print.
  rewrite H1, H2, H2'.
  destruct (rio_open lib p1) as [src1|];
    cbn -[read_band normalized_difference]; [| reflexivity].
  by rewrite Hr.
Qed.

(** Whatever [calculate_index] returns, the metadata is that of the dataset
    opened at the first path. *)
Lemma calculate_index_meta (lib : library) (p1 p2 name : string)
    (idx : ndarray float32) (meta : gmap string pyval) (es : list event) :
  calculate_index lib p1 p2 name = (Ok (idx, meta), es) ->
  exists src1, rio_open lib p1 = Ok src1 /\ meta = ds_meta src1.
Proof.
  unfold calculate_index, call, lift, print. intros H.
  destruct (rio_open lib p1) as [src1|] eqn:E1; run_step H; [| discriminate H].
  exists src1. split; [done |].
  destruct (read_band src1 1); run_step H; [| discriminate H].
  destruct (rio_open lib p2) as [src2|]; run_step H; [| discriminate H].
  destruct (read_band src2 1); run_step H; [| discriminate H].
  destruct (normalized_difference _ _); run_step H; [| discriminate H].
  destruct (np_nanmin _); run_step H; [| discriminate H].
  destruct (np_nanmax _); run_step H; [| discriminate H].
  by injection H as _ <- _.
Qed.

Lemma calculate_index_returns (lib : library) (p1 p2 name : string)
    (src1 src2 : dataset) (raw1 raw2 : ndarray pixel) :
  rio_open lib p1 = Ok src1 -> rio_open lib p2 = Ok src2 ->
  read_band src1 1 = Ok raw1 -> read_band src2 1 = Ok raw2 ->
  well_shaped raw1 -> well_shaped raw2 -> shape raw1 = shape raw2 ->
  (0 < nrows raw1)%nat -> (0 < ncols raw1)%nat ->
  exists idx es,
    calculate_index lib p1 p2 name = (Ok (idx, ds_meta src1), es) /\
    normalized_difference (amap astype_float32 raw1) (amap astype_float32 raw2)
    = Ok idx.
Proof.
  intros E1 E2 R1 R2 W1 W2 Hs Hn Hm.
  destruct (normalized_difference_same_shape
              (amap astype_float32 raw1) (amap astype_float32 raw2))
    as (idx & Eidx & Sidx & Widx & _).
  { by apply well_shaped_amap. }
  { by apply well_shaped_amap. }
  { unfold shape in *; simpl. done. }
  assert (Hsh : nrows idx = nrows raw1 /\ ncols idx = ncols raw1)
    by (unfold shape in Sidx; simpl in Sidx; by injection Sidx).
  destruct (np_nanmin_ok idx Widx) as [lo Hlo]; [lia | lia |].
  destruct (np_nanmax_ok idx Widx) as [hi Hhi]; [lia | lia |].
  exists idx. eexists. split; [| done].
  unfold calculate_index, call, lift, print.
  rewrite E1; cbn -[read_band normalized_difference np_nanmin np_nanmax].
  rewrite R1; cbn -[read_band normalized_difference np_nanmin np_nanmax].
  rewrite E2; cbn -[read_band normalized_difference np_nanmin np_nanmax].
  rewrite R2; cbn -[read_band normalized_difference np_nanmin np_nanmax].
  rewrite Eidx; cbn -[read_band normalized_difference np_nanmin np_nanmax].
  rewrite Hlo; cbn -[read_band normalized_difference np_nanmin np_nanmax].
  rewrite Hhi; cbn -[read_band normalized_difference np_nanmin np_nanmax].
  reflexivity.
Qed.

(** [calculate_index] returns on any two bands that broadcast to a
    non-empty shape. *)
Lemma calculate_index_broadcast (lib : library) (p1 p2 name : string)
    (src1 src2 : dataset) (raw1 raw2 : ndarray pixel) (r c : nat) :
  rio_open lib p1 = Ok src1 -> rio_open lib p2 = Ok src2 ->
  read_band src1 1 = Ok raw1 -> read_band src2 1 = Ok raw2 ->
  well_shaped raw1 -> well_shaped raw2 ->
  broadcast_shape (shape raw1) (shape raw2) = Some (r, c) ->
  (0 < r)%nat -> (0 < c)%nat ->
  exists idx es,
    calculate_index lib p1 p2 name = (Ok (idx, ds_meta src1), es).
Proof.
  intros E1 E2 R1 R2 W1 W2 Hb Hr Hc.
  destruct (normalized_difference_spec
              (amap astype_float32 raw1) (amap astype_float32 raw2) r c)
    as (idx & Eidx & Sidx & Widx & _).
  { by apply well_shaped_amap. }
  { by apply well_shaped_amap. }
  { exact Hb. }
  assert (Hsh : nrows idx = r /\ ncols idx = c)
    by (unfold shape in Sidx; by injection Sidx).
  destruct (np_nanmin_ok idx Widx) as [lo Hlo]; [lia | lia |].
  destruct (np_nanmax_ok idx Widx) as [hi Hhi]; [lia | lia |].
  exists idx. eexists.
  unfold calculate_index, call, lift, print.
  rewrite E1; cbn -[read_band normalized_difference np_nanmin np_nanmax].
  rewrite R1; cbn -[read_band normalized_difference np_nanmin np_nanmax].
  rewrite E2; cbn -[read_band normalized_difference np_nanmin np_nanmax].
  rewrite R2; cbn -[read_band normalized_difference np_nanmin np_nanmax].
  rewrite Eidx; cbn -[read_band normalized_difference np_nanmin np_nanmax].
  rewrite Hlo; cbn -[read_band normalized_difference np_nanmin np_nanmax].
  rewrite Hhi; cbn -[read_band normalized_difference np_nanmin np_nanmax].
  reflexivity.
Qed.

(** ** C9: whose metadata is returned *)

(** C9. Whenever [calculate_index] returns, whatever the shapes of the two
    bands, the metadata it returns is that of the dataset opened at the
    first path. It does return when both files open and their first bands
    broadcast to a non-empty shape, equal shapes or not. And its whole
    outcome is the same in any world that opens the first path alike and,
    at the second path, a dataset with the same bands: the metadata of the
    second band is never consulted. *)
Theorem C9_metadata_of_first_band (lib : library) (p1 p2 name : string) :
  (forall idx meta es,
     calculate_index lib p1 p2 name = (Ok (idx, meta), es) ->
     exists src1, rio_open lib p1 = Ok src1 /\ meta = ds_meta src1) /\
  (forall (src1 src2 : dataset) (raw1 raw2 : ndarray pixel) (r c : nat),
     rio_open lib p1 = Ok src1 -> rio_open lib p2 = Ok src2 ->
     read_band src1 1 = Ok raw1 -> read_band src2 1 = Ok raw2 ->
     well_shaped raw1 -> well_shaped raw2 ->
     broadcast_shape (shape raw1) (shape raw2) = Some (r, c) ->
     (0 < r)%nat -> (0 < c)%nat ->
     exists idx es,
       calculate_index lib p1 p2 name = (Ok (idx, ds_meta src1), es)) /\
  (forall (lib' : library) (src2 src2' : dataset),
     rio_open lib' p1 = rio_open lib p1 ->
     rio_open lib p2 = Ok src2 -> rio_open lib' p2 = Ok src2' ->
     ds_bands src2' = ds_bands src2 ->
     calculate_index lib' p1 p2 name = calculate_index lib p1 p2 name).
Proof.
  split; [| split].
  - intros idx meta es. apply calculate_index_meta.
  - intros src1 src2 raw1 raw2 r c. apply calculate_index_broadcast.
  - intros lib' src2 src2'. apply calculate_index_depends.
Qed.

Lemma well_shaped_raster_2x2 (p q r s : Z) :
  well_shaped (NdArray 2 2 [[PxInt p; PxInt q]; [PxInt r; PxInt s]]).
Proof. split; [reflexivity | repeat constructor]. Qed.

Lemma C9_metadata_of_first_band_witness :
  exists idx es,
    calculate_index (disk_library mixed_files)
      "mix_B03.tif" "mix_B11.tif" "MNDWI"
    = (Ok (idx, ds_meta (raster_of 1 1 [[3]]%Z "GTiff")), es).
Proof.
  apply (proj1 (proj2 (C9_metadata_of_first_band (disk_library mixed_files)
                         "mix_B03.tif" "mix_B11.tif" "MNDWI"))
           (raster_of 1 1 [[3]]%Z "GTiff")
           (raster_of 2 3 [[1; 2; 3]; [4; 5; 6]]%Z "COG")
           (NdArray 1 1 [[PxInt 3]])
           (NdArray 2 3 [[PxInt 1; PxInt 2; PxInt 3];
                         [PxInt 4; PxInt 5; PxInt 6]])
           2%nat 3%nat).
  - reflexivity.
  - reflexivity.
  - reflexivity.
  - reflexivity.
  - split; [reflexivity | repeat constructor].
  - split; [reflexivity | repeat constructor].
  - reflexivity.
  - lia.
  - lia.
Defined.

(** A 1x1 GTiff band against a 2x3 COG band: the run returns, and the
    metadata is that of the GTiff. *)
Example mixed_shapes_first_meta :
  exists idx meta es,
    calculate_index (disk_library mixed_files)
      "mix_B03.tif" "mix_B11.tif" "MNDWI" = (Ok (idx, meta), es) /\
    shape idx = (2, 3)%nat /\
    meta !! "driver" = Some (PyStr "GTiff").
Proof.
  do 3 eexists. split; [reflexivity |]. split; reflexivity.
Qed.

(** ** C8: the two index computations of the analyzer *)

Lemma analyzer_main_unfold (lib : library) (base : string) :
  analyzer_main lib base =
  match ndvi_block lib base with
  | (Ok _, es) =>
      (outcome (mndwi_block lib base), es ++ events (mndwi_block lib base))
  | (Raise e, es) => (Raise e, es)
  end.
Proof.
  unfold analyzer_main, outcome, events.
  destruct (ndvi_block lib base) as [[[]|e] es]; cbn; [| done].
  by destruct (mndwi_block lib base).
Qed.

(** C8, as stated, fails: with all four band files present and B08, B04 of
    shapes that cannot be broadcast, the NDVI computation raises and the run
    ends there; nothing of the MNDWI computation happens. *)
Lemma C8_counterexample :
  ~ (forall (lib : library) (base : string) (e : exception) (es : list event),
       ndvi_block lib base = (Raise e, es) ->
       exists before,
         events (analyzer_main lib base)
         = before ++ events (mndwi_block lib base)).
Proof.
  intros H.
  destruct (H (disk_library town_files) "town" broadcast_error
              [Print [Str "["; Str "NDVI"; Str "] 計算開始: ";
                      Str "town_B08.tif"; Str " & "; Str "town_B04.tif"];
               Call (COpen "town_B08.tif"); Call (COpen "town_B04.tif")])
    as [before Hb].
  - vm_compute. reflexivity.
  - apply (f_equal length) in Hb. rewrite length_app in Hb.
    assert (Hn : length (events (analyzer_main (disk_library town_files) "town"))
                 = 3%nat) by (vm_compute; reflexivity).
    assert (Hm : length (events (mndwi_block (disk_library town_files) "town"))
                 = 6%nat) by (vm_compute; reflexivity).
    rewrite Hn, Hm in Hb. lia.
Qed.

(** C8, amended. When a band file of the NDVI computation is missing, the
    computation is skipped with a message and the MNDWI computation runs;
    when a band file of the MNDWI computation is missing, it is skipped with
    a message and the run ends normally. An NDVI computation that completes
    is followed by the MNDWI computation. An exception raised inside the
    NDVI computation is not caught: the run ends with it. *)
Theorem C8_skip_and_continue (lib : library) (base : string) :
  (path_exists lib (base +:+ "_B08.tif")
     && path_exists lib (base +:+ "_B04.tif") = false ->
   analyzer_main lib base
   = (outcome (mndwi_block lib base),
      skip_ndvi base :: events (mndwi_block lib base))) /\
  (path_exists lib (base +:+ "_B03.tif")
     && path_exists lib (base +:+ "_B11.tif") = false ->
   mndwi_block lib base = (Ok tt, [skip_mndwi base])) /\
  (forall es, ndvi_block lib base = (Ok tt, es) ->
   analyzer_main lib base
   = (outcome (mndwi_block lib base), es ++ events (mndwi_block lib base))) /\
  (forall e es, ndvi_block lib base = (Raise e, es) ->
   analyzer_main lib base = (Raise e, es)).
Proof.
  repeat split.
  - intros Hm. rewrite analyzer_main_unfold. unfold ndvi_block.
    by rewrite Hm.
  - intros Hm. unfold mndwi_block. by rewrite Hm.
  - intros es Hn. by rewrite analyzer_main_unfold, Hn.
  - intros e es Hn. by rewrite analyzer_main_unfold, Hn.
Qed.

Lemma C8_skip_and_continue_witness :
  analyzer_main (disk_library water_files) "lake"
  = (outcome (mndwi_block (disk_library water_files) "lake"),
     skip_ndvi "lake" :: events (mndwi_block (disk_library water_files) "lake")).
Proof.
  apply (proj1 (C8_skip_and_continue (disk_library water_files) "lake")).
  reflexivity.
Defined.

(** With only the water bands on disk the NDVI computation is skipped and
    the MNDWI heatmap is written. *)
Example lake_run :
  outcome (analyzer_main (disk_library water_files) "lake") = Ok tt /\
  Call (CSaveFig "lake_MNDWI_result.png"
          (NdArray 2 2 [[F32.zero; F32.zero]; [F32.zero; F32.one]])
          "PuBu" "MNDWI Analysis: lake")
    ∈ events (analyzer_main (disk_library water_files) "lake").
Proof. vm_compute. split; [reflexivity |]. do 5 right. left. Qed.

(** ** Floats: facts that hold by the shape of the operations *)

Section Structural.
Local Open Scope Z_scope.
Variables prec emax : Z.


Lemma binary_round_aux_opp s m e l :
  binary_round_aux prec emax (negb s) m e l
  = SFopp (binary_round_aux prec emax s m e l).
Proof.
  unfold binary_round_aux.
  destruct (shr_fexp prec emax m e l) as [mrs' e'].
  destruct (shr_fexp prec emax _ e' loc_Exact) as [mrs'' e''].
  destruct (shr_m mrs''); try reflexivity.
  by destruct (e'' <=? emax - prec).
Qed.

Lemma binary_round_opp s m e :
  binary_round prec emax (negb s) m e = SFopp (binary_round prec emax s m e).
Proof.
  unfold binary_round. destruct (shl_align _ _ _) as [mz ez].
  apply binary_round_aux_opp.
Qed.

Lemma binary_normalize_opp m e :
  zero_like (binary_normalize prec emax (- m) e false)
            (SFopp (binary_normalize prec emax m e false)).
Proof.
  destruct m as [|p|p]; simpl.
  - right. eauto.
  - left. apply (binary_round_opp false).
  - left. apply (binary_round_opp true).
Qed.




Lemma SFcompare_refl x : x <> S754_nan -> SFcompare x x = Some Eq.
Proof.
  destruct x as [s|s| |s m e]; try done; intros _.
  - by destruct s.
  - simpl. rewrite Z.compare_refl, Pos.compare_cont_refl. by destruct s.
Qed.

Lemma zero_like_same_value x y : zero_like x y -> same_value x y = true.
Proof.
  intros [->|(s & s' & -> & ->)]; [| reflexivity].
  destruct y as [s|s| |s m e]; try reflexivity; unfold same_value, SFeqb.
  - by rewrite SFcompare_refl.
  - by rewrite SFcompare_refl.
Qed.

(** [0 * a + 0 * b + c] is [c] when [a] and [b] are finite. *)
Lemma SFadd_zero_products a b c :
  is_finite a = true -> is_finite b = true ->
  zero_like
    (SFadd prec emax
       (SFadd prec emax (SFmul prec emax (S754_zero false) a)
                        (SFmul prec emax (S754_zero false) b)) c) c.
Proof.
  intros Ha Hb.
  destruct a as [sa|sa| |sa ma ea]; try discriminate Ha;
  destruct b as [sb|sb| |sb mb eb]; try discriminate Hb;
  destruct c as [sc|sc| |sc mc ec]; simpl;
    try (left; reflexivity);
    try (destruct sa; destruct sb;
         ((left; reflexivity) || (right; destruct sc; simpl; eauto)); fail);
    try (destruct sa; ((left; reflexivity) || (right; destruct sc; simpl; eauto)); fail);
    try (destruct sb; ((left; reflexivity) || (right; destruct sc; simpl; eauto)); fail);
    try (right; destruct sc; simpl; eauto; fail).
Qed.
End Structural.

(** ** Floats: counting digits *)

Section Digits.
Local Open Scope Z_scope.

Lemma digits2_pos_bounds (p : positive) :
  2 ^ (Zpos (digits2_pos p) - 1) <= Zpos p < 2 ^ Zpos (digits2_pos p).
Proof.
  induction p as [p IH|p IH|]; simpl digits2_pos.
  - rewrite Pos2Z.inj_succ.
    replace (Z.succ (Zpos (digits2_pos p)) - 1) with (Z.succ (Zpos (digits2_pos p) - 1)) by lia.
    rewrite !Z.pow_succ_r by lia. lia.
  - rewrite Pos2Z.inj_succ.
    replace (Z.succ (Zpos (digits2_pos p)) - 1) with (Z.succ (Zpos (digits2_pos p) - 1)) by lia.
    rewrite !Z.pow_succ_r by lia. lia.
  - simpl. lia.
Qed.

Lemma Zdigits2_log2 (m : Z) : 0 < m -> Zdigits2 m = Z.log2 m + 1.
Proof.
  intros Hm. destruct m as [|p|p]; try lia. simpl Zdigits2.
  pose proof (digits2_pos_bounds p) as [H1 H2].
  symmetry. rewrite (Z.log2_unique (Zpos p) (Zpos (digits2_pos p) - 1)); [lia | lia |].
  replace (Z.succ (Zpos (digits2_pos p) - 1)) with (Zpos (digits2_pos p)) by lia.
  done.
Qed.

Lemma Zdigits2_nonneg (m : Z) : 0 <= Zdigits2 m.
Proof. destruct m; simpl; lia. Qed.

Lemma Zdigits2_pos (m : Z) : 0 < m -> 0 < Zdigits2 m.
Proof. destruct m; simpl; lia. Qed.

Lemma Zdigits2_bounds (m : Z) :
  0 < m -> 2 ^ (Zdigits2 m - 1) <= m < 2 ^ Zdigits2 m.
Proof.
  intros Hm. destruct m as [|p|p]; try lia. apply digits2_pos_bounds.
Qed.

Lemma Zdigits2_unique (m d : Z) :
  2 ^ (d - 1) <= m < 2 ^ d -> 0 < m -> Zdigits2 m = d.
Proof.
  intros [H1 H2] Hm. rewrite Zdigits2_log2 by done.
  assert (0 < d).
  { destruct (Z_lt_le_dec 0 d); [done |].
    assert (2 ^ d <= 2 ^ 0) by (apply Z.pow_le_mono_r; lia).
    simpl in *. lia. }
  rewrite (Z.log2_unique m (d - 1)); [lia | lia |].
  replace (Z.succ (d - 1)) with d by lia. done.
Qed.

Lemma Zdigits2_le (m n : Z) : 0 <= m <= n -> Zdigits2 m <= Zdigits2 n.
Proof.
  intros [H0 H]. destruct (Z.eq_dec m 0) as [->|Hm].
  - apply Zdigits2_nonneg.
  - rewrite !Zdigits2_log2 by lia.
    pose proof (Z.log2_le_mono m n H). lia.
Qed.

Lemma Zdigits2_lt_pow (m d : Z) : 0 <= m -> 0 <= d -> m < 2 ^ d -> Zdigits2 m <= d.
Proof.
  intros H0 Hd H. destruct (Z.eq_dec m 0) as [->|Hm]; [simpl; lia |].
  rewrite Zdigits2_log2 by lia.
  assert (Z.log2 m < d) by (apply Z.log2_lt_pow2; lia). lia.
Qed.

Lemma Zdigits2_ge_pow (m d : Z) : 0 <= d -> 2 ^ d <= m -> d + 1 <= Zdigits2 m.
Proof.
  intros Hd H.
  assert (0 < 2 ^ d) by (apply Z.pow_pos_nonneg; lia).
  rewrite Zdigits2_log2 by lia.
  assert (d <= Z.log2 m) by (apply Z.log2_le_pow2; lia). lia.
Qed.

Lemma Zdigits2_mul_pow2 (m k : Z) :
  0 < m -> 0 <= k -> Zdigits2 (m * 2 ^ k) = Zdigits2 m + k.
Proof.
  intros Hm Hk.
  assert (0 < 2 ^ k) by (apply Z.pow_pos_nonneg; lia).
  rewrite !Zdigits2_log2 by nia.
  rewrite Z.log2_mul_pow2 by lia. lia.
Qed.

Lemma Zdigits2_div_pow2 (m k : Z) :
  0 <= m -> 0 <= k -> Zdigits2 (m / 2 ^ k) = Z.max (Zdigits2 m - k) 0.
Proof.
  intros Hm Hk.
  assert (Hp : 0 < 2 ^ k) by (apply Z.pow_pos_nonneg; lia).
  destruct (Z.eq_dec m 0) as [->|Hm0].
  { rewrite Z.div_0_l by lia. simpl. lia. }
  pose proof (Zdigits2_bounds m ltac:(lia)) as [B1 B2].
  pose proof (Zdigits2_pos m ltac:(lia)) as Hd.
  destruct (Z_lt_le_dec (Zdigits2 m - k) 1) as [Hs|Hs].
  - (* everything shifted out *)
    assert (m < 2 ^ k).
    { eapply Z.lt_le_trans; [exact B2 |]. apply Z.pow_le_mono_r; lia. }
    rewrite Z.div_small by lia. simpl. lia.
  - assert (Hq : 2 ^ (Zdigits2 m - k - 1) <= m / 2 ^ k < 2 ^ (Zdigits2 m - k)).
    { split.
      - apply Z.div_le_lower_bound; [lia |].
        rewrite <- Z.pow_add_r by lia.
        replace (k + (Zdigits2 m - k - 1)) with (Zdigits2 m - 1) by lia. done.
      - apply Z.div_lt_upper_bound; [lia |].
        rewrite <- Z.pow_add_r by lia.
        replace (k + (Zdigits2 m - k)) with (Zdigits2 m) by lia. done. }
    assert (0 < 2 ^ (Zdigits2 m - k - 1)) by (apply Z.pow_pos_nonneg; lia).
    rewrite (Zdigits2_unique _ (Zdigits2 m - k)); [lia | | lia].
    replace (Zdigits2 m - k - 1) with (Zdigits2 m - k - 1) in Hq by lia. exact Hq.
Qed.
End Digits.

(** ** Floats: shifting a mantissa right *)

Section Shr.
Local Open Scope Z_scope.

Lemma iter_pos_nat {A} (f : A -> A) (p : positive) (x : A) :
  SpecFloat.iter_pos f p x = Nat.iter (Pos.to_nat p) f x.
Proof.
  revert x. induction p as [p IH|p IH|]; intros x; simpl SpecFloat.iter_pos.
  - rewrite !IH, Pos2Nat.inj_xI.
    replace (S (2 * Pos.to_nat p)) with (Pos.to_nat p + S (Pos.to_nat p))%nat by lia.
    rewrite Nat.iter_add. f_equal. by rewrite Nat.iter_succ_r.
  - rewrite !IH, Pos2Nat.inj_xO.
    replace (2 * Pos.to_nat p)%nat with (Pos.to_nat p + Pos.to_nat p)%nat by lia.
    by rewrite Nat.iter_add.
  - reflexivity.
Qed.

Lemma shr_1_spec (m : Z) (r s : bool) :
  0 <= m ->
  shr_1 (Build_shr_record m r s) = Build_shr_record (m / 2) (Z.odd m) (r || s).
Proof.
  intros Hm. destruct m as [|p|p]; [reflexivity | | lia].
  destruct p as [p|p|]; simpl shr_1; f_equal.
  - rewrite Pos2Z.inj_xI. symmetry.
    rewrite Z.add_comm, Z.mul_comm, Z.div_add by lia. reflexivity.
  - rewrite Pos2Z.inj_xO. symmetry.
    rewrite Z.mul_comm, Z.div_mul by lia. reflexivity.
Qed.

Lemma mod_pow2_succ (m : Z) (n : Z) :
  0 <= m -> 0 <= n ->
  (m mod 2 ^ (n + 1) = 0 <-> m mod 2 ^ n = 0 /\ Z.odd (m / 2 ^ n) = false).
Proof.
  intros Hm Hn.
  assert (Hp : 0 < 2 ^ n) by (apply Z.pow_pos_nonneg; lia).
  rewrite Z.pow_add_r, Z.pow_1_r by lia.
  rewrite Z.rem_mul_r by lia.
  pose proof (Z.mod_pos_bound m (2 ^ n) Hp).
  pose proof (Z.mod_pos_bound (m / 2 ^ n) 2 ltac:(lia)).
  rewrite <- Z.negb_even, negb_false_iff.
  rewrite Zeven.Zeven_bool_iff, Zeven.Zeven_ex_iff.
  split.
  - intros H1. split; [nia |].
    exists (m / 2 ^ n / 2).
    pose proof (Z.div_mod (m / 2 ^ n) 2 ltac:(lia)). nia.
  - intros [H1 [k Hk]].
    assert (Hz : (m / 2 ^ n) mod 2 = 0).
    { rewrite Hk, (Z.mul_comm 2 k). apply Z.mod_mul. lia. }
    rewrite H1, Hz. lia.
Qed.

Lemma iter_shr_1_spec (n : nat) (m : Z) (r s : bool) :
  0 <= m ->
  let mrs := Nat.iter n shr_1 (Build_shr_record m r s) in
  shr_m mrs = m / 2 ^ Z.of_nat n /\
  (shr_r mrs || shr_s mrs = false <->
   r || s = false /\ m mod 2 ^ Z.of_nat n = 0).
Proof.
  intros Hm. induction n as [|n IH].
  - simpl. rewrite Z.div_1_r, Z.mod_1_r. tauto.
  - cbn zeta in *. rewrite Nat.iter_succ.
    destruct (Nat.iter n shr_1 (Build_shr_record m r s)) as [mn rn sn].
    simpl in IH. destruct IH as [IHm IHl].
    assert (0 <= mn).
    { rewrite IHm. apply Z.div_pos; [lia |]. apply Z.pow_pos_nonneg; lia. }
    rewrite shr_1_spec by done. simpl.
    rewrite Nat2Z.inj_succ, <- Z.add_1_r.
    split.
    + rewrite IHm, Z.pow_add_r, Z.pow_1_r by lia.
      rewrite Z.div_div; [done | | lia]. apply Z.pow_nonzero; lia.
    + rewrite mod_pow2_succ by lia. rewrite <- IHm.
      rewrite orb_false_iff. rewrite IHl. tauto.
Qed.

Lemma loc_of_shr_record_exact (mrs : shr_record) :
  loc_of_shr_record mrs = loc_Exact <-> shr_r mrs || shr_s mrs = false.
Proof. destruct mrs as [m [|] [|]]; simpl; split; congruence. Qed.

Lemma shr_record_of_loc_m (m : Z) (l : location) :
  shr_m (shr_record_of_loc m l) = m.
Proof. by destruct l as [|[| |]]. Qed.

Lemma shr_record_of_loc_exact (m : Z) :
  shr_record_of_loc m loc_Exact = Build_shr_record m false false.
Proof. reflexivity. Qed.

Lemma shr_spec (m : Z) (l : location) (e n : Z) :
  0 <= m ->
  exists mrs,
    shr (shr_record_of_loc m l) e n = (mrs, e + Z.max n 0) /\
    shr_m mrs = m / 2 ^ Z.max n 0 /\
    (l = loc_Exact -> m mod 2 ^ Z.max n 0 = 0 ->
     loc_of_shr_record mrs = loc_Exact).
Proof.
  intros Hm. destruct n as [|p|p]; simpl shr.
  - exists (shr_record_of_loc m l). rewrite Z.add_0_r; simpl Z.max.
    rewrite Z.div_1_r, shr_record_of_loc_m.
    split; [done |]. split; [done |]. by intros ->.
  - rewrite Z.max_l by lia. rewrite iter_pos_nat.
    eexists. split; [reflexivity |].
    pose proof (iter_shr_1_spec (Pos.to_nat p) m
                  (shr_r (shr_record_of_loc m l)) (shr_s (shr_record_of_loc m l)) Hm)
      as [H1 H2].
    rewrite positive_nat_Z in H1, H2.
    assert (Hrec : shr_record_of_loc m l
                   = Build_shr_record m (shr_r (shr_record_of_loc m l))
                                        (shr_s (shr_record_of_loc m l))).
    { by destruct l as [|[| |]]. }
    rewrite <- Hrec in H1, H2. split; [exact H1 |].
    intros -> Hmod. apply loc_of_shr_record_exact, H2. by split.
  - exists (shr_record_of_loc m l). rewrite Z.max_r by lia.
    rewrite Z.add_0_r, Z.div_1_r, shr_record_of_loc_m.
    split; [done |]. split; [done |]. by intros ->.
Qed.

Lemma round_nearest_even_bounds (m : Z) (l : location) :
  m <= round_nearest_even m l <= m + 1.
Proof. destruct l as [|[| |]]; simpl; try lia. destruct (Z.even m); lia. Qed.

Lemma round_nearest_even_exact (m : Z) : round_nearest_even m loc_Exact = m.
Proof. reflexivity. Qed.
End Shr.

(** ** Floats: rounding in a format *)

Section Format.
Local Open Scope Z_scope.
Variables prec emax : Z.
Hypothesis prec_gt_0 : 0 < prec.
Hypothesis prec_lt_emax : prec < emax.

Local Abbreviation emin := (SpecFloat.emin prec emax).
Local Abbreviation fexp := (SpecFloat.fexp prec emax).

Lemma emin_nonpos : emin <= 0.
Proof. unfold SpecFloat.emin. lia. Qed.

Lemma fexp_ge_emin (e : Z) : emin <= fexp e.
Proof. unfold SpecFloat.fexp. lia. Qed.

Lemma fexp_ge_sub (e : Z) : e - prec <= fexp e.
Proof. unfold SpecFloat.fexp. lia. Qed.

Lemma fexp_mono (e e' : Z) : e <= e' -> fexp e <= fexp e'.
Proof. unfold SpecFloat.fexp. lia. Qed.

Lemma fexp_cases (e : Z) :
  (fexp e = emin /\ e - prec <= emin) \/ (fexp e = e - prec /\ emin < e - prec).
Proof. unfold SpecFloat.fexp. lia. Qed.

Lemma shr_fexp_spec (m e : Z) (l : location) :
  0 <= m ->
  exists mrs,
    shr_fexp prec emax m e l
    = (mrs, e + Z.max (fexp (Zdigits2 m + e) - e) 0) /\
    shr_m mrs = m / 2 ^ Z.max (fexp (Zdigits2 m + e) - e) 0 /\
    (l = loc_Exact -> m mod 2 ^ Z.max (fexp (Zdigits2 m + e) - e) 0 = 0 ->
     loc_of_shr_record mrs = loc_Exact).
Proof. intros Hm. unfold shr_fexp. by apply shr_spec. Qed.

(** What [binary_round_aux] returns on an aligned input. *)
Lemma binary_round_aux_spec (s : bool) (m e : Z) (l : location) :
  0 <= m -> e <= fexp (Zdigits2 m + e) ->
  exists m1 : Z,
    m / 2 ^ (fexp (Zdigits2 m + e) - e) <= m1
      <= m / 2 ^ (fexp (Zdigits2 m + e) - e) + 1 /\
    (l = loc_Exact -> m mod 2 ^ (fexp (Zdigits2 m + e) - e) = 0 ->
     m1 = m / 2 ^ (fexp (Zdigits2 m + e) - e)) /\
    ((m1 = 0 /\ binary_round_aux prec emax s m e l = S754_zero s) \/
     (exists (m2 : positive) (e2 : Z),
        fexp (Zdigits2 m + e) <= e2 /\
        Zpos m2 * 2 ^ (e2 - fexp (Zdigits2 m + e)) = m1 /\
        canonical_mantissa prec emax m2 e2 = true /\
        binary_round_aux prec emax s m e l
        = if e2 <=? emax - prec then S754_finite s m2 e2
          else S754_infinity s)).
Proof.
  intros Hm Hal.
  set (E := fexp (Zdigits2 m + e)) in *.
  set (n := E - e). assert (Hn : 0 <= n) by (unfold n; lia).
  assert (Hpn : 0 < 2 ^ n) by (apply Z.pow_pos_nonneg; lia).
  set (q := m / 2 ^ n).
  assert (Hq0 : 0 <= q) by (apply Z.div_pos; lia).
  destruct (shr_fexp_spec m e l Hm) as (mrs1 & Hs1 & Hm1 & Hl1).
  fold E in Hs1, Hm1, Hl1. fold n in Hs1, Hm1, Hl1.
  rewrite Z.max_l in Hs1, Hm1, Hl1 by lia.
  replace (e + n) with E in Hs1 by (unfold n; lia).
  fold q in Hm1.
  set (m1 := round_nearest_even q (loc_of_shr_record mrs1)).
  pose proof (round_nearest_even_bounds q (loc_of_shr_record mrs1)) as Hb.
  fold m1 in Hb.
  assert (Hex : l = loc_Exact -> m mod 2 ^ n = 0 -> m1 = q).
  { intros -> Hmod. unfold m1. by rewrite (Hl1 eq_refl Hmod). }
  assert (Hra : binary_round_aux prec emax s m e l
                = let '(mrs2, e2) := shr_fexp prec emax m1 E loc_Exact in
                  match shr_m mrs2 with
                  | 0 => S754_zero s
                  | Z.pos m0 =>
                      if e2 <=? emax - prec then S754_finite s m0 e2
                      else S754_infinity s
                  | Z.neg _ => S754_nan
                  end).
  { unfold binary_round_aux. rewrite Hs1, Hm1. reflexivity. }
  clearbody m1.
  assert (HE : emin <= E) by apply fexp_ge_emin.
  (* the shifted mantissa has at most [prec] digits *)
  assert (Hdq : Zdigits2 q <= prec).
  { unfold q. rewrite Zdigits2_div_pow2 by lia.
    pose proof (fexp_ge_sub (Zdigits2 m + e)). fold E in H. unfold n. lia. }
  assert (Hq2 : q < 2 ^ prec).
  { destruct (Z.eq_dec q 0) as [->|Hq]; [apply Z.pow_pos_nonneg; lia |].
    pose proof (Zdigits2_bounds q ltac:(lia)) as [_ B].
    eapply Z.lt_le_trans; [exact B |]. apply Z.pow_le_mono_r; lia. }
  destruct (shr_fexp_spec m1 E loc_Exact ltac:(lia)) as (mrs2 & Hs2 & Hm2 & _).
  exists m1. split; [exact Hb |]. split; [exact Hex |].
  rewrite Hra. clear Hra.
  destruct (Z.eq_dec m1 0) as [Hz|Hnz].
  - left. split; [done |]. rewrite Hs2, Hm2, Hz, Z.div_0_l; [done |].
    apply Z.pow_nonzero; lia.
  - right. assert (Hm1pos : 0 < m1) by lia.
    destruct (Z_lt_le_dec m1 (2 ^ prec)) as [Hlt|Hge].
    + (* no carry: the mantissa stays, the exponent is [E] *)
      assert (Hd1 : Zdigits2 m1 <= prec) by (apply Zdigits2_lt_pow; lia).
      assert (Hc : fexp (Zdigits2 m1 + E) = E).
      { destruct (fexp_cases (Zdigits2 m + e)) as [[Hf Hs]|[Hf Hs]];
          fold E in Hf.
        - unfold SpecFloat.fexp. lia.
        - assert (Zdigits2 q = prec).
          { unfold q. rewrite Zdigits2_div_pow2 by lia. unfold n. lia. }
          assert (Zdigits2 q <= Zdigits2 m1) by (apply Zdigits2_le; lia).
          unfold SpecFloat.fexp. lia. }
      rewrite Hc, Z.sub_diag in Hs2, Hm2. simpl Z.max in Hs2, Hm2.
      rewrite Z.add_0_r in Hs2. rewrite Z.div_1_r in Hm2.
      exists (Z.to_pos m1), E.
      split; [lia |]. rewrite Z.sub_diag, Z.mul_1_r, Z2Pos.id by lia.
      split; [done |]. split.
      * unfold canonical_mantissa. apply Z.eqb_eq.
        change (Zpos (digits2_pos (Z.to_pos m1))) with (Zdigits2 (Zpos (Z.to_pos m1))).
        by rewrite Z2Pos.id by lia.
      * rewrite Hs2, Hm2. destruct m1 as [|p|p]; try lia. reflexivity.
    + (* carry: the mantissa is [2 ^ prec], renormalized one exponent up *)
      assert (Hm1e : m1 = 2 ^ prec) by lia.
      assert (Hd1 : Zdigits2 m1 = prec + 1).
      { apply Zdigits2_unique; [| lia].
        replace (prec + 1 - 1) with prec by lia. rewrite Hm1e.
        split; [lia |]. apply Z.pow_lt_mono_r; lia. }
      assert (Hc : fexp (Zdigits2 m1 + E) = E + 1).
      { rewrite Hd1. unfold SpecFloat.fexp. lia. }
      replace (fexp (Zdigits2 m1 + E) - E) with 1 in Hs2, Hm2 by lia.
      change (Z.max 1 0) with 1 in Hs2, Hm2.
      assert (Hhalf : m1 / 2 ^ 1 = 2 ^ (prec - 1)).
      { rewrite Hm1e. rewrite <- Z.pow_sub_r by lia. reflexivity. }
      assert (Hhp : 0 < 2 ^ (prec - 1)) by (apply Z.pow_pos_nonneg; lia).
      exists (Z.to_pos (2 ^ (prec - 1))), (E + 1).
      split; [lia |]. rewrite Z2Pos.id by lia.
      replace (E + 1 - E) with 1 by lia. split.
      { rewrite Hm1e, Z.pow_1_r.
        replace (2 ^ prec) with (2 ^ Z.succ (prec - 1)) by (f_equal; lia).
        rewrite Z.pow_succ_r by lia. lia. }
      split.
      * unfold canonical_mantissa. apply Z.eqb_eq.
        change (Zpos (digits2_pos (Z.to_pos (2 ^ (prec - 1)))))
          with (Zdigits2 (Zpos (Z.to_pos (2 ^ (prec - 1))))).
        rewrite Z2Pos.id by lia.
        rewrite (Zdigits2_unique (2 ^ (prec - 1)) prec); [| | lia].
        -- unfold SpecFloat.fexp. lia.
        -- split; [lia |]. apply Z.pow_lt_mono_r; lia.
      * rewrite Hs2, Hm2, Hhalf.
        destruct (2 ^ (prec - 1)) as [|p|p] eqn:Hp; try lia. reflexivity.
Qed.

(** *** Valid floats and their order *)

Local Abbreviation ord := (float_ord prec emax).
Local Abbreviation valid := (valid_binary prec emax).

Lemma valid_finite (s : bool) (m : positive) (e : Z) :
  valid (S754_finite s m e) = true ->
  emin <= e <= emax - prec /\
  Zdigits2 (Zpos m) <= prec /\
  (e = emin \/ Zdigits2 (Zpos m) = prec).
Proof.
  simpl. unfold bounded, canonical_mantissa.
  rewrite andb_true_iff, Z.eqb_eq, Z.leb_le.
  change (Zpos (digits2_pos m)) with (Zdigits2 (Zpos m)).
  unfold SpecFloat.fexp. lia.
Qed.

Lemma canonical_mantissa_facts (m : positive) (e : Z) :
  canonical_mantissa prec emax m e = true ->
  emin <= e /\ Zdigits2 (Zpos m) <= prec /\
  (e = emin \/ Zdigits2 (Zpos m) = prec).
Proof.
  unfold canonical_mantissa. rewrite Z.eqb_eq.
  change (Zpos (digits2_pos m)) with (Zdigits2 (Zpos m)).
  unfold SpecFloat.fexp. lia.
Qed.

Lemma pow2_pos (k : Z) : 0 <= k -> 0 < 2 ^ k.
Proof. intros. apply Z.pow_pos_nonneg; lia. Qed.

Lemma mantissa_lt_pow (m : positive) :
  Zdigits2 (Zpos m) <= prec -> Zpos m < 2 ^ prec.
Proof.
  intros H. pose proof (Zdigits2_bounds (Zpos m) ltac:(lia)) as [_ B].
  eapply Z.lt_le_trans; [exact B |]. apply Z.pow_le_mono_r; lia.
Qed.

Lemma mantissa_ge_pow (m : positive) :
  Zdigits2 (Zpos m) = prec -> 2 ^ (prec - 1) <= Zpos m.
Proof.
  intros H. pose proof (Zdigits2_bounds (Zpos m) ltac:(lia)) as [B _].
  by rewrite H in B.
Qed.

(** A finite valid float lies strictly below the rank of infinity. *)
Lemma finite_below_infinity (s : bool) (m : positive) (e : Z) :
  valid (S754_finite s m e) = true ->
  Zpos m * 2 ^ (e - emin) < 2 ^ (emax - emin).
Proof.
  intros Hv. apply valid_finite in Hv as ([He1 He2] & Hd & _).
  pose proof (mantissa_lt_pow m Hd).
  pose proof (pow2_pos (e - emin) ltac:(lia)).
  assert (2 ^ prec * 2 ^ (e - emin) <= 2 ^ (emax - emin)).
  { rewrite <- Z.pow_add_r by lia. apply Z.pow_le_mono_r; lia. }
  nia.
Qed.

(** On canonical mantissas, comparing exponents first and mantissas next
    is comparing the values. *)
Lemma canonical_compare (m1 m2 : positive) (e1 e2 : Z) :
  canonical_mantissa prec emax m1 e1 = true ->
  canonical_mantissa prec emax m2 e2 = true ->
  match e1 ?= e2 with
  | Lt => Lt
  | Gt => Gt
  | Eq => Pos.compare_cont Eq m1 m2
  end = (Zpos m1 * 2 ^ (e1 - emin) ?= Zpos m2 * 2 ^ (e2 - emin)).
Proof.
  intros H1 H2.
  apply canonical_mantissa_facts in H1 as (He1 & Hd1 & Hc1).
  apply canonical_mantissa_facts in H2 as (He2 & Hd2 & Hc2).
  pose proof (pow2_pos (e1 - emin) ltac:(lia)) as P1.
  pose proof (pow2_pos (e2 - emin) ltac:(lia)) as P2.
  destruct (Z.compare_spec e1 e2) as [->|Hlt|Hgt].
  - change (Pos.compare_cont Eq m1 m2) with (Zpos m1 ?= Zpos m2).
    destruct (Z.compare_spec (Zpos m1) (Zpos m2)) as [E|L|G]; symmetry;
      [apply Z.compare_eq_iff | apply Z.compare_lt_iff
      | apply Z.compare_gt_iff]; nia.
  - symmetry. apply Z.compare_lt_iff.
    pose proof (mantissa_lt_pow m1 Hd1).
    assert (Hp2 : Zdigits2 (Zpos m2) = prec) by lia.
    pose proof (mantissa_ge_pow m2 Hp2).
    assert (2 ^ prec * 2 ^ (e1 - emin) <= 2 ^ (prec - 1) * 2 ^ (e2 - emin)).
    { rewrite <- !Z.pow_add_r by lia. apply Z.pow_le_mono_r; lia. }
    nia.
  - symmetry. apply Z.compare_gt_iff.
    pose proof (mantissa_lt_pow m2 Hd2).
    assert (Hp1 : Zdigits2 (Zpos m1) = prec) by lia.
    pose proof (mantissa_ge_pow m1 Hp1).
    assert (2 ^ prec * 2 ^ (e2 - emin) <= 2 ^ (prec - 1) * 2 ^ (e1 - emin)).
    { rewrite <- !Z.pow_add_r by lia. apply Z.pow_le_mono_r; lia. }
    nia.
Qed.

(** [SFcompare] on valid floats is the comparison of their ranks. *)
Lemma SFcompare_ord (x y : spec_float) :
  valid x = true -> valid y = true ->
  x <> S754_nan -> y <> S754_nan ->
  SFcompare x y = Some (ord x ?= ord y).
Proof.
  intros Hx Hy Nx Ny.
  assert (INF : 0 < 2 ^ (emax - emin))
    by (apply pow2_pos; unfold SpecFloat.emin; lia).
  destruct x as [sx|sx| |sx mx ex]; [| | done |];
  destruct y as [sy|sy| |sy my ey]; try done.
  - (* zero, infinity *) cbn [SFcompare float_ord]. f_equal. symmetry.
    destruct sy; cbn [cond_Zopp]; [apply Z.compare_gt_iff | apply Z.compare_lt_iff]; lia.
  - (* zero, finite *)
    pose proof (valid_finite _ _ _ Hy) as ([? ?] & _).
    pose proof (pow2_pos (ey - emin) ltac:(lia)).
    cbn [SFcompare float_ord]. f_equal. symmetry.
    destruct sy; cbn [cond_Zopp]; [apply Z.compare_gt_iff | apply Z.compare_lt_iff]; nia.
  - (* infinity, zero *) cbn [SFcompare float_ord]. f_equal. symmetry.
    destruct sx; cbn [cond_Zopp]; [apply Z.compare_lt_iff | apply Z.compare_gt_iff]; lia.
  - (* infinity, infinity *) cbn [SFcompare float_ord]. f_equal. symmetry.
    destruct sx, sy; cbn [cond_Zopp];
      [apply Z.compare_eq_iff | apply Z.compare_lt_iff
      | apply Z.compare_gt_iff | apply Z.compare_eq_iff]; lia.
  - (* infinity, finite *)
    pose proof (finite_below_infinity _ _ _ Hy).
    pose proof (valid_finite _ _ _ Hy) as ([? ?] & _).
    pose proof (pow2_pos (ey - emin) ltac:(lia)).
    cbn [SFcompare float_ord]. f_equal. symmetry.
    destruct sx, sy; cbn [cond_Zopp];
      [apply Z.compare_lt_iff | apply Z.compare_lt_iff
      | apply Z.compare_gt_iff | apply Z.compare_gt_iff]; nia.
  - (* finite, zero *)
    pose proof (valid_finite _ _ _ Hx) as ([? ?] & _).
    pose proof (pow2_pos (ex - emin) ltac:(lia)).
    cbn [SFcompare float_ord]. f_equal. symmetry.
    destruct sx; cbn [cond_Zopp]; [apply Z.compare_lt_iff | apply Z.compare_gt_iff]; nia.
  - (* finite, infinity *)
    pose proof (finite_below_infinity _ _ _ Hx).
    pose proof (valid_finite _ _ _ Hx) as ([? ?] & _).
    pose proof (pow2_pos (ex - emin) ltac:(lia)).
    cbn [SFcompare float_ord]. f_equal. symmetry.
    destruct sx, sy; cbn [cond_Zopp];
      [apply Z.compare_gt_iff | apply Z.compare_lt_iff
      | apply Z.compare_gt_iff | apply Z.compare_lt_iff]; nia.
  - (* finite, finite *)
    pose proof (valid_finite _ _ _ Hx) as ([? ?] & _).
    pose proof (valid_finite _ _ _ Hy) as ([? ?] & _).
    pose proof (pow2_pos (ex - emin) ltac:(lia)).
    pose proof (pow2_pos (ey - emin) ltac:(lia)).
    simpl in Hx, Hy. unfold bounded in Hx, Hy.
    apply andb_true_iff in Hx as [Cx _]. apply andb_true_iff in Hy as [Cy _].
    pose proof (canonical_compare mx my ex ey Cx Cy) as Hc.
    pose proof (canonical_compare my mx ey ex Cy Cx) as Hc'.
    cbn [SFcompare float_ord]. f_equal.
    destruct sx, sy; cbn [cond_Zopp].
    + rewrite Z.compare_opp, <- Hc'.
      rewrite (Z.compare_antisym ex ey), (Pos.compare_cont_antisym mx my Eq).
      by destruct (ex ?= ey).
    + symmetry. apply Z.compare_lt_iff. nia.
    + symmetry. apply Z.compare_gt_iff. nia.
    + exact Hc.
Qed.

(** *** Rounding an integer multiple of the smallest positive float *)

Lemma iter_xO (m d : positive) :
  Zpos (Pos.iter xO m d) = Zpos m * 2 ^ Zpos d.
Proof.
  rewrite Pos2Nat.inj_iter, <- (positive_nat_Z d).
  induction (Pos.to_nat d) as [|n IH].
  - simpl. lia.
  - cbn [nat_rect]. rewrite Pos2Z.inj_xO, IH, Nat2Z.inj_succ.
    rewrite Z.pow_succ_r by lia. lia.
Qed.

Lemma shl_align_spec (m : positive) (e e' : Z) :
  snd (shl_align m e e') = Z.min e e' /\
  Zpos (fst (shl_align m e e')) = Zpos m * 2 ^ (e - Z.min e e').
Proof.
  unfold shl_align. destruct (e' - e) as [|d|d] eqn:Hd; simpl.
  - rewrite Z.min_l by lia. rewrite Z.sub_diag. simpl. lia.
  - rewrite Z.min_l by lia. rewrite Z.sub_diag. simpl. lia.
  - rewrite Z.min_r by lia. split; [done |].
    rewrite iter_xO. f_equal. f_equal. lia.
Qed.

Lemma binary_round_units (s : bool) (p : positive) (e : Z) :
  emin <= e ->
  exists c : Z,
    kept prec (Zpos p * 2 ^ (e - emin)) c /\
    let V := c * 2 ^ Z.max (Zdigits2 (Zpos p * 2 ^ (e - emin)) - prec) 0 in
    ((V < 2 ^ (emax - emin) /\
      exists m2 e2,
        binary_round prec emax s p e = S754_finite s m2 e2 /\
        valid (S754_finite s m2 e2) = true /\
        Zpos m2 * 2 ^ (e2 - emin) = V) \/
     (2 ^ (emax - emin) <= V /\
      binary_round prec emax s p e = S754_infinity s)).
Proof.
  intros He.
  set (N := Zpos p * 2 ^ (e - emin)).
  set (g := Z.max (Zdigits2 N - prec) 0).
  set (E0 := fexp (Zdigits2 (Zpos p) + e)).
  pose proof (shl_align_spec p e E0) as [Hez Hmz].
  unfold binary_round.
  change (Zpos (digits2_pos p)) with (Zdigits2 (Zpos p)). fold E0.
  destruct (shl_align p e E0) as [mz ez]. simpl in Hez, Hmz.
  cbn beta iota.
  assert (HE0 : emin <= E0) by apply fexp_ge_emin.
  assert (Hez' : emin <= ez <= e) by lia.
  assert (Hpa : 0 < 2 ^ (ez - emin)) by (apply pow2_pos; lia).
  assert (Hpe : 0 < 2 ^ (e - ez)) by (apply pow2_pos; lia).
  assert (Hdz : Zdigits2 (Zpos mz) + ez = Zdigits2 (Zpos p) + e).
  { rewrite Hmz, Hez, Zdigits2_mul_pow2 by lia. lia. }
  assert (HN : N = Zpos mz * 2 ^ (ez - emin)).
  { unfold N. rewrite Hmz, Hez, <- Z.mul_assoc, <- Z.pow_add_r by lia.
    f_equal. f_equal. lia. }
  assert (HdN : Zdigits2 N = Zdigits2 (Zpos p) + (e - emin)).
  { unfold N. apply Zdigits2_mul_pow2; lia. }
  assert (Hg : g = E0 - emin).
  { unfold g, E0, SpecFloat.fexp. rewrite HdN. lia. }
  set (n := E0 - ez). assert (Hn : 0 <= n) by (unfold n; lia).
  assert (Hpn : 0 < 2 ^ n) by (apply pow2_pos; lia).
  assert (H2g : 2 ^ g = 2 ^ n * 2 ^ (ez - emin)).
  { rewrite <- Z.pow_add_r by lia. f_equal. unfold n. lia. }
  assert (Hq : N / 2 ^ g = Zpos mz / 2 ^ n).
  { rewrite HN, H2g. apply Z.div_mul_cancel_r; lia. }
  assert (Hr : N mod 2 ^ g = 0 -> Zpos mz mod 2 ^ n = 0).
  { rewrite HN, H2g, Z.mul_mod_distr_r by lia. nia. }
  assert (HNg : 2 ^ g <= N).
  { pose proof (Zdigits2_bounds N ltac:(unfold N; nia)) as [B _].
    pose proof (Zdigits2_pos N ltac:(unfold N; nia)).
    eapply Z.le_trans; [| exact B]. apply Z.pow_le_mono_r; lia. }
  assert (Hq1 : 1 <= N / 2 ^ g).
  { apply Z.div_le_lower_bound; [apply pow2_pos; lia | lia]. }
  destruct (binary_round_aux_spec s (Zpos mz) ez loc_Exact)
    as (m1 & Hb & Hex & Hres); [lia | rewrite Hdz; fold E0; lia |].
  rewrite Hdz in Hb, Hex, Hres. fold E0 in Hb, Hex, Hres.
  fold n in Hb, Hex, Hres. rewrite <- Hq in Hb, Hex.
  exists m1. split.
  { unfold kept. fold g. split; [lia |]. split; [done |].
    intros Hmod. apply Hex; [done |]. by apply Hr. }
  fold N. fold g. cbn zeta.
  destruct Hres as [[Hz _]|(m2 & e2 & He2 & Hm2 & Hc & Hres)]; [lia |].
  assert (HV : Zpos m2 * 2 ^ (e2 - emin) = m1 * 2 ^ g).
  { rewrite <- Hm2, Hg, <- Z.mul_assoc, <- Z.pow_add_r by lia.
    f_equal. f_equal. lia. }
  rewrite Hres. destruct (Z.leb_spec e2 (emax - prec)) as [Hle|Hgt].
  - left.
    assert (Hv : valid (S754_finite s m2 e2) = true).
    { simpl. unfold bounded. rewrite Hc. simpl. by apply Z.leb_le. }
    split.
    + rewrite <- HV. by apply (finite_below_infinity s).
    + by exists m2, e2.
  - right. split; [| done]. rewrite <- HV.
    apply canonical_mantissa_facts in Hc as (Hemin & Hd & Hcase).
    pose proof emin_nonpos.
    assert (Hp : Zdigits2 (Zpos m2) = prec) by lia.
    pose proof (mantissa_ge_pow m2 Hp).
    pose proof (pow2_pos (e2 - emin) ltac:(lia)).
    assert (Hpow : 2 ^ (emax - emin) <= 2 ^ (prec - 1) * 2 ^ (e2 - emin)).
    { rewrite <- Z.pow_add_r by lia. apply Z.pow_le_mono_r; lia. }
    etransitivity; [exact Hpow |].
    apply Z.mul_le_mono_nonneg_r; lia.
Qed.

(** *** Rounding does not cross a float *)

Lemma valid_exact_rank (s : bool) (m : positive) (e : Z) :
  valid (S754_finite s m e) = true ->
  exact_rank prec (Zpos m * 2 ^ (e - emin)).
Proof.
  intros Hv. apply valid_finite in Hv as ([He _] & Hd & Hc).
  pose proof (pow2_pos (e - emin) ltac:(lia)).
  split; [nia |]. exists (Zpos m). f_equal. f_equal.
  rewrite Zdigits2_mul_pow2 by lia. lia.
Qed.

Lemma kept_le (N c F : Z) :
  0 < N -> kept prec N c -> exact_rank prec F -> N <= F ->
  c * 2 ^ Z.max (Zdigits2 N - prec) 0 <= F.
Proof.
  intros HN (Hc & Hb & Hex) [HF [mF HmF]] Hle.
  set (g := Z.max (Zdigits2 N - prec) 0) in *.
  set (gF := Z.max (Zdigits2 F - prec) 0) in *.
  assert (Hd : Zdigits2 N <= Zdigits2 F) by (apply Zdigits2_le; lia).
  assert (Hg : 0 <= g <= gF) by lia.
  assert (Hpg : 0 < 2 ^ g) by (apply pow2_pos; lia).
  assert (HFg : F = (mF * 2 ^ (gF - g)) * 2 ^ g).
  { rewrite HmF at 1. rewrite <- Z.mul_assoc, <- Z.pow_add_r by lia.
    f_equal. f_equal. lia. }
  set (C := mF * 2 ^ (gF - g)) in *.
  pose proof (Z.mul_div_le N (2 ^ g) Hpg) as Hq.
  pose proof (Z.div_mod N (2 ^ g) ltac:(lia)) as Hdm.
  pose proof (Z.mod_pos_bound N (2 ^ g) Hpg) as Hmb.
  destruct (Z_le_gt_dec c C) as [HcC|HcC]; [nia |].
  assert (HqC : N / 2 ^ g = C) by nia.
  assert (Hmod : N mod 2 ^ g = 0) by nia.
  specialize (Hex Hmod). lia.
Qed.

Lemma kept_ge (N c F : Z) :
  kept prec N c -> exact_rank prec F -> F <= N ->
  F <= c * 2 ^ Z.max (Zdigits2 N - prec) 0.
Proof.
  intros (Hc & Hb & Hex) [HF [mF HmF]] Hle.
  set (g := Z.max (Zdigits2 N - prec) 0) in *.
  set (gF := Z.max (Zdigits2 F - prec) 0) in *.
  assert (Hd : Zdigits2 F <= Zdigits2 N) by (apply Zdigits2_le; lia).
  assert (Hg : 0 <= gF <= g) by lia.
  assert (Hpg : 0 < 2 ^ g) by (apply pow2_pos; lia).
  assert (Hge : F <= N / 2 ^ g * 2 ^ g); [| nia].
  destruct (Z.eq_dec gF g) as [Heq|Hne].
  - rewrite Heq in HmF.
    assert (mF <= N / 2 ^ g) by (apply Z.div_le_lower_bound; lia).
    nia.
  - assert (HgN : g = Zdigits2 N - prec) by lia.
    assert (HdF : Zdigits2 F < Zdigits2 N) by lia.
    pose proof (Zdigits2_bounds F HF) as [_ BF].
    pose proof (Zdigits2_bounds N ltac:(lia)) as [BN _].
    pose proof (Zdigits2_pos F HF).
    assert (2 ^ Zdigits2 F <= 2 ^ (Zdigits2 N - 1))
      by (apply Z.pow_le_mono_r; lia).
    assert (H2 : 2 ^ (Zdigits2 N - 1) = 2 ^ (prec - 1) * 2 ^ g).
    { rewrite <- Z.pow_add_r by lia. f_equal. lia. }
    assert (2 ^ (prec - 1) <= N / 2 ^ g)
      by (apply Z.div_le_lower_bound; lia).
    nia.
Qed.

(** *** [binary_normalize], addition and subtraction against a float *)

Lemma ord_opp (x : spec_float) : ord (SFopp x) = - ord x.
Proof. destruct x as [s|s| |s m e]; simpl; try done; destruct s; simpl; lia. Qed.

Lemma valid_opp (x : spec_float) : valid (SFopp x) = valid x.
Proof. by destruct x. Qed.

Lemma is_finite_opp (x : spec_float) : is_finite (SFopp x) = is_finite x.
Proof. by destruct x. Qed.

Lemma ord_zero_like (x y : spec_float) : zero_like x y -> ord x = ord y.
Proof. by intros [->|(s & s' & -> & ->)]. Qed.

Lemma valid_zero_like (x y : spec_float) :
  zero_like x y -> valid x = valid y.
Proof. by intros [->|(s & s' & -> & ->)]. Qed.

Lemma nan_zero_like (x y : spec_float) :
  zero_like x y -> y <> S754_nan -> x <> S754_nan.
Proof. by intros [->|(s & s' & -> & ->)]. Qed.

Lemma ord_finite_pos (s : bool) (m : positive) (e : Z) :
  valid (S754_finite s m e) = true -> 0 < Zpos m * 2 ^ (e - emin).
Proof.
  intros Hv. apply valid_finite in Hv as ([He _] & _).
  pose proof (pow2_pos (e - emin) ltac:(lia)). nia.
Qed.

Lemma binary_normalize_valid (M e : Z) :
  emin <= e ->
  valid (binary_normalize prec emax M e false) = true /\
  binary_normalize prec emax M e false <> S754_nan.
Proof.
  intros He. destruct M as [|p|p]; simpl; [done | |].
  - destruct (binary_round_units false p e He)
      as (c & _ & [(_ & m2 & e2 & -> & Hv & _)|(_ & ->)]); done.
  - destruct (binary_round_units true p e He)
      as (c & _ & [(_ & m2 & e2 & -> & Hv & _)|(_ & ->)]); done.
Qed.

Lemma binary_normalize_ge (M e : Z) (F : spec_float) :
  emin <= e -> valid F = true -> is_finite F = true ->
  ord F <= M * 2 ^ (e - emin) ->
  ord F <= ord (binary_normalize prec emax M e false).
Proof.
  intros He HvF HfF Hle.
  pose proof (pow2_pos (e - emin) ltac:(lia)) as Hpe.
  assert (INF : 0 < 2 ^ (emax - emin))
    by (apply pow2_pos; unfold SpecFloat.emin; lia).
  destruct M as [|p|p]; cbn [binary_normalize].
  - simpl. lia.
  - destruct (binary_round_units false p e He) as (c & Hk & Hres).
    cbn zeta in Hres.
    assert (HV : 0 < c * 2 ^ Z.max (Zdigits2 (Zpos p * 2 ^ (e - emin)) - prec) 0).
    { destruct Hk as [Hc _]. apply Z.mul_pos_pos; [done |]. apply pow2_pos. lia. }
    assert (HF : ord F <= c * 2 ^ Z.max (Zdigits2 (Zpos p * 2 ^ (e - emin)) - prec) 0).
    { destruct F as [sF|sF| |sF mF eF]; try done; cbn [float_ord].
      - lia.
      - destruct sF; cbn [cond_Zopp].
        + pose proof (ord_finite_pos _ _ _ HvF). lia.
        + apply kept_ge; [done | by apply (valid_exact_rank false) |].
          exact Hle. }
    destruct Hres as [(_ & m2 & e2 & -> & _ & HV2)|(Hov & ->)];
      cbn [float_ord cond_Zopp].
    + by rewrite HV2.
    + destruct F as [sF|sF| |sF mF eF]; try done; cbn [float_ord] in *.
      * lia.
      * pose proof (finite_below_infinity _ _ _ HvF).
        pose proof (ord_finite_pos _ _ _ HvF).
        destruct sF; cbn [cond_Zopp] in *; lia.
  - destruct (binary_round_units true p e He) as (c & Hk & Hres).
    cbn zeta in Hres.
    assert (HN : 0 < Zpos p * 2 ^ (e - emin)) by nia.
    destruct F as [sF|sF| |sF mF eF]; try done; cbn [float_ord] in *; [lia |].
    pose proof (ord_finite_pos _ _ _ HvF) as HFpos.
    pose proof (finite_below_infinity _ _ _ HvF) as HFinf.
    destruct sF; cbn [cond_Zopp] in *; [| lia].
    assert (HF : c * 2 ^ Z.max (Zdigits2 (Zpos p * 2 ^ (e - emin)) - prec) 0
                 <= Zpos mF * 2 ^ (eF - emin)).
    { apply kept_le; [done | done | by apply (valid_exact_rank true) | lia]. }
    destruct Hres as [(_ & m2 & e2 & -> & _ & HV2)|(Hov & ->)];
      cbn [float_ord cond_Zopp]; lia.
Qed.

Lemma binary_normalize_le (M e : Z) (F : spec_float) :
  emin <= e -> valid F = true -> is_finite F = true ->
  M * 2 ^ (e - emin) <= ord F ->
  ord (binary_normalize prec emax M e false) <= ord F.
Proof.
  intros He HvF HfF Hle.
  pose proof (binary_normalize_ge (- M) e (SFopp F) He) as H.
  rewrite valid_opp, is_finite_opp, ord_opp in H.
  specialize (H HvF HfF ltac:(lia)).
  rewrite (ord_zero_like _ _ (binary_normalize_opp prec emax M e)) in H.
  rewrite ord_opp in H. lia.
Qed.

(** The aligned mantissa of a finite float, as used by [SFadd]/[SFsub]. *)
Lemma aligned_mantissa (s : bool) (m : positive) (e ez : Z) :
  emin <= ez <= e ->
  cond_Zopp s (Zpos (fst (shl_align m e ez))) * 2 ^ (ez - emin)
  = ord (S754_finite s m e).
Proof.
  intros Hez. destruct (shl_align_spec m e ez) as [_ ->].
  rewrite Z.min_r by lia. cbn [float_ord].
  assert (Zpos m * 2 ^ (e - ez) * 2 ^ (ez - emin) = Zpos m * 2 ^ (e - emin)).
  { rewrite <- Z.mul_assoc, <- Z.pow_add_r by lia. f_equal. f_equal. lia. }
  destruct s; cbn [cond_Zopp]; lia.
Qed.

Lemma SFadd_finite (x y : spec_float) :
  valid x = true -> valid y = true ->
  is_finite x = true -> is_finite y = true ->
  valid (SFadd prec emax x y) = true /\
  SFadd prec emax x y <> S754_nan /\
  forall F, valid F = true -> is_finite F = true ->
    (ord F <= ord x + ord y -> ord F <= ord (SFadd prec emax x y)) /\
    (ord x + ord y <= ord F -> ord (SFadd prec emax x y) <= ord F).
Proof.
  intros Hx Hy Fx Fy.
  destruct x as [sx|sx| |sx mx ex]; try discriminate Fx;
  destruct y as [sy|sy| |sy my ey]; try discriminate Fy.
  - split; [by destruct sx, sy |]. split; [by destruct sx, sy |].
    intros F _ _. destruct sx, sy; simpl; lia.
  - cbn [SFadd]. split; [done |]. split; [done |].
    intros F _ _. cbn [float_ord]. lia.
  - cbn [SFadd]. split; [done |]. split; [done |].
    intros F _ _. cbn [float_ord]. lia.
  - pose proof (valid_finite _ _ _ Hx) as ([? ?] & _).
    pose proof (valid_finite _ _ _ Hy) as ([? ?] & _).
    cbn [SFadd].
    set (ez := Z.min ex ey).
    assert (Hez : emin <= ez) by (unfold ez; lia).
    destruct (binary_normalize_valid
                (cond_Zopp sx (Zpos (fst (shl_align mx ex ez)))
                 + cond_Zopp sy (Zpos (fst (shl_align my ey ez)))) ez Hez)
      as [Hv Hn].
    split; [done |]. split; [done |]. intros F HvF HfF.
    assert (Hsum : (cond_Zopp sx (Zpos (fst (shl_align mx ex ez)))
                    + cond_Zopp sy (Zpos (fst (shl_align my ey ez))))
                   * 2 ^ (ez - emin)
                   = ord (S754_finite sx mx ex) + ord (S754_finite sy my ey)).
    { rewrite Z.mul_add_distr_r.
      rewrite !aligned_mantissa by (unfold ez; lia). done. }
    split; intros Hle.
    + apply binary_normalize_ge; try done. by rewrite Hsum.
    + apply binary_normalize_le; try done. by rewrite Hsum.
Qed.

Lemma SFsub_finite (x y : spec_float) :
  valid x = true -> valid y = true ->
  is_finite x = true -> is_finite y = true ->
  valid (SFsub prec emax x y) = true /\
  SFsub prec emax x y <> S754_nan /\
  forall F, valid F = true -> is_finite F = true ->
    (ord F <= ord x - ord y -> ord F <= ord (SFsub prec emax x y)) /\
    (ord x - ord y <= ord F -> ord (SFsub prec emax x y) <= ord F).
Proof.
  intros Hx Hy Fx Fy.
  destruct x as [sx|sx| |sx mx ex]; try discriminate Fx;
  destruct y as [sy|sy| |sy my ey]; try discriminate Fy.
  - split; [by destruct sx, sy |]. split; [by destruct sx, sy |].
    intros F _ _. destruct sx, sy; simpl; lia.
  - cbn [SFsub]. split; [done |]. split; [done |]. intros F _ _.
    cbn [float_ord]. destruct sy; cbn [negb cond_Zopp]; lia.
  - cbn [SFsub]. split; [done |]. split; [done |].
    intros F _ _. cbn [float_ord]. lia.
  - pose proof (valid_finite _ _ _ Hx) as ([? ?] & _).
    pose proof (valid_finite _ _ _ Hy) as ([? ?] & _).
    cbn [SFsub].
    set (ez := Z.min ex ey).
    assert (Hez : emin <= ez) by (unfold ez; lia).
    destruct (binary_normalize_valid
                (cond_Zopp sx (Zpos (fst (shl_align mx ex ez)))
                 - cond_Zopp sy (Zpos (fst (shl_align my ey ez)))) ez Hez)
      as [Hv Hn].
    split; [done |]. split; [done |]. intros F HvF HfF.
    assert (Hsum : (cond_Zopp sx (Zpos (fst (shl_align mx ex ez)))
                    - cond_Zopp sy (Zpos (fst (shl_align my ey ez))))
                   * 2 ^ (ez - emin)
                   = ord (S754_finite sx mx ex) - ord (S754_finite sy my ey)).
    { rewrite Z.mul_sub_distr_r.
      rewrite !aligned_mantissa by (unfold ez; lia). done. }
    split; intros Hle.
    + apply binary_normalize_ge; try done. by rewrite Hsum.
    + apply binary_normalize_le; try done. by rewrite Hsum.
Qed.

(** *** A quotient of magnitude at most one *)

Lemma new_location_exact (nb : Z) : new_location nb 0 = loc_Exact.
Proof.
  unfold new_location, new_location_even, new_location_odd.
  by destruct (Z.even nb).
Qed.

Lemma SFdiv_le_one (sx sy : bool) (mx my : positive) (ex ey : Z) :
  valid (S754_finite sx mx ex) = true ->
  valid (S754_finite sy my ey) = true ->
  Zpos mx * 2 ^ (ex - emin) <= Zpos my * 2 ^ (ey - emin) ->
  valid (SFdiv prec emax (S754_finite sx mx ex) (S754_finite sy my ey)) = true /\
  SFdiv prec emax (S754_finite sx mx ex) (S754_finite sy my ey) <> S754_nan /\
  - 2 ^ (- emin)
    <= ord (SFdiv prec emax (S754_finite sx mx ex) (S754_finite sy my ey))
    <= 2 ^ (- emin).
Proof.
  intros Hx Hy Hle.
  pose proof (valid_finite _ _ _ Hx) as ([Hex1 Hex2] & Hdx & _).
  pose proof (valid_finite _ _ _ Hy) as ([Hey1 Hey2] & Hdy & _).
  pose proof emin_nonpos as Hemin.
  set (a := ex - emin) in *. set (b := ey - emin) in *.
  assert (Ha : 0 <= a) by (unfold a; lia).
  assert (Hb : 0 <= b) by (unfold b; lia).
  pose proof (pow2_pos a Ha) as Hpa. pose proof (pow2_pos b Hb) as Hpb.
  assert (Hone : 0 < 2 ^ (- emin)) by (apply pow2_pos; lia).
  cbn [SFdiv]. unfold SFdiv_core_binary.
  set (d1 := Zdigits2 (Zpos mx)). set (d2 := Zdigits2 (Zpos my)).
  set (D := d1 + ex - (d2 + ey)).
  set (e' := Z.min (fexp D) (ex - ey)).
  set (sh := ex - ey - e').
  assert (Hsh : 0 <= sh) by (unfold sh, e'; lia).
  pose proof (pow2_pos sh Hsh) as Hpsh.
  assert (He' : e' = a - b - sh) by (unfold sh, a, b; lia).
  set (m' := match sh with
             | 0 => Z.pos mx
             | Z.pos _ => Z.shiftl (Z.pos mx) sh
             | Z.neg _ => 0
             end).
  assert (Hm' : m' = Zpos mx * 2 ^ sh).
  { unfold m'. destruct sh as [|p|p] eqn:Hs; [simpl; lia | | lia].
    apply Z.shiftl_mul_pow2. lia. }
  clearbody m'.
  pose proof (Z_div_mod m' (Zpos my) ltac:(lia)) as Hdm.
  destruct (Z.div_eucl m' (Zpos my)) as [q r]. destruct Hdm as [Hdm Hr].
  assert (Hq0 : 0 <= q) by nia.
  (* digits *)
  pose proof (Zdigits2_bounds (Zpos mx) ltac:(lia)) as [Bx1 Bx2].
  pose proof (Zdigits2_bounds (Zpos my) ltac:(lia)) as [By1 By2].
  fold d1 in Bx1, Bx2, Hdx. fold d2 in By1, By2, Hdy.
  assert (Hd1 : 0 < d1) by (apply Zdigits2_pos; lia).
  assert (Hd2 : 0 < d2) by (apply Zdigits2_pos; lia).
  assert (HD : D <= 0).
  { assert (Zdigits2 (Zpos mx * 2 ^ a) <= Zdigits2 (Zpos my * 2 ^ b))
      by (apply Zdigits2_le; nia).
    rewrite !Zdigits2_mul_pow2 in H by lia. unfold D, a, b in *.
    fold d1 d2 in H. lia. }
  (* the quotient is at most one *)
  assert (Hq1 : q * 2 ^ a <= 2 ^ (b + sh)).
  { rewrite Z.pow_add_r by lia.
    apply (Z.mul_le_mono_pos_l _ _ (Zpos my)); [lia |]. nia. }
  (* the input of the rounding is aligned *)
  assert (Hal : e' <= fexp (Zdigits2 q + e')).
  { destruct (Z_le_gt_dec e' emin) as [Hlo|Hhi].
    - pose proof (fexp_ge_emin (Zdigits2 q + e')). lia.
    - assert (HfD : e' <= D - prec).
      { unfold e' in *. destruct (fexp_cases D) as [[Hf ?]|[Hf ?]]; lia. }
      assert (Hs2 : d2 - d1 + prec <= sh) by (unfold sh, D in *; lia).
      assert (Hlow : 2 ^ (prec - 1) * Zpos my <= m').
      { rewrite Hm'.
        assert (2 ^ (prec - 1) * 2 ^ d2 <= 2 ^ (d1 - 1) * 2 ^ sh).
        { rewrite <- !Z.pow_add_r by lia. apply Z.pow_le_mono_r; lia. }
        pose proof (pow2_pos (prec - 1) ltac:(lia)).
        nia. }
      assert (Hqp : 2 ^ (prec - 1) <= q).
      { pose proof (pow2_pos (prec - 1) ltac:(lia)).
        destruct (Z_le_gt_dec (2 ^ (prec - 1)) q); [done | nia]. }
      pose proof (Zdigits2_ge_pow q (prec - 1) ltac:(lia) Hqp).
      pose proof (fexp_ge_sub (Zdigits2 q + e')). lia. }
  destruct (binary_round_aux_spec (xorb sx sy) q e' (new_location (Zpos my) r)
              Hq0 Hal) as (m1 & Hb1 & Hex & Hres).
  set (E := fexp (Zdigits2 q + e')) in *.
  set (n := E - e') in *.
  assert (Hn : 0 <= n) by (unfold n; lia).
  pose proof (pow2_pos n Hn) as Hpn.
  assert (HEmin : emin <= E) by apply fexp_ge_emin.
  assert (HE0 : E <= 0).
  { assert (Zdigits2 q + e' <= 1).
    { destruct (Z.eq_dec q 0) as [->|Hq].
      - simpl. pose proof (fexp_mono D 0 HD). unfold e', SpecFloat.fexp in *. lia.
      - pose proof (Zdigits2_bounds q ltac:(lia)) as [Bq _].
        pose proof (Zdigits2_pos q ltac:(lia)).
        assert (2 ^ (Zdigits2 q - 1 + a) <= 2 ^ (b + sh)).
        { rewrite Z.pow_add_r by lia. nia. }
        apply Z.pow_le_mono_r_iff in H0; lia. }
    pose proof (fexp_mono _ _ H). fold E in H0.
    unfold SpecFloat.fexp in H0. lia. }
  pose proof (pow2_pos (- E) ltac:(lia)) as HpE.
  set (Q := q / 2 ^ n) in *.
  pose proof (Z.mul_div_le q (2 ^ n) Hpn) as HQ. fold Q in HQ.
  assert (HQ0 : 0 <= Q) by (apply Z.div_pos; lia).
  assert (Hna : n + a = E + (b + sh)) by (unfold n; lia).
  assert (H2t : 2 ^ (b + sh) = 2 ^ (- E) * (2 ^ n * 2 ^ a)).
  { rewrite <- !Z.pow_add_r by lia. f_equal. lia. }
  assert (HQq : 2 ^ n * Q * 2 ^ a <= q * 2 ^ a)
    by (apply Z.mul_le_mono_nonneg_r; lia).
  assert (HQE : Q <= 2 ^ (- E)).
  { apply (Z.mul_le_mono_pos_r _ _ (2 ^ n * 2 ^ a));
      [apply Z.mul_pos_pos; lia |].
    rewrite <- H2t. etransitivity; [| exact Hq1].
    replace (Q * (2 ^ n * 2 ^ a)) with (2 ^ n * Q * 2 ^ a) by ring.
    exact HQq. }
  assert (Hm1 : m1 <= 2 ^ (- E)).
  { destruct (Z.eq_dec Q (2 ^ (- E))) as [HQeq|HQne]; [| lia].
    assert (Hqa : q * 2 ^ a = 2 ^ (b + sh)).
    { apply Z.le_antisymm; [exact Hq1 |].
      rewrite H2t, <- HQeq.
      replace (Q * (2 ^ n * 2 ^ a)) with (2 ^ n * Q * 2 ^ a) by ring.
      exact HQq. }
    assert (Hqn : q = Q * 2 ^ n).
    { apply (Z.mul_reg_r _ _ (2 ^ a)); [lia |].
      rewrite Hqa, H2t, <- HQeq. ring. }
    assert (Hr0 : r = 0).
    { assert (Hmr : Zpos my * (q * 2 ^ a) + r * 2 ^ a
                    <= Zpos my * 2 ^ (b + sh)).
      { rewrite Z.pow_add_r by lia.
        replace (Zpos my * (q * 2 ^ a) + r * 2 ^ a)
          with ((Zpos my * q + r) * 2 ^ a) by ring.
        rewrite <- Hdm, Hm'.
        replace (Zpos mx * 2 ^ sh * 2 ^ a)
          with (Zpos mx * 2 ^ a * 2 ^ sh) by ring.
        replace (Zpos my * (2 ^ b * 2 ^ sh))
          with (Zpos my * 2 ^ b * 2 ^ sh) by ring.
        apply Z.mul_le_mono_nonneg_r; lia. }
      rewrite Hqa in Hmr.
      destruct (Z.eq_dec r 0) as [Hr0|Hr0]; [exact Hr0 |].
      assert (0 < r * 2 ^ a) by (apply Z.mul_pos_pos; lia). lia. }
    rewrite Hex; [lia | | ].
    - rewrite Hr0. apply new_location_exact.
    - rewrite Hqn. apply Z.mod_mul. lia. }
  destruct Hres as [[Hz ->]|(m2 & e2 & He2 & Hm2 & Hc & ->)].
  { split; [done |]. split; [done |]. simpl. lia. }
  assert (HV : Zpos m2 * 2 ^ (e2 - emin) <= 2 ^ (- emin)).
  { assert (Zpos m2 * 2 ^ (e2 - emin) = m1 * 2 ^ (E - emin)).
    { rewrite <- Hm2, <- Z.mul_assoc, <- Z.pow_add_r by lia.
      f_equal. f_equal. lia. }
    assert (HT : 2 ^ (- emin) = 2 ^ (- E) * 2 ^ (E - emin)).
    { rewrite <- Z.pow_add_r by lia. f_equal. lia. }
    pose proof (pow2_pos (E - emin) ltac:(lia)).
    rewrite H, HT. apply Z.mul_le_mono_nonneg_r; lia. }
  assert (He20 : e2 <= 0).
  { pose proof (pow2_pos (e2 - emin) ltac:(lia)).
    assert (2 ^ (e2 - emin) <= 2 ^ (- emin)) by nia.
    apply Z.pow_le_mono_r_iff in H0; lia. }
  assert (Hleb : (e2 <=? emax - prec) = true) by (apply Z.leb_le; lia).
  rewrite Hleb. split.
  { simpl. unfold bounded. by rewrite Hc, Hleb. }
  split; [done |].
  pose proof (pow2_pos (e2 - emin) ltac:(lia)).
  cbn [float_ord]. destruct (xorb sx sy); cbn [cond_Zopp]; nia.
Qed.
(** *** Comparisons as comparisons of ranks *)

Lemma SFltb_ord (x y : spec_float) :
  valid x = true -> valid y = true ->
  x <> S754_nan -> y <> S754_nan ->
  SFltb x y = (ord x <? ord y).
Proof.
  intros Hx Hy Nx Ny. unfold SFltb, Z.ltb.
  by rewrite (SFcompare_ord x y Hx Hy Nx Ny).
Qed.

Lemma SFleb_ord (x y : spec_float) :
  valid x = true -> valid y = true ->
  x <> S754_nan -> y <> S754_nan ->
  SFleb x y = (ord x <=? ord y).
Proof.
  intros Hx Hy Nx Ny. unfold SFleb, Z.leb.
  by rewrite (SFcompare_ord x y Hx Hy Nx Ny).
Qed.

Lemma SFeqb_ord (x y : spec_float) :
  valid x = true -> valid y = true ->
  x <> S754_nan -> y <> S754_nan ->
  SFeqb x y = (ord x =? ord y).
Proof.
  intros Hx Hy Nx Ny. unfold SFeqb.
  rewrite (SFcompare_ord x y Hx Hy Nx Ny).
  destruct (Z.compare_spec (ord x) (ord y));
    destruct (Z.eqb_spec (ord x) (ord y)); try reflexivity; lia.
Qed.

Lemma ord_finite_bound (x : spec_float) :
  valid x = true -> is_finite x = true ->
  - 2 ^ (emax - emin) < ord x < 2 ^ (emax - emin).
Proof.
  intros Hv Hf.
  assert (INF : 0 < 2 ^ (emax - emin))
    by (apply pow2_pos; unfold SpecFloat.emin; lia).
  destruct x as [s|s| |s m e]; try discriminate Hf; cbn [float_ord]; [lia |].
  pose proof (finite_below_infinity _ _ _ Hv).
  pose proof (ord_finite_pos _ _ _ Hv).
  destruct s; cbn [cond_Zopp]; lia.
Qed.

(** *** The interval [x - s, x + s] *)

(** If [x - s < x + s] then [0 < s]. *)
Lemma centered_lt_positive (x s : spec_float) :
  valid x = true -> valid s = true ->
  SFltb (SFsub prec emax x s) (SFadd prec emax x s) = true ->
  SFltb (S754_zero false) s = true.
Proof.
  intros Hx Hs Hlt.
  destruct (is_finite x && is_finite s) eqn:Hfin.
  - apply andb_true_iff in Hfin as [Fx Fs].
    destruct (SFsub_finite x s Hx Hs Fx Fs) as (Vw & Nw & Pw).
    destruct (SFadd_finite x s Hx Hs Fx Fs) as (Ve & Ne & Pe).
    rewrite SFltb_ord in Hlt by done. apply Z.ltb_lt in Hlt.
    assert (Ns : s <> S754_nan) by (by destruct s).
    rewrite SFltb_ord by done. apply Z.ltb_lt. cbn [float_ord].
    destruct (Z_lt_le_dec 0 (ord s)) as [Hpos|Hneg]; [done |].
    destruct (Pw x Hx Fx) as [Hw _]. destruct (Pe x Hx Fx) as [_ He].
    specialize (Hw ltac:(lia)). specialize (He ltac:(lia)). lia.
  - destruct x as [sx|sx| |sx mx ex], s as [ss|ss| |ss ms es];
      try discriminate Hfin; try discriminate Hlt;
      try (destruct sx, ss; discriminate Hlt);
      try (destruct ss; [discriminate Hlt | reflexivity]).
Qed.

(** If [0 < s] and [x] is finite then [x - s <= x + s]. *)
Lemma centered_positive_le (x s : spec_float) :
  valid x = true -> valid s = true -> is_finite x = true ->
  SFltb (S754_zero false) s = true ->
  SFleb (SFsub prec emax x s) (SFadd prec emax x s) = true.
Proof.
  intros Hx Hs Fx Hpos.
  destruct (is_finite s) eqn:Fs.
  - destruct (SFsub_finite x s Hx Hs Fx Fs) as (Vw & Nw & Pw).
    destruct (SFadd_finite x s Hx Hs Fx Fs) as (Ve & Ne & Pe).
    assert (Ns : s <> S754_nan) by (by destruct s).
    rewrite SFltb_ord in Hpos by done. apply Z.ltb_lt in Hpos.
    cbn [float_ord] in Hpos.
    rewrite SFleb_ord by done. apply Z.leb_le.
    destruct (Pw x Hx Fx) as [_ Hw]. destruct (Pe x Hx Fx) as [He _].
    specialize (Hw ltac:(lia)). specialize (He ltac:(lia)). lia.
  - destruct x as [sx|sx| |sx mx ex]; try discriminate Fx;
    destruct s as [ss|ss| |ss ms es]; try discriminate Fs;
      try discriminate Hpos; destruct ss; try discriminate Hpos;
      reflexivity.
Qed.

(** *** The quotient [(u - v) / (u + v)] of two finite floats [>= 0] *)

Lemma quotient_range (u v : spec_float) :
  valid u = true -> valid v = true ->
  is_finite u = true -> is_finite v = true ->
  0 <= ord u -> 0 <= ord v ->
  SFeqb (SFadd prec emax u v) (S754_zero false) = false ->
  valid (SFdiv prec emax (SFsub prec emax u v) (SFadd prec emax u v)) = true /\
  SFdiv prec emax (SFsub prec emax u v) (SFadd prec emax u v) <> S754_nan /\
  - 2 ^ (- emin)
    <= ord (SFdiv prec emax (SFsub prec emax u v) (SFadd prec emax u v))
    <= 2 ^ (- emin).
Proof.
  intros Hu Hv Fu Fv Pu Pv Hnz.
  pose proof emin_nonpos as Hemin.
  assert (Hone : 0 < 2 ^ (- emin)) by (apply pow2_pos; lia).
  destruct (SFsub_finite u v Hu Hv Fu Fv) as (Vd & Nd & Pd).
  destruct (SFadd_finite u v Hu Hv Fu Fv) as (Va & Na & Pa).
  pose proof (ord_finite_bound u Hu Fu) as Bu.
  pose proof (ord_finite_bound v Hv Fv) as Bv.
  (* u <= u + v, v <= u + v, -v <= u - v <= u *)
  destruct (Pa u Hu Fu) as [Hau _]. specialize (Hau ltac:(lia)).
  destruct (Pa v Hv Fv) as [Hav _]. specialize (Hav ltac:(lia)).
  destruct (Pd u Hu Fu) as [_ Hdu]. specialize (Hdu ltac:(lia)).
  destruct (Pd (SFopp v)) as [Hdv _];
    [by rewrite valid_opp | by rewrite is_finite_opp |].
  rewrite ord_opp in Hdv. specialize (Hdv ltac:(lia)).
  set (d := SFsub prec emax u v) in *. set (a := SFadd prec emax u v) in *.
  clearbody d a.
  destruct a as [sa|sa| |sa ma ea]; [discriminate Hnz | | done |].
  - (* the sum overflowed *)
    destruct d as [sd|sd| |sd md ed]; [| | done |].
    + split; [done |]. split; [done |]. cbn [SFdiv float_ord]. lia.
    + cbn [float_ord] in Hdu, Hdv. destruct sd; cbn [cond_Zopp] in *; lia.
    + split; [done |]. split; [done |]. cbn [SFdiv float_ord]. lia.
  - pose proof (ord_finite_pos _ _ _ Va) as Hapos.
    cbn [float_ord] in Hau, Hav.
    destruct sa; cbn [cond_Zopp] in Hau, Hav; [lia |].
    destruct d as [sd|sd| |sd md ed]; [| | done |].
    + split; [done |]. split; [done |]. cbn [SFdiv float_ord]. lia.
    + cbn [float_ord] in Hdu, Hdv. destruct sd; cbn [cond_Zopp] in *; lia.
    + apply SFdiv_le_one; [done | done |].
      pose proof (ord_finite_pos _ _ _ Vd).
      cbn [float_ord] in Hdu, Hdv. destruct sd; cbn [cond_Zopp] in *; lia.
Qed.
(** *** A quotient of two floats of one magnitude *)

Lemma SFdiv_same_magnitude (sx sy : bool) (m : positive) (e : Z) :
  valid (S754_finite sx m e) = true ->
  valid (SFdiv prec emax (S754_finite sx m e) (S754_finite sy m e)) = true /\
  SFdiv prec emax (S754_finite sx m e) (S754_finite sy m e) <> S754_nan /\
  ord (SFdiv prec emax (S754_finite sx m e) (S754_finite sy m e))
  = cond_Zopp (xorb sx sy) (2 ^ (- emin)).
Proof.
  intros Hx.
  pose proof emin_nonpos as Hemin.
  assert (Hf0 : fexp 0 <= 0) by (unfold SpecFloat.fexp; lia).
  assert (Hf1 : fexp 1 <= 0) by (unfold SpecFloat.fexp; lia).
  assert (Hf01 : fexp 0 <= fexp 1) by (apply fexp_mono; lia).
  cbn [SFdiv]. unfold SFdiv_core_binary.
  replace (Zdigits2 (Zpos m) + e - (Zdigits2 (Zpos m) + e)) with 0 by lia.
  rewrite Z.sub_diag. rewrite (Z.min_l (fexp 0) 0) by lia.
  set (sh := 0 - fexp 0). assert (Hsh : 0 <= sh) by (unfold sh; lia).
  pose proof (pow2_pos sh Hsh) as Hpsh.
  set (m' := match sh with
             | 0 => Z.pos m
             | Z.pos _ => Z.shiftl (Z.pos m) sh
             | Z.neg _ => 0
             end).
  assert (Hm' : m' = Zpos m * 2 ^ sh).
  { unfold m'. destruct sh as [|p|p] eqn:Hs; [simpl; lia | | lia].
    apply Z.shiftl_mul_pow2. lia. }
  clearbody m'.
  pose proof (Z_div_mod m' (Zpos m) ltac:(lia)) as Hdm.
  destruct (Z.div_eucl m' (Zpos m)) as [q r]. destruct Hdm as [Hdm Hr].
  assert (Hq : q = 2 ^ sh) by nia.
  assert (Hr0 : r = 0) by nia.
  subst q r. rewrite new_location_exact.
  assert (Hdq : Zdigits2 (2 ^ sh) = 1 + sh).
  { replace (2 ^ sh) with (1 * 2 ^ sh) by lia.
    rewrite Zdigits2_mul_pow2 by lia. reflexivity. }
  assert (HE : Zdigits2 (2 ^ sh) + fexp 0 = 1) by (rewrite Hdq; unfold sh; lia).
  destruct (binary_round_aux_spec (xorb sx sy) (2 ^ sh) (fexp 0) loc_Exact)
    as (m1 & _ & Hex & Hres); [lia | rewrite HE; lia |].
  rewrite HE in Hex, Hres.
  set (n := fexp 1 - fexp 0) in *.
  assert (Hn : 0 <= n <= sh) by (unfold n, sh; lia).
  pose proof (pow2_pos n ltac:(lia)) as Hpn.
  assert (Hsplit : 2 ^ sh = 2 ^ (sh - n) * 2 ^ n).
  { rewrite <- Z.pow_add_r by lia. f_equal. lia. }
  assert (Hm1 : m1 = 2 ^ (- fexp 1)).
  { rewrite Hex; [| done |].
    - rewrite Hsplit, Z.div_mul by lia. f_equal. unfold n, sh. lia.
    - rewrite Hsplit. apply Z.mod_mul. lia. }
  pose proof (pow2_pos (- fexp 1) ltac:(lia)) as HpE.
  pose proof (fexp_ge_emin 1) as HEmin.
  destruct Hres as [[Hz _]|(m2 & e2 & He2 & Hm2 & Hc & ->)]; [lia |].
  assert (HV : Zpos m2 * 2 ^ (e2 - emin) = 2 ^ (- emin)).
  { replace (2 ^ (- emin)) with (m1 * 2 ^ (fexp 1 - emin)).
    - rewrite <- Hm2, <- Z.mul_assoc, <- Z.pow_add_r by lia.
      f_equal. f_equal. lia.
    - rewrite Hm1, <- Z.pow_add_r by lia. f_equal. lia. }
  assert (He20 : e2 <= 0).
  { pose proof (pow2_pos (e2 - emin) ltac:(lia)).
    assert (2 ^ (e2 - emin) <= 2 ^ (- emin)) by nia.
    apply Z.pow_le_mono_r_iff in H0; lia. }
  assert (Hleb : (e2 <=? emax - prec) = true) by (apply Z.leb_le; lia).
  rewrite Hleb. split.
  { simpl. unfold bounded. by rewrite Hc, Hleb. }
  split; [done |]. cbn [float_ord]. by rewrite HV.
Qed.

(** *** Sums and differences that need no rounding *)

(** A sum whose exact value is the rank of a finite float has that rank. *)
Lemma SFadd_exact (x y F : spec_float) :
  valid x = true -> valid y = true -> valid F = true ->
  is_finite x = true -> is_finite y = true -> is_finite F = true ->
  ord F = ord x + ord y ->
  ord (SFadd prec emax x y) = ord F.
Proof.
  intros Hx Hy HF Fx Fy FF Heq.
  destruct (SFadd_finite x y Hx Hy Fx Fy) as (_ & _ & P).
  destruct (P F HF FF) as [Hge Hle]. lia.
Qed.

Lemma SFsub_exact (x y F : spec_float) :
  valid x = true -> valid y = true -> valid F = true ->
  is_finite x = true -> is_finite y = true -> is_finite F = true ->
  ord F = ord x - ord y ->
  ord (SFsub prec emax x y) = ord F.
Proof.
  intros Hx Hy HF Fx Fy FF Heq.
  destruct (SFsub_finite x y Hx Hy Fx Fy) as (_ & _ & P).
  destruct (P F HF FF) as [Hge Hle]. lia.
Qed.

(** An integer of at most [prec] digits is converted without rounding. *)
Lemma binary_normalize_exact (z : Z) :
  Z.abs z < 2 ^ prec ->
  valid (binary_normalize prec emax z 0 false) = true /\
  is_finite (binary_normalize prec emax z 0 false) = true /\
  ord (binary_normalize prec emax z 0 false) = z * 2 ^ (- emin).
Proof.
  intros Hz. pose proof emin_nonpos as Hemin.
  pose proof (pow2_pos (- emin) ltac:(lia)) as Hu.
  assert (Hpp : 0 < 2 ^ prec) by (apply pow2_pos; lia).
  assert (Hinf : 2 ^ prec * 2 ^ (- emin) <= 2 ^ (emax - emin)).
  { rewrite <- Z.pow_add_r by lia. apply Z.pow_le_mono_r; lia. }
  assert (Hpos : forall (s : bool) (p : positive),
            Zpos p < 2 ^ prec ->
            valid (binary_round prec emax s p 0) = true /\
            is_finite (binary_round prec emax s p 0) = true /\
            ord (binary_round prec emax s p 0)
            = cond_Zopp s (Zpos p * 2 ^ (- emin))).
  { intros s p Hp.
    destruct (binary_round_units s p 0 ltac:(lia)) as (c & Hk & Hres).
    cbn zeta in Hres. replace (0 - emin) with (- emin) in * by lia.
    set (N := Zpos p * 2 ^ (- emin)) in *.
    set (g := Z.max (Zdigits2 N - prec) 0) in *.
    assert (HdN : Zdigits2 N = Zdigits2 (Zpos p) + - emin)
      by (unfold N; apply Zdigits2_mul_pow2; lia).
    assert (Hdp : Zdigits2 (Zpos p) <= prec)
      by (apply Zdigits2_lt_pow; lia).
    assert (Hg : 0 <= g <= - emin) by (unfold g; lia).
    pose proof (pow2_pos g ltac:(lia)) as Hpg.
    assert (HNsplit : N = Zpos p * 2 ^ (- emin - g) * 2 ^ g).
    { unfold N. rewrite <- Z.mul_assoc, <- Z.pow_add_r by lia.
      f_equal. f_equal. lia. }
    destruct Hk as (Hc & _ & Hex). fold g in Hex.
    assert (HV : c * 2 ^ g = N).
    { rewrite Hex.
      - rewrite HNsplit at 1. rewrite Z.div_mul by lia. lia.
      - rewrite HNsplit. apply Z.mod_mul. lia. }
    rewrite HV in Hres.
    destruct Hres as [(_ & m2 & e2 & -> & Hv & Hord)|(Hov & _)].
    - split; [done |]. split; [done |]. cbn [float_ord]. by rewrite Hord.
    - unfold N in Hov. nia. }
  destruct z as [|p|p]; cbn [binary_normalize].
  - split; [done |]. split; [done |]. simpl. lia.
  - destruct (Hpos false p ltac:(lia)) as (Hv & Hf & Ho).
    split; [done |]. split; [done |]. rewrite Ho. reflexivity.
  - destruct (Hpos true p ltac:(lia)) as (Hv & Hf & Ho).
    split; [done |]. split; [done |]. rewrite Ho. cbn [cond_Zopp]. lia.
Qed.
(** Two valid floats of one rank are the same float, or are both zeros. *)
Lemma valid_ord_inj (x y : spec_float) :
  valid x = true -> valid y = true ->
  x <> S754_nan -> y <> S754_nan ->
  ord x = ord y -> zero_like x y.
Proof.
  intros Hx Hy Nx Ny Heq.
  pose proof (SFcompare_ord x y Hx Hy Nx Ny) as Hc.
  rewrite Heq, Z.compare_refl in Hc.
  destruct x as [sx|sx| |sx mx ex]; [| | done |];
  destruct y as [sy|sy| |sy my ey]; try done;
    try (destruct sx; discriminate Hc); try (destruct sy; discriminate Hc).
  - right. eauto.
  - left. destruct sx, sy; try discriminate Hc; reflexivity.
  - left. cbn [SFcompare] in Hc.
    assert (Hme : ex = ey /\ mx = my).
    { destruct sx, sy; try discriminate Hc;
        destruct (Z.compare_spec ex ey) as [->|?|?]; try discriminate Hc;
        (split; [reflexivity |]); apply Pos.compare_eq;
        change (mx ?= my)%positive with (Pos.compare_cont Eq mx my);
        destruct (Pos.compare_cont Eq mx my); try discriminate Hc;
        reflexivity. }
    destruct Hme as [-> ->].
    destruct sx, sy; try discriminate Hc; try reflexivity;
      rewrite Z.compare_refl in Hc; discriminate Hc.
Qed.

(** [x - x] is [+0] for every finite [x]. *)
Lemma SFsub_diag (x : spec_float) :
  is_finite x = true -> SFsub prec emax x x = S754_zero false.
Proof.
  intros Fx. destruct x as [s|s| |s m e]; try discriminate Fx.
  - by destruct s.
  - cbn [SFsub]. by rewrite Z.sub_diag.
Qed.
(** *** The error of one rounding *)

(** Keeping the first [prec] digits of [N] moves it by less than one part
    in [2 ^ (prec - 1)]. *)
Lemma kept_error (N c : Z) :
  0 < N -> kept prec N c ->
  Z.abs (c * 2 ^ Z.max (Zdigits2 N - prec) 0 - N) * 2 ^ (prec - 1) <= N.
Proof.
  intros HN (Hc & Hb & Hex).
  set (g := Z.max (Zdigits2 N - prec) 0) in *.
  assert (Hg : 0 <= g) by (unfold g; lia).
  pose proof (pow2_pos g Hg) as Hpg.
  pose proof (pow2_pos (prec - 1) ltac:(lia)) as Hpp.
  pose proof (Z.div_mod N (2 ^ g) ltac:(lia)) as Hdm.
  pose proof (Z.mod_pos_bound N (2 ^ g) Hpg) as Hmb.
  destruct (Z.eq_dec g 0) as [Hg0|Hg0].
  - rewrite Hg0 in *. change (2 ^ 0) with 1 in *.
    rewrite Z.mod_1_r in Hex. rewrite Z.div_1_r in Hex, Hb.
    rewrite (Hex eq_refl). replace (N * 1 - N) with 0 by lia. simpl. lia.
  - assert (HgN : g = Zdigits2 N - prec) by (unfold g in *; lia).
    pose proof (Zdigits2_bounds N HN) as [BN _].
    assert (H2 : 2 ^ (Zdigits2 N - 1) = 2 ^ g * 2 ^ (prec - 1)).
    { rewrite <- Z.pow_add_r by lia. f_equal. lia. }
    assert (Hab : Z.abs (c * 2 ^ g - N) <= 2 ^ g).
    { destruct (Z.eq_dec (N mod 2 ^ g) 0) as [Hm|Hm].
      - rewrite (Hex Hm). apply Z.abs_le. nia.
      - apply Z.abs_le. nia. }
    nia.
Qed.

Lemma binary_round_error (s : bool) (p : positive) (e : Z) :
  emin <= e -> is_finite (binary_round prec emax s p e) = true ->
  exists V,
    ord (binary_round prec emax s p e) = cond_Zopp s V /\
    Z.abs (V - Zpos p * 2 ^ (e - emin)) * 2 ^ (prec - 1)
    <= Zpos p * 2 ^ (e - emin).
Proof.
  intros He Hf.
  pose proof (pow2_pos (e - emin) ltac:(lia)) as Hpe.
  destruct (binary_round_units s p e He) as (c & Hk & Hres).
  cbn zeta in Hres.
  destruct Hres as [(_ & m2 & e2 & Hr & _ & HV)|(_ & Hr)].
  - exists (c * 2 ^ Z.max (Zdigits2 (Zpos p * 2 ^ (e - emin)) - prec) 0).
    split.
    + rewrite Hr. cbn [float_ord]. by rewrite HV.
    + apply kept_error; [nia | done].
  - rewrite Hr in Hf. discriminate Hf.
Qed.

Lemma binary_normalize_error (M e : Z) :
  emin <= e -> is_finite (binary_normalize prec emax M e false) = true ->
  Z.abs (ord (binary_normalize prec emax M e false) - M * 2 ^ (e - emin))
    * 2 ^ (prec - 1)
  <= Z.abs (M * 2 ^ (e - emin)).
Proof.
  intros He Hf.
  pose proof (pow2_pos (e - emin) ltac:(lia)) as Hpe.
  destruct M as [|p|p]; cbn [binary_normalize] in *.
  - simpl. lia.
  - destruct (binary_round_error false p e He Hf) as (V & -> & HV).
    cbn [cond_Zopp]. rewrite (Z.abs_eq (Zpos p * _)) by nia. exact HV.
  - destruct (binary_round_error true p e He Hf) as (V & -> & HV).
    cbn [cond_Zopp].
    replace (- V - Z.neg p * 2 ^ (e - emin))
      with (- (V - Zpos p * 2 ^ (e - emin))) by lia.
    rewrite Z.abs_opp.
    replace (Z.neg p * 2 ^ (e - emin))
      with (- (Zpos p * 2 ^ (e - emin))) by lia.
    rewrite Z.abs_opp, (Z.abs_eq (Zpos p * _)) by nia. exact HV.
Qed.

Lemma SFadd_error (x y : spec_float) :
  valid x = true -> valid y = true ->
  is_finite x = true -> is_finite y = true ->
  is_finite (SFadd prec emax x y) = true ->
  Z.abs (ord (SFadd prec emax x y) - (ord x + ord y)) * 2 ^ (prec - 1)
  <= Z.abs (ord x + ord y).
Proof.
  intros Hx Hy Fx Fy Fs.
  pose proof (pow2_pos (prec - 1) ltac:(lia)) as Hpp.
  destruct x as [sx|sx| |sx mx ex]; try discriminate Fx;
  destruct y as [sy|sy| |sy my ey]; try discriminate Fy.
  - replace (ord (SFadd prec emax (S754_zero sx) (S754_zero sy))) with 0
      by (by destruct sx, sy).
    simpl. lia.
  - cbn [SFadd float_ord].
    replace (_ - (0 + _)) with 0 by lia. simpl. lia.
  - cbn [SFadd float_ord].
    replace (_ - (_ + 0)) with 0 by lia. simpl. lia.
  - pose proof (valid_finite _ _ _ Hx) as ([? ?] & _).
    pose proof (valid_finite _ _ _ Hy) as ([? ?] & _).
    cbn [SFadd] in *.
    set (ez := Z.min ex ey) in *.
    assert (Hez : emin <= ez) by (unfold ez; lia).
    pose proof (binary_normalize_error _ ez Hez Fs) as Herr.
    rewrite Z.mul_add_distr_r in Herr.
    rewrite !aligned_mantissa in Herr by (unfold ez; lia).
    exact Herr.
Qed.

Lemma SFsub_error (x y : spec_float) :
  valid x = true -> valid y = true ->
  is_finite x = true -> is_finite y = true ->
  is_finite (SFsub prec emax x y) = true ->
  Z.abs (ord (SFsub prec emax x y) - (ord x - ord y)) * 2 ^ (prec - 1)
  <= Z.abs (ord x - ord y).
Proof.
  intros Hx Hy Fx Fy Fs.
  pose proof (pow2_pos (prec - 1) ltac:(lia)) as Hpp.
  destruct x as [sx|sx| |sx mx ex]; try discriminate Fx;
  destruct y as [sy|sy| |sy my ey]; try discriminate Fy.
  - replace (ord (SFsub prec emax (S754_zero sx) (S754_zero sy))) with 0
      by (by destruct sx, sy).
    simpl. lia.
  - cbn [SFsub float_ord].
    replace (cond_Zopp (negb sy) (Zpos my * 2 ^ (ey - emin))
             - (0 - cond_Zopp sy (Zpos my * 2 ^ (ey - emin)))) with 0
      by (destruct sy; cbn [negb cond_Zopp]; lia).
    simpl. lia.
  - cbn [SFsub float_ord].
    replace (_ - (_ - 0)) with 0 by lia. simpl. lia.
  - pose proof (valid_finite _ _ _ Hx) as ([? ?] & _).
    pose proof (valid_finite _ _ _ Hy) as ([? ?] & _).
    cbn [SFsub] in *.
    set (ez := Z.min ex ey) in *.
    assert (Hez : emin <= ez) by (unfold ez; lia).
    pose proof (binary_normalize_error _ ez Hez Fs) as Herr.
    rewrite Z.mul_sub_distr_r in Herr.
    rewrite !aligned_mantissa in Herr by (unfold ez; lia).
    exact Herr.
Qed.

Lemma cond_Zopp_abs (s : bool) (z : Z) : Z.abs (cond_Zopp s z) = Z.abs z.
Proof. destruct s; cbn [cond_Zopp]; [apply Z.abs_opp | done]. Qed.

(** The quotient of two finite floats, when it does not overflow, is within
    one part in [2 ^ (prec - 1)] of the exact quotient, or within one unit
    of the smallest positive float. *)
Lemma SFdiv_error (sx sy : bool) (mx my : positive) (ex ey : Z) :
  valid (S754_finite sx mx ex) = true ->
  valid (S754_finite sy my ey) = true ->
  is_finite (SFdiv prec emax (S754_finite sx mx ex) (S754_finite sy my ey))
    = true ->
  Z.abs (ord (SFdiv prec emax (S754_finite sx mx ex) (S754_finite sy my ey))
           * ord (S754_finite sy my ey)
         - ord (S754_finite sx mx ex) * 2 ^ (- emin))
    * 2 ^ (prec - 1)
  <= Z.abs (ord (S754_finite sx mx ex)) * 2 ^ (- emin)
     + 2 ^ (prec - 1) * Z.abs (ord (S754_finite sy my ey)).
Proof.
  intros Hx Hy Hfin.
  pose proof (valid_finite _ _ _ Hx) as ([Hex1 Hex2] & Hdx & _).
  pose proof (valid_finite _ _ _ Hy) as ([Hey1 Hey2] & Hdy & _).
  pose proof emin_nonpos as Hemin.
  set (a := ex - emin) in *. set (b := ey - emin) in *.
  assert (Ha : 0 <= a) by (unfold a; lia).
  assert (Hb : 0 <= b) by (unfold b; lia).
  pose proof (pow2_pos a Ha) as Hpa. pose proof (pow2_pos b Hb) as Hpb.
  pose proof (pow2_pos (- emin) ltac:(lia)) as Hone.
  pose proof (pow2_pos (prec - 1) ltac:(lia)) as Hpp.
  revert Hfin. cbn [SFdiv]. unfold SFdiv_core_binary.
  set (d1 := Zdigits2 (Zpos mx)). set (d2 := Zdigits2 (Zpos my)).
  set (D := d1 + ex - (d2 + ey)).
  set (e' := Z.min (fexp D) (ex - ey)).
  set (sh := ex - ey - e').
  assert (Hsh : 0 <= sh) by (unfold sh, e'; lia).
  pose proof (pow2_pos sh Hsh) as Hpsh.
  set (K := e' - emin + b).
  assert (HK : 0 <= K).
  { pose proof (fexp_ge_emin D). unfold K, e', b. lia. }
  pose proof (pow2_pos K HK) as HpK.
  set (m' := match sh with
             | 0 => Z.pos mx
             | Z.pos _ => Z.shiftl (Z.pos mx) sh
             | Z.neg _ => 0
             end).
  assert (Hm' : m' = Zpos mx * 2 ^ sh).
  { unfold m'. destruct sh as [|p|p] eqn:Hs; [simpl; lia | | lia].
    apply Z.shiftl_mul_pow2. lia. }
  clearbody m'.
  pose proof (Z_div_mod m' (Zpos my) ltac:(lia)) as Hdm.
  destruct (Z.div_eucl m' (Zpos my)) as [q r]. destruct Hdm as [Hdm Hr].
  assert (Hq0 : 0 <= q) by nia.
  pose proof (Zdigits2_bounds (Zpos mx) ltac:(lia)) as [Bx1 Bx2].
  pose proof (Zdigits2_bounds (Zpos my) ltac:(lia)) as [By1 By2].
  fold d1 in Bx1, Bx2, Hdx. fold d2 in By1, By2, Hdy.
  assert (Hd1 : 0 < d1) by (apply Zdigits2_pos; lia).
  assert (Hd2 : 0 < d2) by (apply Zdigits2_pos; lia).
  (* the input of the rounding is aligned *)
  assert (Hal : e' <= fexp (Zdigits2 q + e')).
  { destruct (Z_le_gt_dec e' emin) as [Hlo|Hhi].
    - pose proof (fexp_ge_emin (Zdigits2 q + e')). lia.
    - assert (HfD : e' <= D - prec).
      { unfold e' in *. destruct (fexp_cases D) as [[Hf ?]|[Hf ?]]; lia. }
      assert (Hs2 : d2 - d1 + prec <= sh) by (unfold sh, D in *; lia).
      assert (Hlow : 2 ^ (prec - 1) * Zpos my <= m').
      { rewrite Hm'.
        assert (2 ^ (prec - 1) * 2 ^ d2 <= 2 ^ (d1 - 1) * 2 ^ sh).
        { rewrite <- !Z.pow_add_r by lia. apply Z.pow_le_mono_r; lia. }
        nia. }
      assert (Hqp : 2 ^ (prec - 1) <= q).
      { destruct (Z_le_gt_dec (2 ^ (prec - 1)) q); [done | nia]. }
      pose proof (Zdigits2_ge_pow q (prec - 1) ltac:(lia) Hqp).
      pose proof (fexp_ge_sub (Zdigits2 q + e')). lia. }
  destruct (binary_round_aux_spec (xorb sx sy) q e' (new_location (Zpos my) r)
              Hq0 Hal) as (m1 & Hb1 & _ & Hres).
  set (E := fexp (Zdigits2 q + e')) in *.
  set (n := E - e') in *.
  assert (Hn : 0 <= n) by (unfold n; lia).
  pose proof (pow2_pos n Hn) as Hpn.
  assert (HEmin : emin <= E) by apply fexp_ge_emin.
  pose proof (pow2_pos (E - emin) ltac:(lia)) as HpE.
  (* the exact quotient lies between the two candidates *)
  pose proof (Z.div_mod q (2 ^ n) ltac:(lia)) as Hqdm.
  pose proof (Z.mod_pos_bound q (2 ^ n) Hpn) as Hqmb.
  set (Q0 := q / 2 ^ n) in *.
  assert (Hcore : Z.abs (m1 * 2 ^ n * Zpos my - m') <= 2 ^ n * Zpos my).
  { apply Z.abs_le. clear - Hb1 Hqdm Hqmb Hdm Hr Hpn.
    set (W := 2 ^ n) in *. set (R := q mod W) in *. clearbody W R Q0.
    assert (Hm : m' = Zpos my * (W * Q0) + (Zpos my * R + r)) by (rewrite Hdm, Hqdm; ring).
    assert (HR : 0 <= Zpos my * R <= Zpos my * (W - 1))
      by (split; [apply Z.mul_nonneg_nonneg | apply Z.mul_le_mono_nonneg_l];
          lia).
    replace (Zpos my * (W - 1)) with (W * Zpos my - Zpos my) in HR by ring.
    assert (Hc : m1 = Q0 \/ m1 = Q0 + 1) by lia.
    destruct Hc as [-> | ->].
    - replace (Q0 * W * Zpos my) with (Zpos my * (W * Q0)) by ring. lia.
    - replace ((Q0 + 1) * W * Zpos my)
        with (Zpos my * (W * Q0) + W * Zpos my) by ring.
      lia. }
  (* both sides in units of [2 ^ K] *)
  assert (Hunits : 2 ^ (E - emin) * 2 ^ b = 2 ^ n * 2 ^ K).
  { rewrite <- !Z.pow_add_r by lia. f_equal. unfold n, K. lia. }
  assert (HXS : m1 * 2 ^ (E - emin) * (Zpos my * 2 ^ b)
                = m1 * 2 ^ n * Zpos my * 2 ^ K).
  { replace (m1 * 2 ^ (E - emin) * (Zpos my * 2 ^ b))
      with (m1 * Zpos my * (2 ^ (E - emin) * 2 ^ b)) by ring.
    rewrite Hunits. ring. }
  assert (HDT : Zpos mx * 2 ^ a * 2 ^ (- emin) = m' * 2 ^ K).
  { rewrite Hm'. rewrite <- !Z.mul_assoc, <- !Z.pow_add_r by lia.
    f_equal. f_equal. unfold sh, K, a, b. lia. }
  assert (Hdiff : Z.abs (m1 * 2 ^ (E - emin) * (Zpos my * 2 ^ b)
                         - Zpos mx * 2 ^ a * 2 ^ (- emin))
                  <= 2 ^ (E - emin) * (Zpos my * 2 ^ b)).
  { rewrite HXS, HDT.
    replace (m1 * 2 ^ n * Zpos my * 2 ^ K - m' * 2 ^ K)
      with ((m1 * 2 ^ n * Zpos my - m') * 2 ^ K) by lia.
    rewrite Z.abs_mul, (Z.abs_eq (2 ^ K)) by lia.
    replace (2 ^ (E - emin) * (Zpos my * 2 ^ b))
      with (Zpos my * (2 ^ (E - emin) * 2 ^ b)) by ring.
    rewrite Hunits.
    replace (Zpos my * (2 ^ n * 2 ^ K)) with (2 ^ n * Zpos my * 2 ^ K) by ring.
    apply Z.mul_le_mono_nonneg_r; [lia | exact Hcore]. }
  (* one part in [2 ^ (prec - 1)], or one unit *)
  assert (Hbound : 2 ^ (E - emin) * (Zpos my * 2 ^ b) * 2 ^ (prec - 1)
                   <= Zpos mx * 2 ^ a * 2 ^ (- emin)
                      + 2 ^ (prec - 1) * (Zpos my * 2 ^ b)).
  { assert (HDpos : 0 <= Zpos mx * 2 ^ a * 2 ^ (- emin))
      by (repeat apply Z.mul_nonneg_nonneg; lia).
    destruct (fexp_cases (Zdigits2 q + e')) as [[Hf _]|[Hf Hgt]];
      fold E in Hf.
    - rewrite Hf, Z.sub_diag. change (2 ^ 0) with 1.
      rewrite Z.mul_1_l, (Z.mul_comm _ (2 ^ (prec - 1))). lia.
    - assert (Hqpos : 0 < q).
      { destruct (Z.eq_dec q 0) as [Hq|Hq]; [| lia].
        rewrite Hq in Hf. simpl in Hf. lia. }
      pose proof (Zdigits2_bounds q Hqpos) as [Bq _].
      pose proof (Zdigits2_pos q Hqpos) as Hdq.
      assert (Hq2 : 2 ^ (E - emin) * 2 ^ b * 2 ^ (prec - 1)
                    = 2 ^ (Zdigits2 q - 1) * 2 ^ K).
      { rewrite <- !Z.pow_add_r by lia. f_equal. unfold K. lia. }
      rewrite HDT.
      assert (Hmq : Zpos my * q <= m') by lia.
      replace (2 ^ (E - emin) * (Zpos my * 2 ^ b) * 2 ^ (prec - 1))
        with (Zpos my * (2 ^ (E - emin) * 2 ^ b * 2 ^ (prec - 1))) by ring.
      rewrite Hq2.
      assert (0 <= 2 ^ (prec - 1) * (Zpos my * 2 ^ b))
        by (repeat apply Z.mul_nonneg_nonneg; lia).
      assert (Zpos my * (2 ^ (Zdigits2 q - 1) * 2 ^ K) <= m' * 2 ^ K);
        [| lia].
      replace (Zpos my * (2 ^ (Zdigits2 q - 1) * 2 ^ K))
        with (Zpos my * 2 ^ (Zdigits2 q - 1) * 2 ^ K) by ring.
      apply Z.mul_le_mono_nonneg_r; [lia |].
      etransitivity; [| exact Hmq].
      apply Z.mul_le_mono_nonneg_l; lia. }
  (* the result *)
  assert (Hord : forall res,
            ord res = cond_Zopp (xorb sx sy) (m1 * 2 ^ (E - emin)) ->
            Z.abs (ord res * ord (S754_finite sy my ey)
                   - ord (S754_finite sx mx ex) * 2 ^ (- emin))
              * 2 ^ (prec - 1)
            <= Z.abs (ord (S754_finite sx mx ex)) * 2 ^ (- emin)
               + 2 ^ (prec - 1) * Z.abs (ord (S754_finite sy my ey))).
  { intros res ->. cbn [float_ord]. fold a b.
    replace (cond_Zopp (xorb sx sy) (m1 * 2 ^ (E - emin))
             * cond_Zopp sy (Zpos my * 2 ^ b)
             - cond_Zopp sx (Zpos mx * 2 ^ a) * 2 ^ (- emin))
      with (cond_Zopp sx (m1 * 2 ^ (E - emin) * (Zpos my * 2 ^ b)
                          - Zpos mx * 2 ^ a * 2 ^ (- emin)))
      by (destruct sx, sy; cbn [xorb cond_Zopp]; lia).
    rewrite !cond_Zopp_abs.
    rewrite (Z.abs_eq (Zpos mx * 2 ^ a)), (Z.abs_eq (Zpos my * 2 ^ b))
      by (apply Z.mul_nonneg_nonneg; lia).
    etransitivity; [| exact Hbound].
    apply Z.mul_le_mono_nonneg_r; [lia | exact Hdiff]. }
  destruct Hres as [[Hz ->]|(m2 & e2 & He2 & Hm2 & Hc & ->)].
  - intros _. apply Hord. rewrite Hz. cbn [float_ord].
    by destruct (xorb sx sy).
  - destruct (Z.leb_spec e2 (emax - prec)) as [Hle|Hgt]; [| discriminate].
    intros _. apply Hord. cbn [float_ord]. f_equal.
    rewrite <- Hm2, <- Z.mul_assoc, <- Z.pow_add_r by lia.
    f_equal. f_equal. lia.
Qed.

(** *** The error of the quotient [(u - v) / (u + v)] *)

(** The arithmetic of three roundings in a row: [ed], [es] and [eq] are the
    errors of the difference, the sum and the quotient. *)
Lemma tolerance_arith (a b d s ed es eq E T P G : Z) :
  0 <= a -> 0 < b -> 0 <= d -> 0 < s -> 0 <= ed -> 0 <= es -> 0 <= eq ->
  0 <= E -> 0 < T -> P = 4 * G -> 2 <= G ->
  d <= a + ed -> b <= s + es ->
  P * ed <= a -> P * es <= b -> P * eq <= d * T + P * s ->
  s * E <= b * eq + T * (b * ed + a * es) ->
  G * E <= a * T + 2 * G * b.
Proof.
  intros Ha Hb Hd Hs Hed Hes Heq HE HT HP HG Hda Hbs H1 H2 H3 H4.
  assert (HPpos : 0 < P) by lia.
  (* (ii): P s E <= b d T + P b s + 2 T a b *)
  assert (S1 : b * (P * eq) <= b * (d * T + P * s))
    by (apply Z.mul_le_mono_nonneg_l; lia).
  assert (Htb : 0 <= T * b) by (apply Z.mul_nonneg_nonneg; lia).
  assert (Hta : 0 <= T * a) by (apply Z.mul_nonneg_nonneg; lia).
  assert (S2 : T * b * (P * ed) <= T * b * a)
    by (apply Z.mul_le_mono_nonneg_l; assumption).
  assert (S3 : T * a * (P * es) <= T * a * b)
    by (apply Z.mul_le_mono_nonneg_l; assumption).
  assert (S4 : P * (s * E) <= P * (b * eq + T * (b * ed + a * es)))
    by (apply Z.mul_le_mono_nonneg_l; lia).
  assert (Hii : P * (s * E) <= b * d * T + P * b * s + 2 * (T * a * b)).
  { etransitivity; [exact S4 |].
    replace (P * (b * eq + T * (b * ed + a * es)))
      with (b * (P * eq) + T * b * (P * ed) + T * a * (P * es)) by ring.
    replace (b * d * T + P * b * s + 2 * (T * a * b))
      with (b * (d * T + P * s) + T * b * a + T * a * b) by ring.
    lia. }
  (* (iii): P P s E <= (3 P + 1) T a b + P P b s *)
  assert (S5 : P * d <= (P + 1) * a).
  { assert (P * d <= P * (a + ed)) by (apply Z.mul_le_mono_nonneg_l; lia).
    replace (P * (a + ed)) with (P * a + P * ed) in H by ring.
    replace ((P + 1) * a) with (P * a + a) by ring. lia. }
  assert (S6 : T * b * (P * d) <= T * b * ((P + 1) * a))
    by (apply Z.mul_le_mono_nonneg_l; assumption).
  assert (S7 : P * (P * (s * E))
               <= P * (b * d * T + P * b * s + 2 * (T * a * b)))
    by (apply Z.mul_le_mono_nonneg_l; lia).
  assert (Hiii : P * (P * (s * E))
                 <= (3 * P + 1) * (T * a * b) + P * (P * (b * s))).
  { etransitivity; [exact S7 |].
    replace (P * (b * d * T + P * b * s + 2 * (T * a * b)))
      with (T * b * (P * d) + P * (P * (b * s)) + 2 * P * (T * a * b))
      by ring.
    replace ((3 * P + 1) * (T * a * b) + P * (P * (b * s)))
      with (T * b * ((P + 1) * a) + P * (P * (b * s)) + 2 * P * (T * a * b))
      by ring.
    lia. }
  (* the denominator: G (3 P + 1) b <= P P s *)
  assert (S8 : (P - 1) * b <= P * s).
  { assert (P * b <= P * (s + es)) by (apply Z.mul_le_mono_nonneg_l; lia).
    replace (P * (s + es)) with (P * s + P * es) in H by ring.
    replace ((P - 1) * b) with (P * b - b) by ring. lia. }
  assert (S9 : G * (3 * P + 1) * b <= P * (P * s)).
  { assert (Hc : G * (3 * P + 1) <= P * (P - 1)).
    { subst P.
      replace (4 * G * (4 * G - 1) ) with (G * (3 * (4 * G) + 1) + G * (4 * G - 5))
        by ring.
      assert (0 <= G * (4 * G - 5)) by (apply Z.mul_nonneg_nonneg; lia).
      lia. }
    assert (P * ((P - 1) * b) <= P * (P * s))
      by (apply Z.mul_le_mono_nonneg_l; lia).
    assert (G * (3 * P + 1) * b <= P * (P - 1) * b)
      by (apply Z.mul_le_mono_nonneg_r; lia).
    replace (P * ((P - 1) * b)) with (P * (P - 1) * b) in H by ring.
    lia. }
  assert (Hat : 0 <= a * T) by (apply Z.mul_nonneg_nonneg; lia).
  assert (S10 : G * (3 * P + 1) * b * (a * T) <= P * (P * s) * (a * T))
    by (apply Z.mul_le_mono_nonneg_r; assumption).
  assert (S11 : G * (P * (P * (s * E)))
                <= G * ((3 * P + 1) * (T * a * b) + P * (P * (b * s))))
    by (apply Z.mul_le_mono_nonneg_l; lia).
  assert (HPPs : 0 < P * (P * s)).
  { apply Z.mul_pos_pos; [lia |]. apply Z.mul_pos_pos; lia. }
  apply (Z.mul_le_mono_pos_l _ _ (P * (P * s))); [exact HPPs |].
  replace (P * (P * s) * (G * E)) with (G * (P * (P * (s * E)))) by ring.
  etransitivity; [exact S11 |].
  replace (G * ((3 * P + 1) * (T * a * b) + P * (P * (b * s))))
    with (G * (3 * P + 1) * b * (a * T) + G * (P * (P * s)) * b) by ring.
  replace (P * (P * s) * (a * T + 2 * G * b))
    with (P * (P * s) * (a * T) + G * (P * (P * s)) * b
          + G * (P * (P * s)) * b) by ring.
  assert (0 <= G * (P * (P * s)) * b).
  { apply Z.mul_nonneg_nonneg; [| lia]. apply Z.mul_nonneg_nonneg; lia. }
  lia.
Qed.

Lemma finite_of_ord (x : spec_float) :
  valid x = true -> x <> S754_nan ->
  - 2 ^ (emax - emin) < ord x < 2 ^ (emax - emin) ->
  is_finite x = true.
Proof.
  intros Hv Hn Hb. destruct x as [s|s| |s m e]; try done.
  cbn [float_ord] in Hb. destruct s; cbn [cond_Zopp] in Hb; lia.
Qed.

(** With no overflow in the difference, the sum and the quotient, the
    float quotient is the exact quotient of the two values within
    [2 ^ (3 - prec)] of it, plus two units of the smallest positive float
    (the inequality is cleared of its denominators). *)
Lemma quotient_error (u v : spec_float) :
  3 < prec ->
  valid u = true -> valid v = true ->
  is_finite u = true -> is_finite v = true ->
  is_finite (SFsub prec emax u v) = true ->
  is_finite (SFadd prec emax u v) = true ->
  SFeqb (SFadd prec emax u v) (S754_zero false) = false ->
  is_finite (SFdiv prec emax (SFsub prec emax u v) (SFadd prec emax u v))
    = true ->
  2 ^ (prec - 3)
    * Z.abs (ord (SFdiv prec emax (SFsub prec emax u v) (SFadd prec emax u v))
               * (ord u + ord v)
             - (ord u - ord v) * 2 ^ (- emin))
  <= Z.abs (ord u - ord v) * 2 ^ (- emin)
     + 2 * 2 ^ (prec - 3) * Z.abs (ord u + ord v).
Proof.
  intros Hp Hu Hv Fu Fv Fd Fs Hnz Fq.
  pose proof emin_nonpos as Hemin.
  pose proof (pow2_pos (- emin) ltac:(lia)) as HT.
  pose proof (pow2_pos (prec - 3) ltac:(lia)) as HG.
  assert (HP : 2 ^ (prec - 1) = 4 * 2 ^ (prec - 3)).
  { replace (prec - 1) with (2 + (prec - 3)) by lia.
    rewrite Z.pow_add_r by lia. reflexivity. }
  assert (HG2 : 2 <= 2 ^ (prec - 3)).
  { change 2 with (2 ^ 1) at 1. apply Z.pow_le_mono_r; lia. }
  pose proof (SFsub_error u v Hu Hv Fu Fv Fd) as Ed.
  pose proof (SFadd_error u v Hu Hv Fu Fv Fs) as Es.
  destruct (SFsub_finite u v Hu Hv Fu Fv) as (Vd & Nd & _).
  destruct (SFadd_finite u v Hu Hv Fu Fv) as (Vs & Ns & _).
  rewrite SFeqb_ord in Hnz by done. apply Z.eqb_neq in Hnz.
  cbn [float_ord] in Hnz.
  assert (Eq : Z.abs (ord (SFdiv prec emax (SFsub prec emax u v)
                                 (SFadd prec emax u v))
                      * ord (SFadd prec emax u v)
                      - ord (SFsub prec emax u v) * 2 ^ (- emin))
                 * 2 ^ (prec - 1)
               <= Z.abs (ord (SFsub prec emax u v)) * 2 ^ (- emin)
                  + 2 ^ (prec - 1) * Z.abs (ord (SFadd prec emax u v))).
  { revert Fq Vd Vs Hnz.
    destruct (SFadd prec emax u v) as [ss|ss| |ss ms es_];
      try discriminate Fs; [by cbn [float_ord] |].
    destruct (SFsub prec emax u v) as [sd|sd| |sd md ed_];
      try discriminate Fd.
    - intros _ _ Vs _. cbn [SFdiv float_ord].
      rewrite Z.mul_0_l. simpl Z.abs. nia.
    - intros Fq Vd Vs _. by apply SFdiv_error. }
  set (X := ord (SFdiv prec emax (SFsub prec emax u v) (SFadd prec emax u v)))
    in *.
  set (D := ord (SFsub prec emax u v)) in *.
  set (S := ord (SFadd prec emax u v)) in *.
  set (A := ord u - ord v) in *. set (B := ord u + ord v) in *.
  set (T := 2 ^ (- emin)) in *. set (P := 2 ^ (prec - 1)) in *.
  set (G := 2 ^ (prec - 3)) in *.
  clearbody X D S A B T P G.
  assert (HB : B <> 0).
  { intros ->. simpl Z.abs in Es. lia. }
  apply (tolerance_arith (Z.abs A) (Z.abs B) (Z.abs D) (Z.abs S)
           (Z.abs (D - A)) (Z.abs (S - B)) (Z.abs (X * S - D * T))
           (Z.abs (X * B - A * T)) T P G); try lia.
  rewrite <- !Z.abs_mul.
  replace (S * (X * B - A * T))
    with (B * (X * S - D * T) + T * (B * (D - A) + - (A * (S - B))))
    by ring.
  etransitivity; [apply Z.abs_triangle |].
  rewrite (Z.abs_mul T), (Z.abs_eq T) by lia.
  apply Z.add_le_mono_l. apply Z.mul_le_mono_nonneg_l; [lia |].
  etransitivity; [apply Z.abs_triangle |]. rewrite Z.abs_opp. lia.
Qed.

End Format.


(** ** C7: antisymmetry *)




(** ** C1: the origin of the cropped raster *)

(** The synthesized transform maps pixel [(0, 0)] to where the view's
    transform maps the window's offset. *)
Lemma window_transform_origin (t : affine) (w : window) :
  finite_pixel_size t = true ->
  zero_like (fst (affine_apply (window_transform t w) F64.zero F64.zero))
            (fst (affine_apply t (col_off w) (row_off w))) /\
  zero_like (snd (affine_apply (window_transform t w) F64.zero F64.zero))
            (snd (affine_apply t (col_off w) (row_off w))).
Proof.
  unfold finite_pixel_size. rewrite !andb_true_iff.
  intros [[[Ha Hb] Hd] He].
  unfold window_transform, affine_apply; simpl.
  unfold F64.add, F64.mul, F64.zero.
  split; by apply SFadd_zero_products.
Qed.

(** C1. Whenever [download_subset] writes a raster, for the view [vrt] of
    the source and the window [w] the view resolved for the bounding box,
    the written profile holds a transform whose value at pixel [(0, 0)] is
    the value of the view's transform at [(w.col_off, w.row_off)], in both
    coordinates (same float value; a zero coordinate may differ in the sign
    of zero), the pixel-size coefficients of the view being finite
    numbers. *)
Theorem C1_crop_origin (lib : library) (href save_path : string)
    (bbox : bounding_box) (path : string) (profile : gmap string pyval)
    (data : list (ndarray pixel)) :
  Call (CWrite path profile data)
    ∈ events (download_subset lib href save_path bbox) ->
  exists src vrt w t',
    rio_open lib href = Ok src /\
    warped_vrt lib src "EPSG:4326" = Ok vrt /\
    vrt_window vrt bbox = Ok w /\
    profile !! "transform" = Some (PyAffine t') /\
    (finite_pixel_size (vrt_transform vrt) = true ->
     same_value (fst (affine_apply t' F64.zero F64.zero))
                (fst (affine_apply (vrt_transform vrt) (col_off w) (row_off w)))
     = true /\
     same_value (snd (affine_apply t' F64.zero F64.zero))
                (snd (affine_apply (vrt_transform vrt) (col_off w) (row_off w)))
     = true).
Proof.
  intros H.
  apply download_subset_events in H as [H|[H|[e H]]].
  - discriminate H.
  - apply subset_body_write in H
      as (src & vrt & w & E1 & E2 & E3 & E4 & -> & ->).
    exists src, vrt, w, (window_transform (vrt_transform vrt) w).
    destruct (synthesize_profile_lookup vrt w) as (Ht & _).
    repeat (split; [done |]).
    intros Hfin.
    destruct (window_transform_origin (vrt_transform vrt) w Hfin) as [Hx Hy].
    split; by apply zero_like_same_value.
  - unfold error_lines in H. by trace_cases H.
Qed.

Lemma C1_crop_origin_witness :
  exists src vrt w t',
    rio_open (sample_library read_ok) "https://example/B04.tif" = Ok src /\
    warped_vrt (sample_library read_ok) src "EPSG:4326" = Ok vrt /\
    vrt_window vrt sample_bbox = Ok w /\
    synthesize_profile (sample_view read_ok) sample_window !! "transform"
      = Some (PyAffine t') /\
    (finite_pixel_size (vrt_transform vrt) = true ->
     same_value (fst (affine_apply t' F64.zero F64.zero))
                (fst (affine_apply (vrt_transform vrt) (col_off w) (row_off w)))
     = true /\
     same_value (snd (affine_apply t' F64.zero F64.zero))
                (snd (affine_apply (vrt_transform vrt) (col_off w) (row_off w)))
     = true).
Proof.
  apply (C1_crop_origin (sample_library read_ok)
           "https://example/B04.tif" "out_B04.tif" sample_bbox "out_B04.tif"
           _ [sample_pixels]).
  vm_compute. do 5 right. left.
Defined.

(** The sample view: pixel [(3, 4)] of a grid with origin [(100, 50)] and
    pixel size [(2, -2)] lies at [(106, 42)], and so does pixel [(0, 0)] of
    the crop. *)
Example sample_crop_origin :
  affine_apply (window_transform sample_transform sample_window)
               F64.zero F64.zero
  = (F64.of_Z 106, F64.of_Z 42).
Proof. vm_compute. reflexivity. Qed.

(** ** C4: the values of the index *)

Lemma F32_prec_gt_0 : (0 < F32.prec)%Z.
Proof. reflexivity. Qed.

Lemma F32_prec_lt_emax : (F32.prec < F32.emax)%Z.
Proof. reflexivity. Qed.

(** A quotient cell of two finite samples [>= 0] lies in [[-1, 1]]. *)
Lemma index_cell_range (u v : float32) :
  nonneg_sample u = true -> nonneg_sample v = true ->
  SFleb F32.minus_one (index_cell u v) = true /\
  SFleb (index_cell u v) F32.one = true.
Proof.
  unfold nonneg_sample, F32.valid. rewrite !andb_true_iff.
  intros [[Vu Fu] Pu] [[Vv Fv] Pv].
  assert (Nu : u <> S754_nan) by (by destruct u).
  assert (Nv : v <> S754_nan) by (by destruct v).
  rewrite (SFleb_ord F32.prec F32.emax F32_prec_gt_0 F32_prec_lt_emax)
    in Pu, Pv by done.
  apply Z.leb_le in Pu, Pv. cbn [float_ord F32.zero] in Pu, Pv.
  unfold index_cell, F32.add, F32.sub, F32.div.
  destruct (SFeqb (SFadd F32.prec F32.emax u v) F32.zero) eqn:Hz.
  - split; reflexivity.
  - destruct (quotient_range F32.prec F32.emax F32_prec_gt_0 F32_prec_lt_emax
                u v Vu Vv Fu Fv Pu Pv Hz) as (Vq & Nq & Hlo & Hhi).
    rewrite !(SFleb_ord F32.prec F32.emax F32_prec_gt_0 F32_prec_lt_emax)
      by done.
    split; apply Z.leb_le.
    + etransitivity; [| exact Hlo]. by vm_compute.
    + etransitivity; [exact Hhi |]. by vm_compute.
Qed.

(** The index of two finite samples is close to the exact quotient as long
    as nothing overflows. *)
Lemma index_cell_tolerance (u v : float32) :
  finite_sample u = true -> finite_sample v = true ->
  is_finite (F32.sub u v) = true -> is_finite (F32.add u v) = true ->
  SFeqb (F32.add u v) F32.zero = false ->
  is_finite (index_cell u v) = true ->
  within_tolerance 21 (index_cell u v) u v.
Proof.
  unfold finite_sample, F32.valid. rewrite !andb_true_iff.
  intros [Vu Fu] [Vv Fv] Fd Fs Hnz Fq.
  unfold index_cell in *. rewrite Hnz in *.
  unfold within_tolerance. cbn zeta.
  exact (quotient_error F32.prec F32.emax F32_prec_gt_0 F32_prec_lt_emax
           u v ltac:(by vm_compute) Vu Vv Fu Fv Fd Fs Hnz Fq).
Qed.

(** For finite samples [>= 0] only the sum can overflow. *)
Lemma nonneg_no_overflow (u v : float32) :
  nonneg_sample u = true -> nonneg_sample v = true ->
  finite_sample u = true /\ finite_sample v = true /\
  is_finite (F32.sub u v) = true /\
  (SFeqb (F32.add u v) F32.zero = false ->
   is_finite (index_cell u v) = true).
Proof.
  unfold nonneg_sample, finite_sample, F32.valid. rewrite !andb_true_iff.
  intros [[Vu Fu] Pu] [[Vv Fv] Pv].
  assert (Nu : u <> S754_nan) by (by destruct u).
  assert (Nv : v <> S754_nan) by (by destruct v).
  rewrite (SFleb_ord F32.prec F32.emax F32_prec_gt_0 F32_prec_lt_emax)
    in Pu, Pv by done.
  apply Z.leb_le in Pu, Pv. cbn [float_ord F32.zero] in Pu, Pv.
  split; [done |]. split; [done |]. split.
  - destruct (SFsub_finite F32.prec F32.emax F32_prec_gt_0 F32_prec_lt_emax
                u v Vu Vv Fu Fv) as (Vd & Nd & Pd).
    pose proof (ord_finite_bound F32.prec F32.emax F32_prec_gt_0 F32_prec_lt_emax
                  u Vu Fu) as Bu.
    pose proof (ord_finite_bound F32.prec F32.emax F32_prec_gt_0 F32_prec_lt_emax
                  v Vv Fv) as Bv.
    destruct (Pd u Vu Fu) as [_ Hdu]. specialize (Hdu ltac:(lia)).
    destruct (Pd (SFopp v)) as [Hdv _];
      [by rewrite valid_opp | by rewrite is_finite_opp |].
    rewrite ord_opp in Hdv. specialize (Hdv ltac:(lia)).
    unfold F32.sub.
    apply (finite_of_ord F32.prec F32.emax); [done | done | lia].
  - intros Hnz. unfold index_cell. rewrite Hnz.
    destruct (quotient_range F32.prec F32.emax F32_prec_gt_0 F32_prec_lt_emax
                u v Vu Vv Fu Fv Pu Pv Hnz) as (Vq & Nq & Hlo & Hhi).
    unfold F32.div, F32.sub, F32.add.
    apply (finite_of_ord F32.prec F32.emax); [done | done |].
    assert ((2 ^ (- emin F32.prec F32.emax)
             < 2 ^ (F32.emax - emin F32.prec F32.emax))%Z) by (by vm_compute).
    lia.
Qed.

(** C4, as stated, fails in both halves. With the finite samples
    [1.75 * 2^127] and [2^126] the float32 sum overflows to [+inf], which is
    not zero, and the output is [0.0] while the exact quotient is [5/9]: not
    even within a factor of two. With [+inf] against [+inf] the output is a
    NaN, which does not lie in [[-1, 1]]. *)
Lemma C4_counterexample :
  ~ (forall (a b out : ndarray float32) (i j : nat) (u v x : float32),
       well_shaped a -> well_shaped b -> shape a = shape b ->
       normalized_difference a b = Ok out ->
       cell a i j = Some u -> cell b i j = Some v ->
       nonneg_sample u = true -> nonneg_sample v = true ->
       SFeqb (F32.add u v) F32.zero = false ->
       cell out i j = Some x ->
       within_tolerance 1 x u v) /\
  ~ (forall (a b out : ndarray float32) (i j : nat) (u v x : float32),
       well_shaped a -> well_shaped b -> shape a = shape b ->
       normalized_difference a b = Ok out ->
       cell a i j = Some u -> cell b i j = Some v ->
       SFleb F32.zero u = true -> SFleb F32.zero v = true ->
       cell out i j = Some x ->
       SFleb F32.minus_one x = true /\ SFleb x F32.one = true).
Proof.
  split; intros H.
  - specialize (H sample_large sample_half (NdArray 1 1 [[S754_zero false]])
                  0%nat 0%nat (S754_finite false 14680064 104)
                  (S754_finite false 8388608 103) (S754_zero false)).
    assert (Hw : forall p : float32, well_shaped (NdArray 1 1 [[p]]))
      by (intros p; split; [reflexivity | repeat constructor]).
    specialize (H (Hw _) (Hw _) eq_refl eq_refl eq_refl eq_refl eq_refl
                  eq_refl eq_refl eq_refl).
    unfold within_tolerance in H. cbn zeta in H.
    apply Z.leb_le in H. vm_compute in H. discriminate H.
  - destruct (H sample_inf sample_inf (NdArray 1 1 [[S754_nan]]) 0%nat 0%nat
                (S754_infinity false) (S754_infinity false) S754_nan)
      as [Hlo _]; try reflexivity.
    + split; [reflexivity | repeat constructor].
    + split; [reflexivity | repeat constructor].
    + discriminate Hlo.
Qed.

(** C4, amended. For all band arrays [a] and [b] of one shape the index is
    computed and, at every position: where both samples are finite, the
    float32 sum is not zero and neither the float32 difference, nor the
    sum, nor the quotient overflows, the output cell is the exact quotient
    [(a - b) / (a + b)] within a relative error of [2^-21] (plus [2^-148]);
    where both samples are finite numbers [>= 0] this holds as soon as the
    float32 sum is not zero and does not overflow; and where both samples
    are finite numbers [>= 0] the output cell lies in [[-1, 1]]. *)
Theorem C4_quotient_and_range (a b : ndarray float32) :
  well_shaped a -> well_shaped b -> shape a = shape b ->
  exists out,
    normalized_difference a b = Ok out /\ shape out = shape a /\
    forall i j u v, cell a i j = Some u -> cell b i j = Some v ->
      exists x,
        cell out i j = Some x /\
        (finite_sample u = true -> finite_sample v = true ->
         is_finite (F32.sub u v) = true -> is_finite (F32.add u v) = true ->
         SFeqb (F32.add u v) F32.zero = false -> is_finite x = true ->
         within_tolerance 21 x u v) /\
        (nonneg_sample u = true -> nonneg_sample v = true ->
         is_finite (F32.add u v) = true ->
         SFeqb (F32.add u v) F32.zero = false ->
         within_tolerance 21 x u v) /\
        (nonneg_sample u = true -> nonneg_sample v = true ->
         SFleb F32.minus_one x = true /\ SFleb x F32.one = true).
Proof.
  intros Ha Hb Hs.
  destruct (normalized_difference_same_shape a b Ha Hb Hs)
    as (out & Eout & Sout & _ & Cout).
  exists out. split; [done |]. split; [done |].
  intros i j u v Hu Hv. exists (index_cell u v).
  split; [by apply Cout |]. split; [| split].
  - apply index_cell_tolerance.
  - intros Pu Pv Fs Hnz.
    destruct (nonneg_no_overflow u v Pu Pv) as (Fu & Fv & Fd & Fq).
    apply index_cell_tolerance; auto.
  - apply index_cell_range.
Qed.

Lemma C4_quotient_and_range_witness :
  exists out,
    normalized_difference sample_a sample_b = Ok out /\
    shape out = shape sample_a /\
    forall i j u v, cell sample_a i j = Some u -> cell sample_b i j = Some v ->
      exists x,
        cell out i j = Some x /\
        (finite_sample u = true -> finite_sample v = true ->
         is_finite (F32.sub u v) = true -> is_finite (F32.add u v) = true ->
         SFeqb (F32.add u v) F32.zero = false -> is_finite x = true ->
         within_tolerance 21 x u v) /\
        (nonneg_sample u = true -> nonneg_sample v = true ->
         is_finite (F32.add u v) = true ->
         SFeqb (F32.add u v) F32.zero = false ->
         within_tolerance 21 x u v) /\
        (nonneg_sample u = true -> nonneg_sample v = true ->
         SFleb F32.minus_one x = true /\ SFleb x F32.one = true).
Proof.
  apply (C4_quotient_and_range sample_a sample_b).
  - apply well_shaped_band_of_2x2.
  - apply well_shaped_band_of_2x2.
  - reflexivity.
Defined.

(** The cell [(1, 1)] of the scenario: [5] against [0] gives [1.0], which
    is the exact quotient; [0.0] would not be within the tolerance. *)
Example tolerance_at_one :
  within_tolerance 21 F32.one (F32.of_Z 5) (F32.of_Z 0) /\
  ~ within_tolerance 21 F32.zero (F32.of_Z 5) (F32.of_Z 0).
Proof.
  unfold within_tolerance. cbn zeta. split.
  - apply Z.leb_le. by vm_compute.
  - intros H. apply Z.leb_le in H. vm_compute in H. discriminate H.
Qed.

(** Integer samples of at most 64 bits are finite after the conversion;
    those that are not negative are samples to which the range applies. *)
Lemma astype_float32_nonneg (z : Z) :
  (0 <= z <= 2 ^ 64)%Z -> nonneg_sample (astype_float32 (PxInt z)) = true.
Proof.
  intros Hz. unfold nonneg_sample, astype_float32, F32.of_Z, F32.valid.
  destruct (binary_normalize_valid F32.prec F32.emax F32_prec_gt_0
              F32_prec_lt_emax z 0 ltac:(by vm_compute)) as [Hv Hn].
  pose proof (binary_normalize_ge F32.prec F32.emax F32_prec_gt_0
                F32_prec_lt_emax z 0 F32.zero ltac:(by vm_compute)
                eq_refl eq_refl) as Hge.
  pose proof (binary_normalize_le F32.prec F32.emax F32_prec_gt_0
                F32_prec_lt_emax z 0 (S754_finite false 8388608 41)
                ltac:(by vm_compute) eq_refl eq_refl) as Hle.
  cbn [float_ord F32.zero cond_Zopp] in Hge, Hle.
  change (emin F32.prec F32.emax) with (-149)%Z in Hge, Hle.
  change (0 - -149)%Z with 149%Z in Hge, Hle.
  change (41 - -149)%Z with 190%Z in Hle.
  assert (Hp : (2 ^ 64 * 2 ^ 149 = 8388608 * 2 ^ 190)%Z) by (by vm_compute).
  assert (Hq : (0 < 2 ^ 149)%Z) by (by vm_compute).
  specialize (Hge ltac:(nia)). specialize (Hle ltac:(nia)).
  rewrite Hv. simpl andb.
  rewrite (SFleb_ord F32.prec F32.emax F32_prec_gt_0 F32_prec_lt_emax)
    by done.
  cbn [float_ord F32.zero].
  apply andb_true_iff. split; [| by apply Z.leb_le].
  destruct (binary_normalize F32.prec F32.emax z 0 false) as [s|s| |s m e];
    [reflexivity | | done | reflexivity].
  cbn [float_ord] in Hge, Hle.
  assert (Hinf : (8388608 * 2 ^ 190 < 2 ^ (F32.emax - -149))%Z)
    by (by vm_compute).
  destruct s; cbn [cond_Zopp] in Hge, Hle.
  - assert ((0 < 2 ^ (F32.emax - emin F32.prec F32.emax))%Z) by (by vm_compute).
    lia.
  - change (emin F32.prec F32.emax) with (-149)%Z in Hle. lia.
Qed.

(** ** C10: the bounding box of the fetcher *)

Lemma events_bind {A B} (m : M A) (k : A -> M B) :
  events (m ≫= k)
  = events m ++ match outcome m with
                | Ok a => events (k a)
                | Raise _ => []
                end.
Proof.
  destruct m as [[a|e] es]; unfold events, outcome; cbn.
  - by destruct (k a).
  - by rewrite app_nil_r.
Qed.

Lemma Forall_events_bind {A B} (P : event -> Prop) (m : M A) (k : A -> M B) :
  Forall P (events m) ->
  (forall a, outcome m = Ok a -> Forall P (events (k a))) ->
  Forall P (events (m ≫= k)).
Proof.
  intros Hm Hk. rewrite events_bind. apply Forall_app. split; [done |].
  destruct (outcome m) as [a|e]; [by apply Hk | constructor].
Qed.

Lemma Forall_events_try {A} (P : event -> Prop) (body : M A)
    (handler : exception -> M A) :
  Forall P (events body) -> (forall e, Forall P (events (handler e))) ->
  Forall P (events (try_except body handler)).
Proof.
  intros Hb Hh. destruct body as [[a|e] es]; unfold events in *; cbn; [done |].
  specialize (Hh e). destruct (handler e) as [r es']; cbn in *.
  apply Forall_app. by split.
Qed.

Lemma Forall_events_for_each {A} (P : event -> Prop) (xs : list A)
    (body : A -> M unit) :
  (forall x, Forall P (events (body x))) ->
  Forall P (events (for_each xs body)).
Proof.
  intros Hb. induction xs as [|x xs IH]; simpl.
  - constructor.
  - apply Forall_events_bind; [apply Hb | done].
Qed.

Lemma subset_body_bbox (lib : library) (href save_path : string)
    (B : bounding_box) :
  Forall (bbox_event_ok B) (events (subset_body lib href save_path B)).
Proof.
  unfold subset_body, call, print, events.
  destruct (rio_open lib href) as [src|]; cbn; [| by repeat constructor].
  destruct (warped_vrt lib src "EPSG:4326") as [vrt|]; cbn;
    [| by repeat constructor].
  destruct (vrt_window vrt B) as [w|]; cbn; [| by repeat constructor].
  destruct (vrt_read vrt w) as [data|]; cbn; [| by repeat constructor].
  destruct (rio_write lib save_path (synthesize_profile vrt w) data) as [[]|];
    cbn; by repeat constructor.
Qed.

Lemma download_subset_bbox (lib : library) (href save_path : string)
    (B : bounding_box) :
  Forall (bbox_event_ok B) (events (download_subset lib href save_path B)).
Proof.
  unfold download_subset.
  apply Forall_events_bind; [by repeat constructor |]. intros _ _.
  apply Forall_events_try; [apply subset_body_bbox |].
  intros e. by repeat constructor.
Qed.

Lemma download_file_bbox (lib : library) (url save_path : string)
    (B : bounding_box) :
  Forall (bbox_event_ok B) (events (download_file lib url save_path)).
Proof.
  unfold download_file. apply Forall_events_try.
  - unfold call, print, events.
    destruct (http_get lib url save_path) as [[]|]; cbn;
      by repeat constructor.
  - intros e. by repeat constructor.
Qed.

Lemma asset_href_events (it : item) (key : string) :
  events (asset_href it key) = [].
Proof. unfold asset_href. by destruct (item_assets it !! key). Qed.

Lemma resolve_target_bbox (lib : library) (args : arguments)
    (B : bounding_box) :
  Forall (bbox_event_ok B) (events (resolve_target lib args)).
Proof.
  unfold resolve_target.
  destruct (truthy (arg_address args)) as [address|].
  - apply Forall_events_bind; [by repeat constructor |]. intros _ _.
    unfold get_coords_from_address, call, events.
    destruct (geocode lib address) as [[lonlat|]|]; cbn;
      by repeat constructor.
  - destruct (arg_point args); constructor.
Qed.

(** Every bounding box that [main] hands to the catalog search or to a
    window resolution is the centered square of the resolved target. *)
Lemma fetcher_main_bbox (lib : library) (args : arguments)
    (lon lat : float64) (es : list event) :
  resolve_target lib args = (Ok (lon, lat), es) ->
  Forall (bbox_event_ok (search_bbox lon lat (arg_bbox_size args)))
         (events (fetcher_main lib args)).
Proof.
  intros Hres. set (B := search_bbox lon lat (arg_bbox_size args)).
  unfold fetcher_main.
  apply Forall_events_bind; [apply resolve_target_bbox |].
  intros [lon' lat'] Hout. unfold outcome in Hout. rewrite Hres in Hout.
  injection Hout as <- <-.
  apply Forall_events_bind; [by repeat constructor |]. intros _ _.
  destruct (arg_coord_only args); [constructor |].
  apply Forall_events_bind; [by repeat constructor |]. intros items _.
  destruct items as [|best_item rest]; [by repeat constructor |].
  apply Forall_events_bind; [by repeat constructor |]. intros _ _.
  apply Forall_events_bind.
  - destruct (arg_index args); try constructor.
    + apply Forall_events_bind; [rewrite asset_href_events; constructor |].
      intros url _.
      apply Forall_events_bind; [by repeat constructor |]. intros _ _.
      destruct (arg_save args); [apply download_file_bbox | constructor].
    + apply Forall_events_bind; [rewrite asset_href_events; constructor |].
      intros url _.
      apply Forall_events_bind; [by repeat constructor |]. intros _ _.
      destruct (arg_save args); [apply download_file_bbox | constructor].
  - intros _ _.
    assert (Hloop : forall bands,
      Forall (bbox_event_ok B)
        (events (for_each bands (fun band =>
           href ← asset_href best_item band;
           print [Str "["; Str band; Str "] 部分ダウンロード中..."] ;;
           download_subset lib href
             (match truthy (arg_output args) with
              | Some o => o
              | None => "sentinel2_" +:+ item_date best_item
              end +:+ "_" +:+ band +:+ ".tif") B)))).
    { intros bands. apply Forall_events_for_each. intros band.
      apply Forall_events_bind; [rewrite asset_href_events; constructor |].
      intros href _.
      apply Forall_events_bind; [by repeat constructor |]. intros _ _.
      apply download_subset_bbox. }
    destruct (arg_index args); try constructor;
      (destruct (negb (arg_save args)); [by repeat constructor | apply Hloop]).
Qed.

(** With [coord_only] off, the search is issued with that box, whatever the
    size: no size is rejected. *)
Lemma fetcher_main_searches (lib : library) (args : arguments)
    (lon lat : float64) (es : list event) :
  resolve_target lib args = (Ok (lon, lat), es) ->
  arg_coord_only args = false ->
  exists req,
    Call (CSearch req) ∈ events (fetcher_main lib args) /\
    sr_bbox req = search_bbox lon lat (arg_bbox_size args).
Proof.
  intros Hres Hco.
  exists {| sr_collections := ["sentinel-2-l2a"];
            sr_bbox := search_bbox lon lat (arg_bbox_size args);
            sr_datetime :=
              arg_start_date args +:+ "/" +:+
              match truthy (arg_end_date args) with
              | Some d => d
              | None => today lib
              end;
            sr_cloud_cover_lt := arg_cloud_cover args |}.
  split; [| reflexivity].
  unfold fetcher_main. rewrite events_bind. unfold outcome. rewrite Hres.
  cbn [fst]. apply elem_of_app. right.
  rewrite events_bind. apply elem_of_app. right. cbn [outcome print fst].
  rewrite Hco. rewrite events_bind. apply elem_of_app. left.
  unfold call, events. cbn. apply elem_of_cons. by left.
Qed.

Lemma F64_prec_gt_0 : (0 < F64.prec)%Z.
Proof. reflexivity. Qed.

Lemma F64_prec_lt_emax : (F64.prec < F64.emax)%Z.
Proof. reflexivity. Qed.

(** Around [139.76], a size of [1e-20] is lost in the rounding of both
    [lon - size] and [lon + size]. *)
Example tiny_size_is_absorbed :
  SFltb F64.zero tiny_size = true /\
  west (search_bbox sample_lon sample_lat tiny_size) = sample_lon /\
  east (search_bbox sample_lon sample_lat tiny_size) = sample_lon.
Proof. vm_compute. repeat split. Qed.

(** C10, as stated, fails in one direction: with [lon = 139.76],
    [lat = 35.68] and [bbox_size = 1e-20] the size is positive, yet
    [west = east] and [south = north]. *)
Lemma C10_counterexample :
  ~ (forall lon lat size : float64,
       F64.valid lon = true -> F64.valid lat = true ->
       F64.valid size = true ->
       (SFltb (west (search_bbox lon lat size))
              (east (search_bbox lon lat size)) = true /\
        SFltb (south (search_bbox lon lat size))
              (north (search_bbox lon lat size)) = true
        <-> SFltb F64.zero size = true)).
Proof.
  intros H.
  destruct (H sample_lon sample_lat tiny_size eq_refl eq_refl eq_refl)
    as [_ Hback].
  destruct (Hback eq_refl) as [Hwe _].
  vm_compute in Hwe. discriminate Hwe.
Qed.

(** C10, amended. The bounding box handed to the catalog search and to
    every subset extraction is the centered square
    [(lon - size, lat - size, lon + size, lat + size)] computed in float64,
    and with [coord_only] off the search is issued with it for every size:
    nothing checks the size. If the box has [west < east] or
    [south < north] then [0 < size]; if [0 < size] and [lon], [lat] are
    finite then [west <= east] and [south <= north]. *)
Theorem C10_centered_square (lib : library) (args : arguments)
    (lon lat : float64) (es : list event) :
  resolve_target lib args = (Ok (lon, lat), es) ->
  F64.valid lon = true -> F64.valid lat = true ->
  F64.valid (arg_bbox_size args) = true ->
  let size := arg_bbox_size args in
  let B := search_bbox lon lat size in
  Forall (bbox_event_ok B) (events (fetcher_main lib args)) /\
  (arg_coord_only args = false ->
   exists req, Call (CSearch req) ∈ events (fetcher_main lib args) /\
               sr_bbox req = B) /\
  (SFltb (west B) (east B) = true \/ SFltb (south B) (north B) = true ->
   SFltb F64.zero size = true) /\
  (SFltb F64.zero size = true ->
   is_finite lon = true -> is_finite lat = true ->
   SFleb (west B) (east B) = true /\ SFleb (south B) (north B) = true).
Proof.
  intros Hres Vlon Vlat Vsize size B.
  split; [by eapply fetcher_main_bbox |].
  split; [intros Hco; by eapply fetcher_main_searches |].
  split.
  - intros [H|H];
      eapply (centered_lt_positive F64.prec F64.emax F64_prec_gt_0
                F64_prec_lt_emax); [exact Vlon | exact Vsize | exact H
                                   | exact Vlat | exact Vsize | exact H].
  - intros Hpos Flon Flat. split;
      apply (centered_positive_le F64.prec F64.emax F64_prec_gt_0
               F64_prec_lt_emax); done.
Qed.

Lemma C10_centered_square_witness :
  let size := arg_bbox_size sample_arguments in
  let B := search_bbox sample_lon sample_lat size in
  Forall (bbox_event_ok B)
         (events (fetcher_main (sample_library read_ok) sample_arguments)) /\
  (arg_coord_only sample_arguments = false ->
   exists req,
     Call (CSearch req)
       ∈ events (fetcher_main (sample_library read_ok) sample_arguments) /\
     sr_bbox req = B) /\
  (SFltb (west B) (east B) = true \/ SFltb (south B) (north B) = true ->
   SFltb F64.zero size = true) /\
  (SFltb F64.zero size = true ->
   is_finite sample_lon = true -> is_finite sample_lat = true ->
   SFleb (west B) (east B) = true /\ SFleb (south B) (north B) = true).
Proof.
  apply (C10_centered_square (sample_library read_ok) sample_arguments
           sample_lon sample_lat []); reflexivity.
Defined.

(** With the default size the box around [(139.76, 35.68)] is a proper
    box. *)
Example default_box_is_proper :
  SFltb (west (search_bbox sample_lon sample_lat default_size))
        (east (search_bbox sample_lon sample_lat default_size)) = true /\
  SFltb (south (search_bbox sample_lon sample_lat default_size))
        (north (search_bbox sample_lon sample_lat default_size)) = true.
Proof. vm_compute. split; reflexivity. Qed.

(* ================================================================== *)
(** * Further properties of the analyzer *)

Lemma well_shaped_1x2 {A} (p q : A) : well_shaped (NdArray 1 2 [[p; q]]).
Proof. split; [reflexivity | repeat constructor]. Qed.

(** ** A NaN sample is not masked by the zero policy *)

Lemma index_cell_nan (u v : float32) :
  u = S754_nan \/ v = S754_nan -> index_cell u v = S754_nan.
Proof.
  intros H. unfold index_cell, F32.add, F32.sub, F32.div.
  assert (Ha : SFadd F32.prec F32.emax u v = S754_nan).
  { destruct H as [-> | ->]; [reflexivity | by destruct u]. }
  rewrite Ha. cbn [SFeqb SFcompare].
  by destruct (SFsub F32.prec F32.emax u v).
Qed.

(** X1. For two bands of one shape, wherever either band holds a NaN the
    index holds a NaN: the substitution of [0.0] applies to zero sums only
    and does not hide missing data. *)
Theorem X1_nan_propagates (a b : ndarray float32) :
  well_shaped a -> well_shaped b -> shape a = shape b ->
  exists out,
    normalized_difference a b = Ok out /\
    forall i j u v, cell a i j = Some u -> cell b i j = Some v ->
      u = S754_nan \/ v = S754_nan ->
      cell out i j = Some S754_nan.
Proof.
  intros Ha Hb Hs.
  destruct (normalized_difference_same_shape a b Ha Hb Hs)
    as (out & Eout & _ & _ & Cout).
  exists out. split; [done |].
  intros i j u v Hu Hv Hnan.
  rewrite (Cout i j u v Hu Hv). f_equal. by apply index_cell_nan.
Qed.

Lemma X1_nan_propagates_witness :
  exists out,
    normalized_difference sample_marked sample_plain = Ok out /\
    forall i j u v,
      cell sample_marked i j = Some u -> cell sample_plain i j = Some v ->
      u = S754_nan \/ v = S754_nan ->
      cell out i j = Some S754_nan.
Proof.
  apply (X1_nan_propagates sample_marked sample_plain).
  - apply well_shaped_1x2.
  - apply well_shaped_1x2.
  - reflexivity.
Defined.

(** ** A band against itself *)

Lemma index_cell_self (u : float32) :
  F32.valid u = true -> is_finite u = true ->
  is_zero (index_cell u u) = true.
Proof.
  unfold F32.valid. intros Vu Fu.
  unfold index_cell, F32.add, F32.sub, F32.div.
  rewrite SFsub_diag by done.
  destruct (SFadd_finite F32.prec F32.emax F32_prec_gt_0 F32_prec_lt_emax
              u u Vu Vu Fu Fu) as (_ & Na & _).
  destruct (SFadd F32.prec F32.emax u u) as [s|s| |s m e];
    [reflexivity | by destruct s | done | by destruct s].
Qed.

(** X2. The index of a band against itself is zero at every position that
    holds a finite sample. *)
Theorem X2_same_band_is_zero (a : ndarray float32) :
  well_shaped a ->
  exists out,
    normalized_difference a a = Ok out /\ shape out = shape a /\
    forall i j u, cell a i j = Some u ->
      F32.valid u = true -> is_finite u = true ->
      exists x, cell out i j = Some x /\ is_zero x = true.
Proof.
  intros Ha.
  destruct (normalized_difference_same_shape a a Ha Ha eq_refl)
    as (out & Eout & Sout & _ & Cout).
  exists out. split; [done |]. split; [done |].
  intros i j u Hu Vu Fu. exists (index_cell u u).
  split; [by apply Cout | by apply index_cell_self].
Qed.

Lemma X2_same_band_is_zero_witness :
  exists out,
    normalized_difference sample_a sample_a = Ok out /\
    shape out = shape sample_a /\
    forall i j u, cell sample_a i j = Some u ->
      F32.valid u = true -> is_finite u = true ->
      exists x, cell out i j = Some x /\ is_zero x = true.
Proof.
  apply (X2_same_band_is_zero sample_a). apply well_shaped_band_of_2x2.
Defined.

(** ** One band zero, the other positive *)

Lemma positive_sample_finite (u : float32) :
  positive_sample u = true ->
  exists m e, u = S754_finite false m e /\
              valid_binary F32.prec F32.emax u = true.
Proof.
  unfold positive_sample, F32.valid. rewrite !andb_true_iff.
  intros [[Vu Fu] Pu].
  destruct u as [s|s| |s m e]; try discriminate Fu; try discriminate Pu.
  destruct s; [discriminate Pu |]. eauto.
Qed.

Lemma index_cell_saturates (u z : float32) :
  positive_sample u = true -> is_zero z = true ->
  SFeqb (index_cell u z) F32.one = true /\
  SFeqb (index_cell z u) F32.minus_one = true.
Proof.
  intros Hu Hz. destruct (positive_sample_finite u Hu) as (m & e & -> & Vu).
  destruct z as [sz|sz| |sz mz ez]; try discriminate Hz.
  unfold index_cell, F32.add, F32.sub, F32.div, F32.zero.
  cbn [SFadd SFsub negb].
  change (SFeqb (S754_finite false m e) (S754_zero false)) with false.
  cbn iota.
  split.
  - destruct (SFdiv_same_magnitude F32.prec F32.emax F32_prec_gt_0
                F32_prec_lt_emax false false m e Vu) as (Vq & Nq & Oq).
    rewrite (SFeqb_ord F32.prec F32.emax F32_prec_gt_0 F32_prec_lt_emax)
      by done.
    apply Z.eqb_eq. rewrite Oq. by vm_compute.
  - destruct (SFdiv_same_magnitude F32.prec F32.emax F32_prec_gt_0
                F32_prec_lt_emax true false m e Vu) as (Vq & Nq & Oq).
    rewrite (SFeqb_ord F32.prec F32.emax F32_prec_gt_0 F32_prec_lt_emax)
      by done.
    apply Z.eqb_eq. rewrite Oq. by vm_compute.
Qed.

(** X3. For two bands of one shape, where the second band is zero and the
    first holds a positive finite sample the index is [1.0]; where the first
    is zero and the second positive it is [-1.0]. *)
Theorem X3_index_saturates (a b : ndarray float32) :
  well_shaped a -> well_shaped b -> shape a = shape b ->
  exists out,
    normalized_difference a b = Ok out /\
    forall i j u v, cell a i j = Some u -> cell b i j = Some v ->
      exists x, cell out i j = Some x /\
        (positive_sample u = true -> is_zero v = true ->
         SFeqb x F32.one = true) /\
        (is_zero u = true -> positive_sample v = true ->
         SFeqb x F32.minus_one = true).
Proof.
  intros Ha Hb Hs.
  destruct (normalized_difference_same_shape a b Ha Hb Hs)
    as (out & Eout & _ & _ & Cout).
  exists out. split; [done |].
  intros i j u v Hu Hv. exists (index_cell u v).
  split; [by apply Cout |]. split.
  - intros Pu Zv. by apply index_cell_saturates.
  - intros Zu Pv. by apply index_cell_saturates.
Qed.

Lemma X3_index_saturates_witness :
  exists out,
    normalized_difference sample_a sample_b = Ok out /\
    forall i j u v, cell sample_a i j = Some u -> cell sample_b i j = Some v ->
      exists x, cell out i j = Some x /\
        (positive_sample u = true -> is_zero v = true ->
         SFeqb x F32.one = true) /\
        (is_zero u = true -> positive_sample v = true ->
         SFeqb x F32.minus_one = true).
Proof.
  apply (X3_index_saturates sample_a sample_b).
  - apply well_shaped_band_of_2x2.
  - apply well_shaped_band_of_2x2.
  - reflexivity.
Defined.

(** ** Unsigned 16-bit rasters *)

Lemma F32_of_Z_exact (z : Z) :
  (Z.abs z < 2 ^ 24)%Z ->
  valid_binary F32.prec F32.emax (F32.of_Z z) = true /\
  is_finite (F32.of_Z z) = true /\
  F32.of_Z z <> S754_nan /\
  float_ord F32.prec F32.emax (F32.of_Z z) = (z * 2 ^ 149)%Z.
Proof.
  intros Hz.
  destruct (binary_normalize_exact F32.prec F32.emax F32_prec_gt_0
              F32_prec_lt_emax z Hz) as (Hv & Hf & Ho).
  fold (F32.of_Z z) in Hv, Hf, Ho.
  repeat split; try done. intros E. by rewrite E in Hf.
Qed.

Lemma uint16_add (a b : Z) :
  (0 <= a <= 65535)%Z -> (0 <= b <= 65535)%Z ->
  F32.add (F32.of_Z a) (F32.of_Z b) = F32.of_Z (a + b).
Proof.
  intros Ha Hb.
  destruct (F32_of_Z_exact a ltac:(lia)) as (Va & Fa & Na & Oa).
  destruct (F32_of_Z_exact b ltac:(lia)) as (Vb & Fb & Nb & Ob).
  destruct (F32_of_Z_exact (a + b) ltac:(lia)) as (Vs & Fs & Ns & Os).
  destruct (SFadd_finite F32.prec F32.emax F32_prec_gt_0 F32_prec_lt_emax
              _ _ Va Vb Fa Fb) as (Vr & Nr & _).
  pose proof (SFadd_exact F32.prec F32.emax F32_prec_gt_0 F32_prec_lt_emax
                _ _ (F32.of_Z (a + b)) Va Vb Vs Fa Fb Fs ltac:(lia)) as Hr.
  destruct (valid_ord_inj F32.prec F32.emax F32_prec_gt_0 F32_prec_lt_emax
              _ _ Vr Vs Nr Ns Hr) as [E|(s & s' & _ & E)]; [exact E |].
  rewrite E in Os. cbn [float_ord] in Os.
  assert (a = 0 /\ b = 0)%Z as [-> ->] by lia. reflexivity.
Qed.

Lemma uint16_sub (a b : Z) :
  (0 <= a <= 65535)%Z -> (0 <= b <= 65535)%Z ->
  F32.sub (F32.of_Z a) (F32.of_Z b) = F32.of_Z (a - b).
Proof.
  intros Ha Hb.
  destruct (F32_of_Z_exact a ltac:(lia)) as (Va & Fa & Na & Oa).
  destruct (F32_of_Z_exact b ltac:(lia)) as (Vb & Fb & Nb & Ob).
  destruct (F32_of_Z_exact (a - b) ltac:(lia)) as (Vs & Fs & Ns & Os).
  destruct (SFsub_finite F32.prec F32.emax F32_prec_gt_0 F32_prec_lt_emax
              _ _ Va Vb Fa Fb) as (Vr & Nr & _).
  pose proof (SFsub_exact F32.prec F32.emax F32_prec_gt_0 F32_prec_lt_emax
                _ _ (F32.of_Z (a - b)) Va Vb Vs Fa Fb Fs ltac:(lia)) as Hr.
  destruct (valid_ord_inj F32.prec F32.emax F32_prec_gt_0 F32_prec_lt_emax
              _ _ Vr Vs Nr Ns Hr) as [E|(s & s' & _ & E)]; [exact E |].
  rewrite E in Os. cbn [float_ord] in Os.
  assert (a = b) as -> by lia.
  unfold F32.sub. rewrite SFsub_diag by done.
  by rewrite Z.sub_diag.
Qed.

Lemma index_cell_uint16 (a b : Z) :
  (0 <= a <= 65535)%Z -> (0 <= b <= 65535)%Z ->
  index_cell (astype_float32 (PxInt a)) (astype_float32 (PxInt b))
  = if (a + b =? 0)%Z then F32.zero
    else F32.div (F32.of_Z (a - b)) (F32.of_Z (a + b)).
Proof.
  intros Ha Hb. unfold index_cell, astype_float32.
  rewrite uint16_add, uint16_sub by done.
  destruct (F32_of_Z_exact (a + b) ltac:(lia)) as (Vs & _ & Ns & Os).
  rewrite (SFeqb_ord F32.prec F32.emax F32_prec_gt_0 F32_prec_lt_emax)
    by done.
  rewrite Os. cbn [float_ord F32.zero].
  destruct (Z.eqb_spec (a + b) 0) as [E|E].
  - rewrite E. reflexivity.
  - destruct (Z.eqb_spec ((a + b) * 2 ^ 149) 0) as [E'|E']; [| reflexivity].
    assert (0 < 2 ^ 149)%Z by (by vm_compute). nia.
Qed.

(** X4. On two unsigned 16-bit rasters of one shape nothing is lost before
    the division: the float32 sum and difference are the exact integers, so
    each index cell is zero where both samples are zero and otherwise the
    one float32 division of the integer [a - b] by the integer [a + b]. *)
Theorem X4_uint16_no_overflow (raw1 raw2 : ndarray pixel) :
  well_shaped raw1 -> well_shaped raw2 -> shape raw1 = shape raw2 ->
  exists out,
    normalized_difference (amap astype_float32 raw1)
                          (amap astype_float32 raw2) = Ok out /\
    forall i j a b,
      cell raw1 i j = Some (PxInt a) -> cell raw2 i j = Some (PxInt b) ->
      (0 <= a <= 65535)%Z -> (0 <= b <= 65535)%Z ->
      cell out i j
      = Some (if (a + b =? 0)%Z then F32.zero
              else F32.div (F32.of_Z (a - b)) (F32.of_Z (a + b))).
Proof.
  intros H1 H2 Hs.
  destruct (normalized_difference_same_shape
              (amap astype_float32 raw1) (amap astype_float32 raw2))
    as (out & Eout & _ & _ & Cout);
    [by apply well_shaped_amap | by apply well_shaped_amap | exact Hs |].
  exists out. split; [done |].
  intros i j a b Ha Hb Ra Rb.
  rewrite (Cout i j (astype_float32 (PxInt a)) (astype_float32 (PxInt b))).
  - f_equal. by apply index_cell_uint16.
  - by rewrite cell_amap, Ha.
  - by rewrite cell_amap, Hb.
Qed.

Lemma X4_uint16_no_overflow_witness :
  exists out,
    normalized_difference (amap astype_float32 sample_pixels)
                          (amap astype_float32 sample_pixels) = Ok out /\
    forall i j a b,
      cell sample_pixels i j = Some (PxInt a) ->
      cell sample_pixels i j = Some (PxInt b) ->
      (0 <= a <= 65535)%Z -> (0 <= b <= 65535)%Z ->
      cell out i j
      = Some (if (a + b =? 0)%Z then F32.zero
              else F32.div (F32.of_Z (a - b)) (F32.of_Z (a + b))).
Proof.
  apply (X4_uint16_no_overflow sample_pixels sample_pixels).
  - apply well_shaped_raster_2x2.
  - apply well_shaped_raster_2x2.
  - reflexivity.
Defined.

(** The largest samples: in uint16 the sum 65535 + 65535 would wrap; here
    it is 131070. *)
Example uint16_largest_sum :
  F32.add (astype_float32 (PxInt 65535)) (astype_float32 (PxInt 65535))
  = F32.of_Z 131070.
Proof. vm_compute. reflexivity. Qed.

(** X5. On two unsigned 16-bit rasters of one shape every cell of the index
    lies in [[-1, 1]]; in particular no cell is a NaN or an infinity. *)
Theorem X5_uint16_range (raw1 raw2 : ndarray pixel) :
  well_shaped raw1 -> well_shaped raw2 -> shape raw1 = shape raw2 ->
  uint16_raster raw1 -> uint16_raster raw2 ->
  exists out,
    normalized_difference (amap astype_float32 raw1)
                          (amap astype_float32 raw2) = Ok out /\
    forall i j x, cell out i j = Some x ->
      SFleb F32.minus_one x = true /\ SFleb x F32.one = true.
Proof.
  intros H1 H2 Hs U1 U2.
  destruct (normalized_difference_same_shape
              (amap astype_float32 raw1) (amap astype_float32 raw2))
    as (out & Eout & Sout & Wout & Cout);
    [by apply well_shaped_amap | by apply well_shaped_amap | exact Hs |].
  exists out. split; [done |].
  intros i j x Hx.
  destruct (cell_Some_lt out i j x Wout Hx) as [Hi Hj].
  assert (Hsh : nrows out = nrows raw1 /\ ncols out = ncols raw1)
    by (unfold shape in Sout; simpl in Sout; by injection Sout).
  assert (Hsh2 : nrows raw2 = nrows raw1 /\ ncols raw2 = ncols raw1)
    by (unfold shape in Hs; by injection Hs).
  destruct (well_shaped_cell raw1 i j H1) as [p Hp]; [lia | lia |].
  destruct (well_shaped_cell raw2 i j H2) as [q Hq]; [lia | lia |].
  destruct (U1 i j p Hp) as (a & -> & Ra).
  destruct (U2 i j q Hq) as (b & -> & Rb).
  rewrite (Cout i j (astype_float32 (PxInt a)) (astype_float32 (PxInt b)))
    in Hx by (by rewrite cell_amap, ?Hp, ?Hq).
  injection Hx as <-.
  apply index_cell_range; apply astype_float32_nonneg; lia.
Qed.

Lemma uint16_raster_2x2 (p q r s : Z) :
  (0 <= p <= 65535)%Z -> (0 <= q <= 65535)%Z ->
  (0 <= r <= 65535)%Z -> (0 <= s <= 65535)%Z ->
  uint16_raster (NdArray 2 2 [[PxInt p; PxInt q]; [PxInt r; PxInt s]]).
Proof.
  intros Hp Hq Hr Hs i j x Hx. unfold cell in Hx; simpl in Hx.
  destruct i as [|[|i]]; simpl in Hx; try discriminate Hx;
    destruct j as [|[|j]]; simpl in Hx; try discriminate Hx;
    injection Hx as <-; eauto.
Qed.

Lemma X5_uint16_range_witness :
  exists out,
    normalized_difference (amap astype_float32 sample_pixels)
                          (amap astype_float32 sample_pixels) = Ok out /\
    forall i j x, cell out i j = Some x ->
      SFleb F32.minus_one x = true /\ SFleb x F32.one = true.
Proof.
  apply (X5_uint16_range sample_pixels sample_pixels).
  - apply well_shaped_raster_2x2.
  - apply well_shaped_raster_2x2.
  - reflexivity.
  - apply uint16_raster_2x2; lia.
  - apply uint16_raster_2x2; lia.
Defined.

(** ** The analyzer's driver *)

Lemma calculate_index_events (lib : library) (p1 p2 name : string) :
  Forall (fun ev => match ev with
                    | Print _ => True
                    | Call (COpen p) => p = p1 \/ p = p2
                    | Call _ => False
                    end)
         (events (calculate_index lib p1 p2 name)).
Proof.
  unfold calculate_index.
  apply Forall_events_bind; [by repeat constructor |]. intros _ _.
  apply Forall_events_bind; [repeat constructor; by left |]. intros src1 _.
  apply Forall_events_bind; [constructor |]. intros raw1 _.
  apply Forall_events_bind; [repeat constructor; by right |]. intros src2 _.
  apply Forall_events_bind; [constructor |]. intros raw2 _.
  apply Forall_events_bind; [constructor |]. intros idx _.
  apply Forall_events_bind; [constructor |]. intros lo _.
  apply Forall_events_bind; [constructor |]. intros hi _.
  apply Forall_events_bind; [by repeat constructor |]. intros _ _.
  constructor.
Qed.

Lemma index_block_events (lib : library) (base p1 p2 name out cmap title : string) :
  out = base +:+ "_NDVI_result.png" \/ out = base +:+ "_MNDWI_result.png" ->
  path_exists lib p1 && path_exists lib p2 = true ->
  Forall (analyzer_event_ok lib base)
    (events ('(idx, _) ← calculate_index lib p1 p2 name;
             save_heatmap lib idx out cmap title)).
Proof.
  intros Hout Hex. apply andb_true_iff in Hex as [E1 E2].
  apply Forall_events_bind.
  - eapply Forall_impl; [apply calculate_index_events |].
    intros [line|[]] H; simpl in *; try done. by destruct H as [-> | ->].
  - intros [idx meta] _. unfold save_heatmap.
    apply Forall_events_bind.
    + apply Forall_cons. split; [exact Hout | constructor].
    + intros _ _. by repeat constructor.
Qed.

(** X6. The analyzer only prints, opens band files whose existence it has
    checked, and saves its two figures ([<base>_NDVI_result.png],
    [<base>_MNDWI_result.png]): it never opens a missing file and never
    writes a raster. *)
Theorem X6_analyzer_is_guarded (lib : library) (base : string) :
  Forall (analyzer_event_ok lib base) (events (analyzer_main lib base)).
Proof.
  unfold analyzer_main. apply Forall_events_bind.
  - unfold ndvi_block.
    destruct (path_exists lib (base +:+ "_B08.tif")
              && path_exists lib (base +:+ "_B04.tif")) eqn:Hex.
    + apply index_block_events; [by left | done].
    + by repeat constructor.
  - intros _ _. unfold mndwi_block.
    destruct (path_exists lib (base +:+ "_B03.tif")
              && path_exists lib (base +:+ "_B11.tif")) eqn:Hex.
    + apply index_block_events; [by right | done].
    + by repeat constructor.
Qed.

(** One index computation on a ready pair of band files. *)
Lemma index_block_runs (lib : library) (p1 p2 name out cmap title : string)
    (raw1 raw2 : ndarray pixel) :
  band_pair_ready lib p1 p2 raw1 raw2 -> savefig lib out = Ok tt ->
  exists idx es,
    normalized_difference (amap astype_float32 raw1)
                          (amap astype_float32 raw2) = Ok idx /\
    ('(idx, _) ← calculate_index lib p1 p2 name;
     save_heatmap lib idx out cmap title)
    = (Ok tt, es) /\
    Call (CSaveFig out idx cmap title) ∈ es.
Proof.
  intros (E1 & E2 & (src1 & O1 & R1) & (src2 & O2 & R2)
          & W1 & W2 & Hs & Hn & Hm) Hsave.
  destruct (calculate_index_returns lib p1 p2 name src1 src2 raw1 raw2
              O1 O2 R1 R2 W1 W2 Hs Hn Hm) as (idx & es & Hcalc & Hidx).
  exists idx. eexists. split; [exact Hidx |].
  rewrite Hcalc. unfold save_heatmap, call, print. rewrite Hsave. cbn.
  split; [reflexivity |].
  apply elem_of_app. right. apply elem_of_cons. by left.
Qed.

(** X7. With the four band files present, readable and pairwise of one
    non-empty shape, and both figures saved without error, the run ends
    normally having saved the index of B08 against B04 (in this order) as
    the NDVI figure and the index of B03 against B11 as the MNDWI figure. *)
Theorem X7_analyzer_full_run (lib : library) (base : string)
    (b08 b04 b03 b11 : ndarray pixel) :
  band_pair_ready lib (base +:+ "_B08.tif") (base +:+ "_B04.tif") b08 b04 ->
  band_pair_ready lib (base +:+ "_B03.tif") (base +:+ "_B11.tif") b03 b11 ->
  savefig lib (base +:+ "_NDVI_result.png") = Ok tt ->
  savefig lib (base +:+ "_MNDWI_result.png") = Ok tt ->
  exists ndvi mndwi,
    normalized_difference (amap astype_float32 b08) (amap astype_float32 b04)
      = Ok ndvi /\
    normalized_difference (amap astype_float32 b03) (amap astype_float32 b11)
      = Ok mndwi /\
    outcome (analyzer_main lib base) = Ok tt /\
    Call (CSaveFig (base +:+ "_NDVI_result.png") ndvi "RdYlGn"
            ("NDVI Analysis: " +:+ base))
      ∈ events (analyzer_main lib base) /\
    Call (CSaveFig (base +:+ "_MNDWI_result.png") mndwi "PuBu"
            ("MNDWI Analysis: " +:+ base))
      ∈ events (analyzer_main lib base).
Proof.
  intros Hn Hw Sn Sw.
  destruct (index_block_runs lib _ _ "NDVI" _ "RdYlGn"
              ("NDVI Analysis: " +:+ base) b08 b04 Hn Sn)
    as (ndvi & en & In & Rn & Mn).
  destruct (index_block_runs lib _ _ "MNDWI" _ "PuBu"
              ("MNDWI Analysis: " +:+ base) b03 b11 Hw Sw)
    as (mndwi & ew & Iw & Rw & Mw).
  exists ndvi, mndwi. split; [done |]. split; [done |].
  assert (Hmain : analyzer_main lib base = (Ok tt, en ++ ew)).
  { unfold analyzer_main, ndvi_block, mndwi_block.
    destruct Hn as (-> & -> & _). destruct Hw as (-> & -> & _).
    cbn [andb]. rewrite Rn, Rw. reflexivity. }
  rewrite Hmain. unfold outcome, events; cbn [fst snd].
  split; [done |]. split; apply elem_of_app; [by left | by right].
Qed.

Lemma band_pair_ready_farm (p1 p2 : string) (r1 r2 : list (list Z)) :
  farm_files !! p1 = Some (raster_of 2 2 r1 "GTiff") ->
  farm_files !! p2 = Some (raster_of 2 2 r2 "GTiff") ->
  well_shaped (NdArray 2 2 ((fun row : list Z => PxInt <$> row) <$> r1)) ->
  well_shaped (NdArray 2 2 ((fun row : list Z => PxInt <$> row) <$> r2)) ->
  band_pair_ready (disk_library farm_files) p1 p2
    (NdArray 2 2 ((fun row : list Z => PxInt <$> row) <$> r1))
    (NdArray 2 2 ((fun row : list Z => PxInt <$> row) <$> r2)).
Proof.
  intros H1 H2 W1 W2. unfold band_pair_ready.
  split; [cbn; rewrite H1; by apply bool_decide_eq_true |].
  split; [cbn; rewrite H2; by apply bool_decide_eq_true |].
  split; [eexists; cbn; rewrite H1; by split |].
  split; [eexists; cbn; rewrite H2; by split |].
  split; [done |]. split; [done |]. split; [done |].
  cbn. lia.
Qed.

Lemma X7_analyzer_full_run_witness :
  exists ndvi mndwi,
    normalized_difference
      (amap astype_float32
            (NdArray 2 2 [[PxInt 40; PxInt 30]; [PxInt 0; PxInt 5]]))
      (amap astype_float32
            (NdArray 2 2 [[PxInt 10; PxInt 30]; [PxInt 0; PxInt 0]]))
      = Ok ndvi /\
    normalized_difference
      (amap astype_float32
            (NdArray 2 2 [[PxInt 10; PxInt 10]; [PxInt 0; PxInt 5]]))
      (amap astype_float32
            (NdArray 2 2 [[PxInt 10; PxInt 10]; [PxInt 0; PxInt 0]]))
      = Ok mndwi /\
    outcome (analyzer_main (disk_library farm_files) "farm") = Ok tt /\
    Call (CSaveFig "farm_NDVI_result.png" ndvi "RdYlGn" "NDVI Analysis: farm")
      ∈ events (analyzer_main (disk_library farm_files) "farm") /\
    Call (CSaveFig "farm_MNDWI_result.png" mndwi "PuBu" "MNDWI Analysis: farm")
      ∈ events (analyzer_main (disk_library farm_files) "farm").
Proof.
  apply (X7_analyzer_full_run (disk_library farm_files) "farm").
  - apply (band_pair_ready_farm "farm_B08.tif" "farm_B04.tif"
             [[40; 30]; [0; 5]]%Z [[10; 30]; [0; 0]]%Z);
      try reflexivity; apply well_shaped_raster_2x2.
  - apply (band_pair_ready_farm "farm_B03.tif" "farm_B11.tif"
             [[10; 10]; [0; 5]]%Z [[10; 10]; [0; 0]]%Z);
      try reflexivity; apply well_shaped_raster_2x2.
  - reflexivity.
  - reflexivity.
Defined.

(* ================================================================== *)
(** * Further properties of the fetcher *)

Lemma bind_Ok {A B} (m : M A) (k : A -> M B) (a : A) (es : list event) :
  m = (Ok a, es) -> m ≫= k = (outcome (k a), es ++ events (k a)).
Proof. intros ->. unfold outcome, events. cbn. by destruct (k a). Qed.

Lemma bind_Raise {A B} (m : M A) (k : A -> M B) (e : exception)
    (es : list event) :
  m = (Raise e, es) -> m ≫= k = (Raise e, es).
Proof. by intros ->. Qed.

Lemma outcome_bind {A B} (m : M A) (k : A -> M B) :
  outcome (m ≫= k)
  = match outcome m with
    | Ok a => outcome (k a)
    | Raise e => Raise e
    end.
Proof.
  destruct m as [[a|e] es]; unfold outcome; cbn; [| done].
  by destruct (k a).
Qed.

Lemma outcome_bind_Raise {A B} (m : M A) (k : A -> M B) (e : exception) :
  outcome (m ≫= k) = Raise e ->
  outcome m = Raise e \/ exists a, outcome m = Ok a /\ outcome (k a) = Raise e.
Proof.
  rewrite outcome_bind. destruct (outcome m) as [a|e'].
  - intros H. right. exists a. split; [reflexivity | exact H].
  - intros H. left. by injection H as ->.
Qed.

(** ** [download_file] *)

(** X8. [download_file] never raises: a fetch that succeeds is followed by
    the completion line, a fetch that fails with [e] is followed by one line
    that carries the message of [e], and in both cases the function returns
    normally. *)
Theorem X8_download_file_never_raises (lib : library) (url save_path : string) :
  outcome (download_file lib url save_path) = Ok tt /\
  events (download_file lib url save_path)
  = Call (CHttpGet url save_path)
    :: match http_get lib url save_path with
       | Ok _ => [Print [Str "完了"]]
       | Raise e => [Print [Str "ダウンロードエラー: "; Str (exn_message e)]]
       end.
Proof.
  unfold download_file, call, print, outcome, events.
  by destruct (http_get lib url save_path) as [[]|e].
Qed.

(** ** [main]: where it stops *)

(** X9. When the geocoder finds no location for the address, [main] ends
    with a [ValueError] that names the address, right after the geocoding:
    no target is printed, no search is made, nothing is downloaded. *)
Theorem X9_unknown_address (lib : library) (args : arguments)
    (address : string) :
  truthy (arg_address args) = Some address ->
  geocode lib address = Ok None ->
  fetcher_main lib args
  = (Raise (ValueError ("住所 '" +:+ address +:+
                        "' の座標が見つかりませんでした。")),
     [Print [Str "住所 '"; Str address; Str "' の座標を検索中..."];
      Call (CGeocode address)]).
Proof.
  intros Ha Hg. unfold fetcher_main.
  apply bind_Raise. unfold resolve_target. rewrite Ha.
  unfold get_coords_from_address, call, print, raise. rewrite Hg.
  reflexivity.
Qed.

Lemma X9_unknown_address_witness :
  fetcher_main nowhere_library (address_arguments "Atlantis")
  = (Raise (ValueError ("住所 '" +:+ "Atlantis" +:+
                        "' の座標が見つかりませんでした。")),
     [Print [Str "住所 '"; Str "Atlantis"; Str "' の座標を検索中..."];
      Call (CGeocode "Atlantis")]).
Proof.
  apply (X9_unknown_address nowhere_library (address_arguments "Atlantis"));
    reflexivity.
Defined.

(** X10. An empty address counts as no address: the geocoder is not asked,
    and without a point [main] ends with a [TypeError] before anything is
    printed. *)
Theorem X10_empty_address (lib : library) (args : arguments) :
  arg_address args = Some "" -> arg_point args = None ->
  fetcher_main lib args
  = (Raise (TypeError "cannot unpack non-iterable NoneType object"), []).
Proof.
  intros Ha Hp. unfold fetcher_main.
  apply bind_Raise. unfold resolve_target. by rewrite Ha, Hp.
Qed.

Lemma X10_empty_address_witness :
  fetcher_main nowhere_library (address_arguments "")
  = (Raise (TypeError "cannot unpack non-iterable NoneType object"), []).
Proof.
  apply (X10_empty_address nowhere_library (address_arguments ""));
    reflexivity.
Defined.

(** X11. With [--coord-only], [main] prints the target after resolving it
    and returns: no search is made and nothing is downloaded, whatever the
    other options are. *)
Theorem X11_coord_only (lib : library) (args : arguments)
    (lon lat : float64) (es : list event) :
  resolve_target lib args = (Ok (lon, lat), es) ->
  arg_coord_only args = true ->
  fetcher_main lib args = (Ok tt, es ++ [target_line lon lat]).
Proof.
  intros Hres Hco. unfold fetcher_main.
  rewrite (bind_Ok _ _ _ _ Hres). cbn beta iota.
  rewrite (bind_Ok _ _ tt [target_line lon lat] eq_refl).
  by rewrite Hco.
Qed.

Lemma X11_coord_only_witness :
  fetcher_main refusing_library (point_arguments IdxAll true true)
  = (Ok tt, [] ++ [target_line sample_lon sample_lat]).
Proof.
  apply (X11_coord_only refusing_library (point_arguments IdxAll true true));
    reflexivity.
Defined.

(** X12. When the catalog returns no scene, [main] says so and returns
    normally; when the search itself fails, [main] ends with that exception.
    In both cases nothing is downloaded. *)
Theorem X12_search_without_scene (lib : library) (args : arguments)
    (lon lat : float64) (es : list event) :
  resolve_target lib args = (Ok (lon, lat), es) ->
  arg_coord_only args = false ->
  match catalog_search lib (main_request lib args lon lat) with
  | Ok [] =>
      fetcher_main lib args
      = (Ok tt,
         es ++ [target_line lon lat;
                Call (CSearch (main_request lib args lon lat));
                Print [Str "画像が見つかりませんでした。条件を緩和してください。"]])
  | Ok (_ :: _) => True
  | Raise e =>
      fetcher_main lib args
      = (Raise e,
         es ++ [target_line lon lat;
                Call (CSearch (main_request lib args lon lat))])
  end.
Proof.
  intros Hres Hco. unfold fetcher_main.
  rewrite (bind_Ok _ _ _ _ Hres). cbn beta iota.
  rewrite (bind_Ok _ _ tt [target_line lon lat] eq_refl).
  rewrite Hco. fold (main_request lib args lon lat).
  unfold call.
  destruct (catalog_search lib (main_request lib args lon lat))
    as [[|best rest]|e]; [| done |]; reflexivity.
Qed.

Lemma X12_search_without_scene_witness :
  fetcher_main nowhere_library (point_arguments IdxNdvi false true)
  = (Ok tt,
     [] ++ [target_line sample_lon sample_lat;
            Call (CSearch (main_request nowhere_library
                             (point_arguments IdxNdvi false true)
                             sample_lon sample_lat));
            Print [Str "画像が見つかりませんでした。条件を緩和してください。"]]).
Proof.
  apply (X12_search_without_scene nowhere_library
           (point_arguments IdxNdvi false true) sample_lon sample_lat []);
    reflexivity.
Defined.

(** ** [main]: what it does under which options *)

Lemma download_subset_guarded (lib : library) (args : arguments)
    (href save_path : string) (bbox : bounding_box) :
  fetches_bands args ->
  Forall (main_event_ok args) (events (download_subset lib href save_path bbox)).
Proof.
  intros Hf. unfold download_subset.
  apply Forall_events_bind; [by repeat constructor |]. intros _ _.
  apply Forall_events_try; [| intros e; by repeat constructor].
  unfold subset_body, call, print, events.
  destruct (rio_open lib href) as [src|]; cbn;
    [| by apply Forall_singleton].
  destruct (warped_vrt lib src "EPSG:4326") as [vrt|]; cbn;
    [| by repeat (apply Forall_cons; split; [exact Hf |]); constructor].
  destruct (vrt_window vrt bbox) as [w|]; cbn;
    [| by repeat (apply Forall_cons; split; [exact Hf |]); constructor].
  destruct (vrt_read vrt w) as [data|]; cbn;
    [| by repeat (apply Forall_cons; split; [exact Hf |]); constructor].
  destruct (rio_write lib save_path (synthesize_profile vrt w) data) as [[]|];
    cbn.
  - repeat (apply Forall_cons; split; [exact Hf |]).
    apply Forall_singleton. exact I.
  - repeat (apply Forall_cons; split; [exact Hf |]). constructor.
Qed.

Lemma download_file_guarded (lib : library) (args : arguments)
    (url save_path : string) :
  fetches_preview args ->
  Forall (main_event_ok args) (events (download_file lib url save_path)).
Proof.
  intros Hf. unfold download_file. apply Forall_events_try.
  - unfold call, print, events.
    destruct (http_get lib url save_path) as [[]|]; cbn.
    + apply Forall_cons. split; [exact Hf |]. by apply Forall_singleton.
    + by apply Forall_singleton.
  - intros e. by repeat constructor.
Qed.

(** X13. Every library call of [main] is licensed by the options: the
    geocoder is asked only for the given non-empty address, the catalog is
    searched only without [--coord-only], the preview is streamed only with
    [--save] and index preview or all, rasters are opened, warped, read and
    written only with [--save] and an index other than preview, and no
    figure is ever drawn. In particular, without [--save] nothing is
    fetched or written. *)
Theorem X13_main_is_guarded (lib : library) (args : arguments) :
  Forall (main_event_ok args) (events (fetcher_main lib args)).
Proof.
  unfold fetcher_main.
  apply Forall_events_bind.
  { unfold resolve_target.
    destruct (truthy (arg_address args)) as [address|] eqn:Ha.
    - apply Forall_events_bind; [by repeat constructor |]. intros _ _.
      unfold get_coords_from_address, call, events.
      destruct (geocode lib address) as [[lonlat|]|]; cbn;
        rewrite ?app_nil_r; apply Forall_singleton; cbn; exact Ha.
    - destruct (arg_point args); constructor. }
  intros [lon lat] _.
  apply Forall_events_bind; [by repeat constructor |]. intros _ _.
  destruct (arg_coord_only args) eqn:Hco; [constructor |].
  apply Forall_events_bind; [by apply Forall_singleton |]. intros items _.
  destruct items as [|best_item rest]; [by repeat constructor |].
  apply Forall_events_bind; [by repeat constructor |]. intros _ _.
  apply Forall_events_bind.
  - assert (Hprev : arg_index args = IdxPreview \/ arg_index args = IdxAll ->
      Forall (main_event_ok args)
        (events (url ← asset_href best_item "rendered_preview";
                 print [Str "[Preview] "; Str url] ;;
                 if arg_save args
                 then download_file lib url
                        (match truthy (arg_output args) with
                         | Some o => o
                         | None => "sentinel2_" +:+ item_date best_item
                         end +:+ "_preview.jpg")
                 else mret tt))).
    { intros Hidx.
      apply Forall_events_bind; [rewrite asset_href_events; constructor |].
      intros url _.
      apply Forall_events_bind; [by repeat constructor |]. intros _ _.
      destruct (arg_save args) eqn:Hsave; [| constructor].
      apply download_file_guarded. by repeat split. }
    destruct (arg_index args) eqn:Hidx; try constructor;
      apply Hprev; auto.
  - intros _ _.
    assert (Hloop : arg_index args <> IdxPreview -> arg_save args = true ->
      forall bands,
      Forall (main_event_ok args)
        (events (for_each bands (fun band =>
           href ← asset_href best_item band;
           print [Str "["; Str band; Str "] 部分ダウンロード中..."] ;;
           download_subset lib href
             (match truthy (arg_output args) with
              | Some o => o
              | None => "sentinel2_" +:+ item_date best_item
              end +:+ "_" +:+ band +:+ ".tif")
             (search_bbox lon lat (arg_bbox_size args)))))).
    { intros Hidx Hsave bands. apply Forall_events_for_each. intros band.
      apply Forall_events_bind; [rewrite asset_href_events; constructor |].
      intros href _.
      apply Forall_events_bind; [by repeat constructor |]. intros _ _.
      apply download_subset_guarded. by repeat split. }
    destruct (arg_index args) eqn:Hidx; try constructor;
      (destruct (arg_save args) eqn:Hsave; cbn [negb];
       [apply Hloop; [discriminate | reflexivity] | by repeat constructor]).
Qed.

(** ** The bands of an index *)

(** X14. The duplicate removal of line 162 removes nothing: for every index
    the bands fetched are, up to order, exactly the bands listed at lines
    158-160, each once; for the preview there is none. *)
Theorem X14_wanted_bands (idx : index_choice) :
  wanted_bands idx ≡ₚ listed_bands idx /\ NoDup (wanted_bands idx).
Proof.
  unfold wanted_bands. fold (listed_bands idx).
  split; [| apply (NoDup_elements (C:=gset string))].
  apply (elements_list_to_set (C:=gset string)).
  destruct idx; cbn; repeat (apply NoDup_cons; split);
    try apply NoDup_nil_2; rewrite ?elem_of_cons, ?elem_of_nil;
    intros H; repeat destruct H as [H|H]; try discriminate H; done.
Qed.

(** ** [main]: what can end it *)

Lemma for_each_Raise {A} (xs : list A) (body : A -> M unit) (e : exception) :
  outcome (for_each xs body) = Raise e ->
  exists x, x ∈ xs /\ outcome (body x) = Raise e.
Proof.
  induction xs as [|x xs IH]; simpl.
  - discriminate.
  - intros H. apply outcome_bind_Raise in H as [H|(_ & _ & H)].
    + exists x. split; [apply elem_of_cons; by left | done].
    + destruct (IH H) as (y & Hy & Hr). exists y.
      split; [apply elem_of_cons; by right | done].
Qed.

Lemma asset_href_Raise (it : item) (key : string) (e : exception) :
  outcome (asset_href it key) = Raise e ->
  item_assets it !! key = None /\ e = KeyError key.
Proof.
  unfold asset_href. destruct (item_assets it !! key); [discriminate |].
  intros H. by injection H as <-.
Qed.

Lemma download_file_outcome (lib : library) (url save_path : string) :
  outcome (download_file lib url save_path) = Ok tt.
Proof.
  unfold download_file, call, print, outcome.
  by destruct (http_get lib url save_path) as [[]|e].
Qed.

(** X15. No failure of a download ends [main]. If [main] ends with an
    exception, it is the exception of the target resolution, or the one of
    the catalog search, or the [KeyError] of an asset that the best scene
    does not have. *)
Theorem X15_main_exceptions (lib : library) (args : arguments)
    (e : exception) :
  outcome (fetcher_main lib args) = Raise e ->
  outcome (resolve_target lib args) = Raise e \/
  (exists req, catalog_search lib req = Raise e) \/
  (exists req best rest key,
     catalog_search lib req = Ok (best :: rest) /\
     item_assets best !! key = None /\ e = KeyError key).
Proof.
  unfold fetcher_main. intros H.
  apply outcome_bind_Raise in H as [H|([lon lat] & _ & H)]; [by left |].
  right.
  apply outcome_bind_Raise in H as [H|(_ & _ & H)]; [discriminate H |].
  destruct (arg_coord_only args); [discriminate H |].
  fold (main_request lib args lon lat) in H.
  apply outcome_bind_Raise in H as [H|(items & Hs & H)].
  { left. by exists (main_request lib args lon lat). }
  right. unfold outcome, call in Hs. cbn [fst] in Hs.
  destruct items as [|best rest]; [discriminate H |].
  exists (main_request lib args lon lat), best, rest.
  apply outcome_bind_Raise in H as [H|(_ & _ & H)]; [discriminate H |].
  apply outcome_bind_Raise in H as [H|(_ & _ & H)].
  - assert (Hprev : outcome
        (url ← asset_href best "rendered_preview";
         print [Str "[Preview] "; Str url] ;;
         if arg_save args
         then download_file lib url
                (match truthy (arg_output args) with
                 | Some o => o
                 | None => "sentinel2_" +:+ item_date best
                 end +:+ "_preview.jpg")
         else mret tt) = Raise e ->
        item_assets best !! "rendered_preview" = None /\
        e = KeyError "rendered_preview").
    { intros H'.
      apply outcome_bind_Raise in H' as [H'|(url & _ & H')];
        [by apply asset_href_Raise |].
      apply outcome_bind_Raise in H' as [H'|(_ & _ & H')];
        [discriminate H' |].
      destruct (arg_save args); [| discriminate H'].
      rewrite download_file_outcome in H'. discriminate H'. }
    destruct (arg_index args);
      [| discriminate H | discriminate H |];
      exists "rendered_preview"; (split; [exact Hs |]); by apply Hprev.
  - assert (Hloop : forall bands, outcome
        (for_each bands (fun band =>
           href ← asset_href best band;
           print [Str "["; Str band; Str "] 部分ダウンロード中..."] ;;
           download_subset lib href
             (match truthy (arg_output args) with
              | Some o => o
              | None => "sentinel2_" +:+ item_date best
              end +:+ "_" +:+ band +:+ ".tif")
             (search_bbox lon lat (arg_bbox_size args)))) = Raise e ->
        exists key, item_assets best !! key = None /\ e = KeyError key).
    { intros bands H'.
      apply for_each_Raise in H' as (band & _ & H'). exists band.
      apply outcome_bind_Raise in H' as [H'|(href & _ & H')];
        [by apply asset_href_Raise |].
      apply outcome_bind_Raise in H' as [H'|(_ & _ & H')];
        [discriminate H' |].
      rewrite download_subset_never_raises in H'. discriminate H'. }
    destruct (arg_index args); [discriminate H | ..];
      (destruct (negb (arg_save args)); [discriminate H |];
       destruct (Hloop _ H) as (key & Hk & He); exists key;
       split; [exact Hs |]; by split).
Qed.

Lemma X15_main_exceptions_witness :
  outcome (resolve_target nowhere_library (address_arguments "Atlantis"))
  = Raise (ValueError ("住所 '" +:+ "Atlantis" +:+
                       "' の座標が見つかりませんでした。")) \/
  (exists req,
     catalog_search nowhere_library req
     = Raise (ValueError ("住所 '" +:+ "Atlantis" +:+
                          "' の座標が見つかりませんでした。"))) \/
  (exists req best rest key,
     catalog_search nowhere_library req = Ok (best :: rest) /\
     item_assets best !! key = None /\
     ValueError ("住所 '" +:+ "Atlantis" +:+
                 "' の座標が見つかりませんでした。") = KeyError key).
Proof.
  apply (X15_main_exceptions nowhere_library (address_arguments "Atlantis")).
  reflexivity.
Defined.

(** ** [main]: the download loop *)

Lemma for_each_all_run {A} (xs : list A) (body : A -> M unit) :
  (forall x, x ∈ xs -> outcome (body x) = Ok tt) ->
  outcome (for_each xs body) = Ok tt /\
  forall x ev, x ∈ xs -> ev ∈ events (body x) ->
    ev ∈ events (for_each xs body).
Proof.
  induction xs as [|x xs IH]; intros Hb; simpl.
  - split; [reflexivity |]. intros x ev Hx. by apply elem_of_nil in Hx.
  - destruct IH as [IHo IHe].
    { intros y Hy. apply Hb. apply elem_of_cons. by right. }
    assert (Hx : outcome (body x) = Ok tt)
      by (apply Hb; apply elem_of_cons; by left).
    split.
    + rewrite outcome_bind, Hx. exact IHo.
    + intros y ev Hy Hev. rewrite events_bind, Hx. apply elem_of_app.
      apply elem_of_cons in Hy as [->|Hy]; [by left |].
      right. by apply (IHe y).
Qed.

Lemma subset_body_opens (lib : library) (href save_path : string)
    (bbox : bounding_box) :
  Call (COpen href) ∈ events (subset_body lib href save_path bbox).
Proof.
  unfold subset_body. rewrite events_bind. apply elem_of_app. left.
  unfold call, events. cbn. apply elem_of_cons. by left.
Qed.

Lemma download_subset_opens (lib : library) (href save_path : string)
    (bbox : bounding_box) :
  Call (COpen href) ∈ events (download_subset lib href save_path bbox).
Proof.
  rewrite download_subset_unfold.
  pose proof (subset_body_opens lib href save_path bbox) as H.
  unfold events in *.
  destruct (subset_body lib href save_path bbox) as [[[]|e] es]; cbn in *.
  - apply elem_of_cons. by right.
  - apply elem_of_cons. right. apply elem_of_app. by left.
Qed.

(** X16. With [--save] and a scene that has the assets the index needs,
    [main] returns normally and attempts every band of the index: each
    band's asset is opened, whatever happened to the preview and to the
    bands before it. One failed download does not stop the others. *)
Theorem X16_every_band_is_attempted (lib : library) (args : arguments)
    (lon lat : float64) (es : list event) (best : item) (rest : list item) :
  resolve_target lib args = (Ok (lon, lat), es) ->
  arg_coord_only args = false ->
  arg_save args = true ->
  catalog_search lib (main_request lib args lon lat) = Ok (best :: rest) ->
  (arg_index args = IdxPreview \/ arg_index args = IdxAll ->
   is_Some (item_assets best !! "rendered_preview")) ->
  (forall band, band ∈ wanted_bands (arg_index args) ->
   is_Some (item_assets best !! band)) ->
  outcome (fetcher_main lib args) = Ok tt /\
  forall band, band ∈ wanted_bands (arg_index args) ->
    exists href, item_assets best !! band = Some href /\
      Call (COpen href) ∈ events (fetcher_main lib args).
Proof.
  intros Hres Hco Hsave Hs Hprev Hbands.
  set (base := match truthy (arg_output args) with
               | Some o => o
               | None => "sentinel2_" +:+ item_date best
               end).
  set (body := fun band : string =>
         href ← asset_href best band;
         print [Str "["; Str band; Str "] 部分ダウンロード中..."] ;;
         download_subset lib href (base +:+ "_" +:+ band +:+ ".tif")
           (search_bbox lon lat (arg_bbox_size args))).
  assert (Hbody : forall band, band ∈ wanted_bands (arg_index args) ->
            outcome (body band) = Ok tt /\
            exists href, item_assets best !! band = Some href /\
              Call (COpen href) ∈ events (body band)).
  { intros band Hb. destruct (Hbands band Hb) as [href Hh].
    unfold body, asset_href. rewrite Hh. split.
    - rewrite outcome_bind. cbn [outcome fst mret M_ret].
      rewrite outcome_bind. cbn [outcome fst print].
      apply download_subset_never_raises.
    - exists href. split; [reflexivity |].
      rewrite events_bind. cbn [outcome fst mret M_ret].
      apply elem_of_app. right.
      rewrite events_bind. cbn [outcome fst print].
      apply elem_of_app. right. apply download_subset_opens. }
  destruct (for_each_all_run (wanted_bands (arg_index args)) body)
    as [Hlo Hle]; [intros band Hb; by apply Hbody |].
  assert (Hpre : outcome
            (match arg_index args with
             | IdxPreview | IdxAll =>
                 url ← asset_href best "rendered_preview";
                 print [Str "[Preview] "; Str url] ;;
                 if arg_save args
                 then download_file lib url (base +:+ "_preview.jpg")
                 else mret tt
             | _ => mret tt
             end) = Ok tt).
  { assert (Hp : is_Some (item_assets best !! "rendered_preview") ->
        outcome
          (url ← asset_href best "rendered_preview";
           print [Str "[Preview] "; Str url] ;;
           if arg_save args
           then download_file lib url (base +:+ "_preview.jpg")
           else mret tt) = Ok tt).
    { intros [url Hu]. unfold asset_href. rewrite Hu, Hsave.
      rewrite outcome_bind. cbn [outcome fst mret M_ret].
      rewrite outcome_bind. cbn [outcome fst print].
      apply download_file_outcome. }
    destruct (arg_index args); try reflexivity; apply Hp; auto. }
  assert (Hloop : (match arg_index args with
             | IdxNdvi | IdxNdwi | IdxAll =>
                 if negb (arg_save args)
                 then print [Str "※解析用データのURL取得は --save オプションが必要です"]
                 else for_each (wanted_bands (arg_index args)) body
             | IdxPreview => mret tt
             end) = for_each (wanted_bands (arg_index args)) body).
  { rewrite Hsave. by destruct (arg_index args). }
  unfold fetcher_main.
  rewrite (bind_Ok _ _ _ _ Hres). cbn beta iota.
  rewrite (bind_Ok _ _ tt [target_line lon lat] eq_refl).
  rewrite Hco. fold (main_request lib args lon lat).
  rewrite (bind_Ok (call _ _) _ (best :: rest)
             [Call (CSearch (main_request lib args lon lat))]);
    [| unfold call; by rewrite Hs].
  cbn beta iota. fold base. fold body.
  rewrite (bind_Ok (print _) _ tt _ eq_refl).
  rewrite Hloop.
  split.
  - cbn [outcome fst]. rewrite outcome_bind, Hpre. exact Hlo.
  - intros band Hb. destruct (Hbody band Hb) as (_ & href & Hh & Hopen).
    exists href. split; [exact Hh |].
    cbn [events snd]. do 3 (apply elem_of_app; right).
    rewrite events_bind, Hpre. do 2 (apply elem_of_app; right).
    by apply (Hle band).
Qed.

Lemma X16_every_band_is_attempted_witness :
  outcome (fetcher_main refusing_library (point_arguments IdxAll false true))
  = Ok tt /\
  forall band, band ∈ wanted_bands IdxAll ->
    exists href, item_assets sample_item !! band = Some href /\
      Call (COpen href)
        ∈ events (fetcher_main refusing_library
                    (point_arguments IdxAll false true)).
Proof.
  apply (X16_every_band_is_attempted refusing_library
           (point_arguments IdxAll false true) sample_lon sample_lat []
           sample_item []); try reflexivity.
  - intros _. by eexists.
  - intros band Hb. vm_compute in Hb.
    repeat (apply elem_of_cons in Hb as [->|Hb]; [by eexists |]).
    by apply elem_of_nil in Hb.
Defined.

(** ** [download_subset]: the complete run *)

(** X17. When the source opens and warps and the window resolves and reads,
    [download_subset] attempts exactly one write, to [save_path], of the
    data it read with the synthesized profile; a write that fails is
    reported like any other failure and the function still returns
    normally. *)
Theorem X17_subset_run (lib : library) (href save_path : string)
    (bbox : bounding_box) (src : dataset) (vrt : view) (w : window)
    (data : list (ndarray pixel)) :
  rio_open lib href = Ok src ->
  warped_vrt lib src "EPSG:4326" = Ok vrt ->
  vrt_window vrt bbox = Ok w ->
  vrt_read vrt w = Ok data ->
  download_subset lib href save_path bbox
  = (Ok tt,
     [start_line save_path;
      Call (COpen href); Call (CWarp "EPSG:4326"); Call (CWindow bbox);
      Call (CRead w);
      Call (CWrite save_path (synthesize_profile vrt w) data)]
     ++ match rio_write lib save_path (synthesize_profile vrt w) data with
        | Ok _ => [Print [Str "完了（切り抜き成功）: "; Str save_path]]
        | Raise e => error_lines e
        end).
Proof.
  intros E1 E2 E3 E4. rewrite download_subset_unfold.
  unfold subset_body, call. rewrite E1. cbn. rewrite E2. cbn.
  rewrite E3. cbn. rewrite E4. cbn.
  by destruct (rio_write lib save_path (synthesize_profile vrt w) data)
    as [[]|e].
Qed.

Lemma X17_subset_run_witness :
  download_subset readonly_library "https://example/B04.tif" "out_B04.tif"
    sample_bbox
  = (Ok tt,
     [start_line "out_B04.tif";
      Call (COpen "https://example/B04.tif"); Call (CWarp "EPSG:4326");
      Call (CWindow sample_bbox); Call (CRead sample_window);
      Call (CWrite "out_B04.tif"
              (synthesize_profile (sample_view read_ok) sample_window)
              [sample_pixels])]
     ++ match rio_write readonly_library "out_B04.tif"
                (synthesize_profile (sample_view read_ok) sample_window)
                [sample_pixels] with
        | Ok _ => [Print [Str "完了（切り抜き成功）: "; Str "out_B04.tif"]]
        | Raise e => error_lines e
        end).
Proof.
  apply (X17_subset_run readonly_library "https://example/B04.tif"
           "out_B04.tif" sample_bbox sample_source (sample_view read_ok)
           sample_window [sample_pixels]); reflexivity.
Defined.

(** X18. Whatever [download_subset] writes goes to [save_path] with driver
    [GTiff] and the transform of the window, and every key of the view's
    profile other than driver, height, width and transform is carried over
    unchanged. *)
Theorem X18_written_profile (lib : library) (href save_path : string)
    (bbox : bounding_box) (path : string) (profile : gmap string pyval)
    (data : list (ndarray pixel)) :
  Call (CWrite path profile data)
    ∈ events (download_subset lib href save_path bbox) ->
  path = save_path /\
  profile !! "driver" = Some (PyStr "GTiff") /\
  exists src vrt w,
    rio_open lib href = Ok src /\
    warped_vrt lib src "EPSG:4326" = Ok vrt /\
    vrt_window vrt bbox = Ok w /\
    profile !! "transform"
      = Some (PyAffine (window_transform (vrt_transform vrt) w)) /\
    forall key : string,
      key <> "driver" -> key <> "height" -> key <> "width" ->
      key <> "transform" ->
      profile !! key = vrt_profile vrt !! key.
Proof.
  intros H.
  apply download_subset_events in H as [H|[H|[e H]]].
  - discriminate H.
  - apply subset_body_write in H
      as (src & vrt & w & E1 & E2 & E3 & E4 & -> & ->).
    destruct (synthesize_profile_lookup vrt w) as (Ht & _ & _ & Hd & Hk).
    split; [reflexivity |]. split; [exact Hd |].
    exists src, vrt, w. repeat (split; [done |]).
    intros key K1 K2 K3 K4. by apply Hk.
  - unfold error_lines in H. by trace_cases H.
Qed.

Lemma X18_written_profile_witness :
  "out_B04.tif" = "out_B04.tif" /\
  synthesize_profile (sample_view read_ok) sample_window !! "driver"
    = Some (PyStr "GTiff") /\
  exists src vrt w,
    rio_open (sample_library read_ok) "https://example/B04.tif" = Ok src /\
    warped_vrt (sample_library read_ok) src "EPSG:4326" = Ok vrt /\
    vrt_window vrt sample_bbox = Ok w /\
    synthesize_profile (sample_view read_ok) sample_window !! "transform"
      = Some (PyAffine (window_transform (vrt_transform vrt) w)) /\
    forall key : string,
      key <> "driver" -> key <> "height" -> key <> "width" ->
      key <> "transform" ->
      synthesize_profile (sample_view read_ok) sample_window !! key
      = vrt_profile vrt !! key.
Proof.
  apply (X18_written_profile (sample_library read_ok)
           "https://example/B04.tif" "out_B04.tif" sample_bbox "out_B04.tif"
           (synthesize_profile (sample_view read_ok) sample_window)
           [sample_pixels]).
  rewrite download_subset_unfold. cbn.
  do 5 (apply elem_of_cons; right). apply elem_of_cons. by left.
Defined.

(** ** [main]: from the address to the search *)

(** X19. A non-empty address takes precedence over a point: [main] asks the
    geocoder, reports the location it returned as the target, and, unless
    [--coord-only], sends the catalog the square centered on that
    location, in this order. *)
Theorem X19_address_feeds_search (lib : library) (args : arguments)
    (address : string) (lon lat : float64) :
  truthy (arg_address args) = Some address ->
  geocode lib address = Ok (Some (lon, lat)) ->
  arg_coord_only args = false ->
  exists rest,
    events (fetcher_main lib args)
    = [Print [Str "住所 '"; Str address; Str "' の座標を検索中..."];
       Call (CGeocode address);
       target_line lon lat;
       Call (CSearch (main_request lib args lon lat))] ++ rest.
Proof.
  intros Ha Hg Hco.
  assert (Hres : resolve_target lib args
                 = (Ok (lon, lat),
                    [Print [Str "住所 '"; Str address; Str "' の座標を検索中..."];
                     Call (CGeocode address)])).
  { unfold resolve_target. rewrite Ha.
    unfold get_coords_from_address, call, print. by rewrite Hg. }
  unfold fetcher_main.
  rewrite (bind_Ok _ _ _ _ Hres). cbn beta iota.
  rewrite (bind_Ok _ _ tt [target_line lon lat] eq_refl).
  rewrite Hco. fold (main_request lib args lon lat).
  rewrite events_bind. cbn [events snd call].
  eexists. reflexivity.
Qed.

Lemma X19_address_feeds_search_witness :
  exists rest,
    events (fetcher_main geocoding_library (address_arguments "Tokyo Dome"))
    = [Print [Str "住所 '"; Str "Tokyo Dome"; Str "' の座標を検索中..."];
       Call (CGeocode "Tokyo Dome");
       target_line sample_lon sample_lat;
       Call (CSearch (main_request geocoding_library
                        (address_arguments "Tokyo Dome")
                        sample_lon sample_lat))] ++ rest.
Proof.
  apply (X19_address_feeds_search geocoding_library
           (address_arguments "Tokyo Dome") "Tokyo Dome");
    reflexivity.
Defined.

(** ** [calculate_index]: empty rasters and the reported extrema *)

Lemma concat_cells_empty {A} (a : ndarray A) :
  well_shaped a -> (nrows a = 0 \/ ncols a = 0)%nat ->
  concat (cells a) = [].
Proof.
  intros [Hr Hc] [Hn|Hm].
  - rewrite Hn in Hr. by destruct (cells a).
  - rewrite Hm in Hc. clear Hr.
    induction Hc as [|row rows Hrow _ IH]; [done |].
    simpl. destruct row; [exact IH | discriminate Hrow].
Qed.

(** X20. Two band files whose first bands have one shape without cells (no
    row, or no column) make [calculate_index] raise, after both files were
    opened: the minimum of an array without cells does not exist, and the
    closing line is never printed. *)
Theorem X20_empty_raster (lib : library) (p1 p2 name : string)
    (src1 src2 : dataset) (raw1 raw2 : ndarray pixel) :
  rio_open lib p1 = Ok src1 -> rio_open lib p2 = Ok src2 ->
  read_band src1 1 = Ok raw1 -> read_band src2 1 = Ok raw2 ->
  well_shaped raw1 -> well_shaped raw2 -> shape raw1 = shape raw2 ->
  (nrows raw1 = 0 \/ ncols raw1 = 0)%nat ->
  calculate_index lib p1 p2 name
  = (Raise (zero_size_error "fmin"),
     [Print [Str "["; Str name; Str "] 計算開始: ";
             Str p1; Str " & "; Str p2];
      Call (COpen p1); Call (COpen p2)]).
Proof.
  intros E1 E2 R1 R2 W1 W2 Hs Hz.
  destruct (normalized_difference_same_shape
              (amap astype_float32 raw1) (amap astype_float32 raw2))
    as (idx & Eidx & Sidx & Widx & _).
  { by apply well_shaped_amap. }
  { by apply well_shaped_amap. }
  { unfold shape in *; simpl. done. }
  assert (Hsh : nrows idx = nrows raw1 /\ ncols idx = ncols raw1)
    by (unfold shape in Sidx; simpl in Sidx; by injection Sidx).
  assert (Hlo : np_nanmin idx = Raise (zero_size_error "fmin")).
  { unfold np_nanmin. rewrite (concat_cells_empty idx Widx); [done | lia]. }
  unfold calculate_index, call, lift, print.
  rewrite E1; cbn -[read_band normalized_difference np_nanmin np_nanmax].
  rewrite R1; cbn -[read_band normalized_difference np_nanmin np_nanmax].
  rewrite E2; cbn -[read_band normalized_difference np_nanmin np_nanmax].
  rewrite R2; cbn -[read_band normalized_difference np_nanmin np_nanmax].
  rewrite Eidx; cbn -[read_band normalized_difference np_nanmin np_nanmax].
  rewrite Hlo. reflexivity.
Qed.

Lemma X20_empty_raster_witness :
  calculate_index (disk_library blank_files) "blank_B08.tif" "blank_B04.tif"
    "NDVI"
  = (Raise (zero_size_error "fmin"),
     [Print [Str "["; Str "NDVI"; Str "] 計算開始: ";
             Str "blank_B08.tif"; Str " & "; Str "blank_B04.tif"];
      Call (COpen "blank_B08.tif"); Call (COpen "blank_B04.tif")]).
Proof.
  apply (X20_empty_raster (disk_library blank_files) "blank_B08.tif"
           "blank_B04.tif" "NDVI" (raster_of 0 3 [] "GTiff")
           (raster_of 0 3 [] "GTiff") (NdArray 0 3 []) (NdArray 0 3 []));
    try reflexivity.
  - split; [reflexivity | constructor].
  - split; [reflexivity | constructor].
  - by left.
Defined.

Lemma fmin_either (x y : float32) : fmin x y = x \/ fmin x y = y.
Proof.
  unfold fmin. destruct x, y; auto; destruct (SFltb _ _); auto.
Qed.

Lemma fmax_either (x y : float32) : fmax x y = x \/ fmax x y = y.
Proof.
  unfold fmax. destruct x, y; auto; destruct (SFltb _ _); auto.
Qed.

Lemma foldl_either (f : float32 -> float32 -> float32) (vs : list float32) :
  (forall x y, f x y = x \/ f x y = y) ->
  forall v, foldl f v vs ∈ v :: vs.
Proof.
  intros Hf. induction vs as [|w vs IH]; intros v; simpl.
  - apply elem_of_cons. by left.
  - specialize (IH (f v w)). apply elem_of_cons in IH as [IH|IH].
    + rewrite IH. destruct (Hf v w) as [-> | ->].
      * apply elem_of_cons. by left.
      * apply elem_of_cons. right. apply elem_of_cons. by left.
    + apply elem_of_cons. right. apply elem_of_cons. by right.
Qed.

Lemma elem_of_concat_cell {A} (a : ndarray A) (x : A) :
  x ∈ concat (cells a) -> exists i j, cell a i j = Some x.
Proof.
  unfold cell. generalize (cells a). intros rows.
  induction rows as [|row rows IH]; simpl; intros H.
  - by apply elem_of_nil in H.
  - apply elem_of_app in H as [H|H].
    + apply list_elem_of_lookup_1 in H as [j Hj]. by exists 0%nat, j.
    + destruct (IH H) as (i & j & Hij). by exists (S i), j.
Qed.

(** X21. On two band files of unsigned 16-bit samples and one non-empty
    shape, [calculate_index] ends by printing the smallest and the largest
    value of the index, and both numbers lie in [[-1, 1]]. *)
Theorem X21_reported_extrema (lib : library) (p1 p2 name : string)
    (raw1 raw2 : ndarray pixel) :
  band_pair_ready lib p1 p2 raw1 raw2 ->
  uint16_raster raw1 -> uint16_raster raw2 ->
  exists idx meta lo hi es,
    calculate_index lib p1 p2 name = (Ok (idx, meta), es) /\
    np_nanmin idx = Ok lo /\ np_nanmax idx = Ok hi /\
    last es = Some (Print [Str "["; Str name; Str "] 計算完了 (Min: "; Num lo;
                           Str ", Max: "; Num hi; Str ")"]) /\
    index_value lo /\ index_value hi.
Proof.
  intros (_ & _ & (src1 & E1 & R1) & (src2 & E2 & R2)
          & W1 & W2 & Hs & Hn & Hm) U1 U2.
  destruct (normalized_difference_same_shape
              (amap astype_float32 raw1) (amap astype_float32 raw2))
    as (idx & Eidx & Sidx & Widx & Cidx).
  { by apply well_shaped_amap. }
  { by apply well_shaped_amap. }
  { unfold shape in *; simpl. done. }
  assert (Hsh : nrows idx = nrows raw1 /\ ncols idx = ncols raw1)
    by (unfold shape in Sidx; simpl in Sidx; by injection Sidx).
  assert (Hsh2 : nrows raw2 = nrows raw1 /\ ncols raw2 = ncols raw1)
    by (unfold shape in Hs; by injection Hs).
  assert (Hrange : forall x, x ∈ concat (cells idx) -> index_value x).
  { intros x Hx. apply elem_of_concat_cell in Hx as (i & j & Hx).
    destruct (cell_Some_lt idx i j x Widx Hx) as [Hi Hj].
    destruct (well_shaped_cell raw1 i j W1) as [p Hp]; [lia | lia |].
    destruct (well_shaped_cell raw2 i j W2) as [q Hq]; [lia | lia |].
    destruct (U1 i j p Hp) as (a & -> & Ra).
    destruct (U2 i j q Hq) as (b & -> & Rb).
    rewrite (Cidx i j (astype_float32 (PxInt a)) (astype_float32 (PxInt b)))
      in Hx by (by rewrite cell_amap, ?Hp, ?Hq).
    injection Hx as <-.
    apply index_cell_range; apply astype_float32_nonneg; lia. }
  destruct (concat_cells_nonempty idx Widx) as (v & vs & Hcells);
    [lia | lia |].
  assert (Hlo : np_nanmin idx = Ok (foldl fmin v vs))
    by (unfold np_nanmin; by rewrite Hcells).
  assert (Hhi : np_nanmax idx = Ok (foldl fmax v vs))
    by (unfold np_nanmax; by rewrite Hcells).
  exists idx, (ds_meta src1), (foldl fmin v vs), (foldl fmax v vs).
  eexists. split; [| split; [exact Hlo | split; [exact Hhi |]]].
  - unfold calculate_index, call, lift, print.
    rewrite E1; cbn -[read_band normalized_difference np_nanmin np_nanmax].
    rewrite R1; cbn -[read_band normalized_difference np_nanmin np_nanmax].
    rewrite E2; cbn -[read_band normalized_difference np_nanmin np_nanmax].
    rewrite R2; cbn -[read_band normalized_difference np_nanmin np_nanmax].
    rewrite Eidx; cbn -[read_band normalized_difference np_nanmin np_nanmax].
    rewrite Hlo; cbn -[read_band normalized_difference np_nanmin np_nanmax].
    rewrite Hhi; cbn -[read_band normalized_difference np_nanmin np_nanmax].
    reflexivity.
  - split; [reflexivity |].
    split; apply Hrange; rewrite Hcells; apply foldl_either;
      [apply fmin_either | apply fmax_either].
Qed.

Lemma X21_reported_extrema_witness :
  exists idx meta lo hi es,
    calculate_index (disk_library farm_files) "farm_B08.tif" "farm_B04.tif"
      "NDVI" = (Ok (idx, meta), es) /\
    np_nanmin idx = Ok lo /\ np_nanmax idx = Ok hi /\
    last es = Some (Print [Str "["; Str "NDVI"; Str "] 計算完了 (Min: "; Num lo;
                           Str ", Max: "; Num hi; Str ")"]) /\
    index_value lo /\ index_value hi.
Proof.
  apply (X21_reported_extrema (disk_library farm_files) "farm_B08.tif"
           "farm_B04.tif" "NDVI"
           (NdArray 2 2 [[PxInt 40; PxInt 30]; [PxInt 0; PxInt 5]])
           (NdArray 2 2 [[PxInt 10; PxInt 30]; [PxInt 0; PxInt 0]])).
  - apply (band_pair_ready_farm "farm_B08.tif" "farm_B04.tif"
             [[40; 30]; [0; 5]]%Z [[10; 30]; [0; 0]]%Z);
      try reflexivity; apply well_shaped_raster_2x2.
  - apply uint16_raster_2x2; lia.
  - apply uint16_raster_2x2; lia.
Defined.
